(** * Luz build orchestrator: change detection, barrier, link, stage

    A shallow embedding of the incremental build pipeline of Luz
    ([luz/build/module.py], [luz/build/components/prefs.py] and the older
    [luz/compiler/] tree) together with the properties its specification
    states about it.

    Conventions.
    - Paths are strings; [Path.name] is [path_name].
    - The hash cache (a Python dict) is a [gmap string string].
    - The file system is a function from paths to nodes, so that
      [exists], [makedirs], [copytree], [rmtree] read as in the source.
    - Helpers of [luz/common/utils.py] and [luz/common/deps.py] that the
      pipeline calls ([get_hash], [resolve_path], [logos]) are fields of an
      environment record, one per call shape; compilers and link tools are
      black boxes that succeed or fail.
    - A concurrent build is a state together with the moves the workers of
      the pools and the main thread can make; a schedule is a list of such
      moves, and the properties hold under every schedule. *)

From Stdlib Require Import String Ascii List Bool Arith Lia.
From stdpp Require Import base option list gmap strings.

Open Scope string_scope.
Open Scope list_scope.
Open Scope nat_scope.

(** ** Paths and messages *)

(** [s] between double quotes, as the messages print names. *)
Definition quoted (s : string) : string :=
  String "034"%char s +:+ String "034"%char "".

(** [str.startswith]. *)
Definition startswith (s pre : string) : bool := String.prefix pre s.

(** [str.endswith]. *)
Definition endswith (s suf : string) : bool :=
  (String.length suf <=? String.length s)
  && String.eqb (substring (String.length s - String.length suf)
                           (String.length suf) s) suf.

(** [sub in s] on strings: [sub] occurs somewhere in [s]. *)
Fixpoint contains (sub s : string) : bool :=
  String.prefix sub s
  || match s with
     | EmptyString => false
     | String _ rest => contains sub rest
     end.

(** The newline character as a string. *)
Definition nl : string := String "010"%char "".

(** [Path.name]: the text after the last slash. *)
Fixpoint name_from (acc s : string) : string :=
  match s with
  | EmptyString => acc
  | String c r =>
      if Ascii.eqb c "/"%char then name_from "" r
      else name_from (acc +:+ String c "") r
  end.

Definition path_name (p : string) : string := name_from "" p.

(** [Path.parent]: the text before the last slash (["/"] for a top-level
    entry, ["."] when there is no slash). *)
Fixpoint parent_from (seen pend s : string) (found : bool) : string * bool :=
  match s with
  | EmptyString => (seen, found)
  | String c r =>
      if Ascii.eqb c "/"%char
      then parent_from (seen +:+ pend) "/" r true
      else parent_from seen (pend +:+ String c "") r found
  end.

Definition path_parent (p : string) : string :=
  match parent_from "" "" p false with
  | (_, false) => "."
  | ("", true) => "/"
  | (d, true) => d
  end.

(** [a / b] on [pathlib] paths, for a relative [b]: the parts of [b] are
    put after those of [a]. A path that is only ["."] has no part, and the
    root ends with its slash already. *)
Definition path_join (a b : string) : string :=
  if String.eqb b "." then a
  else if String.eqb a "." then b
  else if endswith a "/" then a +:+ b
  else a +:+ "/" +:+ b.

(** ** Environment: the helpers the pipeline imports *)

(** A source file as [logos] hands it back: a dict that holds [path] for
    a file left as it is, and [logos], [new_path] and [old_path] for a file
    the preprocessor rewrote. *)
Inductive SourceEntry :=
  | Plain (path : string)
  | Logos (new_path old_path : string).

(** What [resolve_path] returns for a configured file entry: a path, or
    the list of matches when the entry is a pattern. The older modules
    test for it with [type(file_path) is list]. *)
Inductive Resolved :=
  | OnePath (p : string)
  | ManyPaths (ps : list string).

(** [resolve_path] of [common/utils.py] yields one path for a plain
    argument and the list of matches for a wildcard pattern. Its call
    shapes are separate fields: [resolve_path] on a plain path,
    [resolve_glob] on a pattern written in the source, [resolve_entry] on a
    file entry of the configuration, which may be either. *)
Record Utils := {
  get_hash : string -> string;
  resolve_path : string -> string;
  resolve_glob : string -> list string;
  resolve_entry : string -> Resolved;
  logos : list string -> list SourceEntry;
}.

(** ** File system *)

Inductive Node :=
  | Dir
  | File (content : string).

(** The file system as the pipeline sees it: what is at a path. *)
Definition FS := string -> option Node.

Definition path_exists (fs : FS) (p : string) : bool :=
  match fs p with Some _ => true | None => false end.

(** [under d p]: [p] lies strictly below the directory [d]. *)
Definition under (d p : string) : bool := String.prefix (d +:+ "/") p.

(** The rest of [s] after the prefix [pre]. *)
Fixpoint strip_prefix (pre s : string) : option string :=
  match pre, s with
  | EmptyString, _ => Some s
  | String a pre', String b s' =>
      if Ascii.eqb a b then strip_prefix pre' s' else None
  | String _ _, EmptyString => None
  end.

(** [os.makedirs(d, exist_ok=True)]: [d] and its missing ancestors become
    directories. *)
Definition makedirs (d : string) (fs : FS) : FS :=
  fun p =>
    if String.eqb p d || under p d
    then match fs p with Some n => Some n | None => Some Dir end
    else fs p.

(** [shutil.rmtree(d, ignore_errors=True)]: removes the tree rooted at the
    path [d], taken literally: [rmtree] expands no wildcard, and a path
    that does not exist is an ignored error. *)
Definition rmtree (d : string) (fs : FS) : FS :=
  fun p => if String.eqb p d || under d p then None else fs p.

(** The characters the shell takes as they are wherever they stand in a
    word: letters, digits and a few signs. A blank, a quote, a wildcard
    and the other characters the shell gives a meaning to are not among
    them. *)
Definition shell_plain (c : ascii) : bool :=
  let n := nat_of_ascii c in
  ((48 <=? n) && (n <=? 57)) || ((65 <=? n) && (n <=? 90))
  || ((97 <=? n) && (n <=? 122))
  || existsb (Ascii.eqb c) ["/"; "."; "_"; "-"; "+"; ","; ":"; "="; "@"; "%"]%char.

Fixpoint all_chars (f : ascii -> bool) (s : string) : bool :=
  match s with
  | EmptyString => true
  | String c rest => f c && all_chars f rest
  end.

(** A word the shell hands on unchanged: an absolute path of plain
    characters. *)
Definition shell_safe (word : string) : bool :=
  startswith word "/" && all_chars shell_plain word.

(** [check_output(f"rm -rf {prefix}*", shell=True)]. When [prefix] is a
    word the shell hands on unchanged, the wildcard expands to the entries
    whose path starts with [prefix], and [rm -rf] removes them with what
    lies below them; when nothing matches, [rm -f] does nothing. For any
    other [prefix] the command is whatever the shell makes of its text:
    [sh], the shell, run on the command line. *)
Definition rm_rf_glob (sh : string -> FS -> FS) (prefix : string) (fs : FS) : FS :=
  if shell_safe prefix
  then fun p => if String.prefix prefix p then None else fs p
  else sh ("rm -rf " +:+ prefix +:+ "*") fs.

(** [shutil.copytree(src, dst, dirs_exist_ok=True)]: fails when [src] is
    missing; otherwise [dst] is created, entries of [src] are written over
    those of [dst], and other entries of [dst] stay. *)
Definition copytree (src dst : string) (fs : FS) : option FS :=
  if path_exists fs src then
    Some (fun p =>
      if String.eqb p dst then Some Dir
      else match strip_prefix (dst +:+ "/") p with
           | Some rest =>
               match fs (src +:+ "/" +:+ rest) with
               | Some n => Some n
               | None => fs p
               end
           | None => fs p
           end)
  else None.

(** Opening [path] for writing and writing [content]. *)
Definition write_file (path content : string) (fs : FS) : FS :=
  fun p => if String.eqb p path then Some (File content) else fs p.

(** A staging hook of the configuration, when one is set. *)
Definition run_hook (hook : option (FS -> FS)) (fs : FS) : FS :=
  match hook with
  | Some h => h fs
  | None => fs
  end.

(** ** External tools *)

(** The tool invocations of the link stage, without their flag lists. *)
Inductive Cmd :=
  | CLink (arch : string) (objects : list string) (out : string)
  | CLipo (inputs : list string) (out : string)
  | CStrip (target : string)
  | CAddRpath (rpath target : string)
  | CLdid (target : string).

(** The compilers, the tools of the link stage and the shell, as black
    boxes: whether compiling [file] for [arch] succeeds, what it leaves at
    its output paths, whether a tool invocation succeeds, and what a
    command line run through [/bin/sh] leaves of the file system. *)
Record Toolchain := {
  cc_ok : string -> string -> bool;
  cc_output : string -> string -> option string;
  run : Cmd -> bool;
  sh : string -> FS -> FS;
}.

(** How a call ends: a returned value, a raised exception, or [exit]. *)
Inductive Outcome (A : Type) :=
  | Returned (a : A)
  | Raised (msg : string)
  | Exited (code : nat) (msg : string).
Arguments Returned {A} a.
Arguments Raised {A} msg.
Arguments Exited {A} code msg.

(** ** The hash cache *)

(** Modelled from the spec: [update_hashlist] of the project object is not
    among the sources; the cache is "mutated in place as each module
    computes new hashes", so the new entries are merged over the old
    ones. *)
Definition update_hashlist (new_hashes hashlist : gmap string string)
  : gmap string string :=
  new_hashes ∪ hashlist.

(** ** [luz/build/module.py]: [ModuleBuilder] *)

Module ModuleBuilder.

(** The [compile_type] argument: ["dylib"] or ["executable"]. *)
Inductive CompileType := Dylib | Executable.

(** What the methods read from [self], [self.module], [self.meta] and
    [self.luz]. *)
Record Self := {
  name : string;
  luz_path : string;
  obj_dir : string;
  dylib_dir : string;
  bin_dir : string;
  install_name : string;
  archs : list string;
  release : bool;
  pack : bool;
  now : string;
  only_compile_changed : bool;
  hashlist : gmap string string;
}.

(** File path formatting, the first loop of [__hash_files]. *)
Definition format_file (u : Utils) (s : Self) (file : string) : string :=
  resolve_path u
    (if negb (startswith file "/") then luz_path s +:+ "/" +:+ file
     else file).

Definition object_pattern (s : Self) (file : string) : string :=
  obj_dir s +:+ "/*/" +:+ path_name file +:+ "*-*.o".

Definition lipod_pattern (s : Self) : string :=
  obj_dir s +:+ "/*/" +:+ install_name s.

(** One round of the loop over [files_to_compile]: the verdict on [file]
    and the entry of [new_hashes]. *)
Definition hash_file (u : Utils) (s : Self)
    (acc : list string * gmap string string) (file : string)
  : list string * gmap string string :=
  let '(changed, new_hashes) := acc in
  let arch_count := length (archs s) in
  let fhash := hashlist s !! file in
  let new_hash := get_hash u file in
  let changed :=
    match fhash with
    | None => changed ++ [file]
    | Some h =>
        if String.eqb h new_hash then
          let object_paths := resolve_glob u (object_pattern s file) in
          let lipod_paths := resolve_glob u (lipod_pattern s) in
          if (length object_paths <? arch_count)%nat
             || (length lipod_paths <? arch_count)%nat
          then changed ++ [file]
          else changed
        else changed ++ [file]
    end in
  (changed, <[file := new_hash]> new_hashes).

Definition hash_loop (u : Utils) (s : Self) (files_to_compile : list string)
  : list string * gmap string string :=
  fold_left (hash_file u s) files_to_compile ([], ∅).

(** The list chosen by the policy, and its replacement by the full list
    when it is not empty. *)
Definition files_list (s : Self) (changed files_to_compile : list string)
  : list string :=
  let files := if only_compile_changed s then changed else files_to_compile in
  if (length files =? 0)%nat then [] else files_to_compile.

(** [ThreadPoolExecutor(max_workers=n)] refuses a count that is not
    positive. *)
Definition pool_error : string := "ValueError: max_workers must be greater than 0".

(** [__hash_files]: the cache after the hashing phase, and the files
    handed to the compile stage or the exception raised. The last step
    makes the pool of the compile tasks, one worker per file and
    architecture; the cache has been updated by then. *)
Definition hash_files (u : Utils) (s : Self) (files : list string)
  : gmap string string * Outcome (list SourceEntry) :=
  let files_to_compile := map (format_file u s) files in
  let '(changed, new_hashes) := hash_loop u s files_to_compile in
  let hashlist' := update_hashlist new_hashes (hashlist s) in
  match files_list s changed files_to_compile with
  | [] => (hashlist', Returned [])
  | fs =>
      let files := logos u fs in
      if (length files * length (archs s) =? 0)%nat
      then (hashlist', Raised pool_error)
      else (hashlist', Returned files)
  end.

(** The loop of [__linker] over the architectures: each link that is
    tried is recorded, the first failure ends the loop. *)
Fixpoint link_archs (u : Utils) (run : Cmd -> bool) (s : Self)
    (archs : list string) : list Cmd * option string :=
  match archs with
  | [] => ([], None)
  | arch :: rest =>
      let strings := resolve_glob u (obj_dir s +:+ "/" +:+ arch +:+ "/*.o") in
      let c := CLink arch strings
                 (obj_dir s +:+ "/" +:+ arch +:+ "/" +:+ install_name s) in
      if run c then
        let '(t, r) := link_archs u run s rest in (c :: t, r)
      else
        ([c], Some ("An error occured when trying to link files for module "
                    +:+ quoted (name s) +:+ " for architecture " +:+ quoted arch +:+ "."))
  end.

Definition out_name (u : Utils) (s : Self) (compile_type : CompileType) : string :=
  match compile_type with
  | Dylib => resolve_path u (dylib_dir s +:+ "/" +:+ install_name s)
  | Executable => resolve_path u (bin_dir s +:+ "/" +:+ install_name s)
  end.

(** [__linker]: the tool invocations tried, in order, and the value
    returned. *)
Definition linker (u : Utils) (run : Cmd -> bool) (fs : FS) (s : Self)
    (files : list SourceEntry) (compile_type : CompileType)
  : list Cmd * option string :=
  let out := out_name u s compile_type in
  if (length files =? 0) && path_exists fs out then ([], None)
  else
    match link_archs u run s (archs s) with
    | (t, Some e) => (t, Some e)
    | (t, None) =>
        let compiled :=
          map (fun arch => obj_dir s +:+ "/" +:+ arch +:+ "/" +:+ install_name s)
              (archs s) in
        let lipo := CLipo compiled out in
        if negb (run lipo) then
          (t ++ [lipo],
           Some ("An error occured when trying to lipo files for module "
                 +:+ quoted (name s) +:+ "."))
        else
          let t := t ++ [lipo] in
          let strip_step :=
            match compile_type with
            | Executable => release s
            | Dylib => false
            end in
          if strip_step && negb (run (CStrip out)) then
            (t ++ [CStrip out],
             Some ("An error occured when trying to strip " +:+ quoted out
                   +:+ " for module " +:+ quoted (name s) +:+ "."))
          else
            let t := if strip_step then t ++ [CStrip out] else t in
            if negb (run (CLdid out)) then
              (t ++ [CLdid out],
               Some ("An error occured when trying codesign " +:+ quoted out
                     +:+ " for module " +:+ quoted (name s) +:+ "."))
            else (t ++ [CLdid out], None)
    end.

(** *** Construction *)

(** The module description [__init__] extends. *)
Record ModuleCfg := {
  files : list string;
  include_dirs : list string;
  library_dirs : list string;
  framework_dirs : list string;
  private_frameworks : list string;
}.

Definition private_frameworks_error (sdk : string) : string :=
  "Private frameworks are not available on the SDK being used. (" +:+ sdk +:+ ")".

(** The search paths [__init__] adds, up to the check of the private
    frameworks. [cloned_headers] and [cloned_libs] are what
    [clone_headers] and [clone_libraries] return. *)
Definition init_search_paths (u : Utils) (fs : FS)
    (cloned_headers cloned_libs sdk storage : string) (m : ModuleCfg)
  : Outcome ModuleCfg :=
  let inc := include_dirs m ++ [cloned_headers] in
  let lib := library_dirs m ++ [cloned_libs] in
  let fw := framework_dirs m ++ [cloned_libs] in
  let inc := inc ++ [sdk +:+ "/usr/include"] in
  let lib := lib ++ [sdk +:+ "/usr/lib"] in
  let fw := fw ++ [sdk +:+ "/System/Library/Frameworks"] in
  let inc := inc ++ [storage +:+ "/headers"] in
  let lib := lib ++ [storage +:+ "/lib"] in
  let fw := fw ++ [storage +:+ "/lib"] in
  let lib :=
    if existsb (fun file => endswith file ".swift") (files m)
    then lib ++ ["/usr/lib/swift"; sdk +:+ "/usr/lib/swift"]
    else lib in
  let done fw :=
    {| files := files m; include_dirs := inc; library_dirs := lib;
       framework_dirs := fw; private_frameworks := private_frameworks m |} in
  match private_frameworks m with
  | [] => Returned (done fw)
  | _ :: _ =>
      if path_exists fs
           (resolve_path u (sdk +:+ "/System/Library/PrivateFrameworks"))
      then Returned (done (fw ++ [sdk +:+ "/System/Library/PrivateFrameworks"]))
      else Raised (private_frameworks_error sdk)
  end.

(** [__init__]: the search paths, then the hashing phase. A failure of the
    first leaves the second undone. *)
Definition init (u : Utils) (fs : FS)
    (cloned_headers cloned_libs sdk storage : string) (s : Self) (m : ModuleCfg)
  : Outcome (ModuleCfg * gmap string string * list SourceEntry) :=
  match init_search_paths u fs cloned_headers cloned_libs sdk storage m with
  | Returned m' =>
      match hash_files u s (files m') with
      | (hashlist', Returned files') => Returned (m', hashlist', files')
      | (_, Raised e) => Raised e
      | (_, Exited c e) => Exited c e
      end
  | Raised e => Raised e
  | Exited c e => Exited c e
  end.

(** *** Compilation *)

(** The path a source entry is compiled from. *)
Definition entry_path (e : SourceEntry) : string :=
  match e with
  | Plain path => path
  | Logos new_path _ => new_path
  end.

(** The text before the last slash, as [split] and [join] give it. *)
Definition dirname_text (p : string) : string :=
  fst (parent_from "" "" p false).

(** [__handle_logos]: [files_paths] and the include directories. *)
Definition handle_logos (files : list SourceEntry) (include_dirs : list string)
  : list string * list string :=
  fold_left
    (fun acc file =>
       let '(files_paths, inc) := acc in
       match file with
       | Logos new_path orig_path =>
           let include_path := dirname_text orig_path in
           (files_paths ++ [new_path],
            if existsb (String.eqb include_path) inc then inc
            else inc ++ [include_path])
       | Plain path => (files_paths ++ [path], inc)
       end)
    files ([], include_dirs).

(** The prefix [rm -rf] and [rmtree] are given for a file and an
    architecture, without the final star. *)
Definition stem_prefix (s : Self) (arch file : string) : string :=
  obj_dir s +:+ "/" +:+ arch +:+ "/" +:+ path_name file +:+ "-".

(** The loop of [compile] that cleans the architecture directories. *)
Definition clean_arch (tc : Toolchain) (s : Self) (files_paths : list string)
    (fs : FS) (arch : string) : FS :=
  makedirs (obj_dir s +:+ "/" +:+ arch)
    (fold_left (fun fs x => rm_rf_glob (sh tc) (stem_prefix s arch x) fs)
               files_paths fs).

Definition clean_arch_dirs (tc : Toolchain) (s : Self) (files_paths : list string)
    (fs : FS) : FS :=
  fold_left (clean_arch tc s files_paths) (archs s) fs.

(** The paths one compiler invocation writes: an object, and for Swift a
    module interface beside it. *)
Definition outputs (s : Self) (arch file : string) : list string :=
  let stem := stem_prefix s arch file +:+ now s in
  if endswith file ".swift" then [stem +:+ ".o"; stem +:+ ".swiftmodule"]
  else [stem +:+ ".o"].

(** The peers a Swift file is compiled with. *)
Definition peers (files_paths : list string) (file : string) : list string :=
  if endswith file ".swift"
  then List.filter (fun x => negb (String.eqb x file) && endswith x ".swift")
                   files_paths
  else [].

Definition arch_error (s : Self) (file : string) : string :=
  if endswith file ".swift"
  then "An error occured when trying to compile " +:+ quoted file
       +:+ " for module " +:+ quoted (name s) +:+ "."
  else "An error occured when attempting to compile " +:+ quoted file
       +:+ " for module " +:+ quoted (name s) +:+ ".".

Definition file_error (s : Self) : string :=
  "An error occured when attempting to compile for module "
  +:+ quoted (name s) +:+ ".".

(** [__stage] of the builder. [root_dir] and [install_dir] are paths of
    [pathlib]; [install_dir] has been made relative by [__init__], which
    leaves ["."] of the root. *)
Definition stage (s : Self) (compile_type : CompileType)
    (root_dir install_dir : string) (before_stage after_stage : option (FS -> FS))
    (fs : FS) : FS * Outcome (option string) :=
  let fs := run_hook before_stage fs in
  let dirtocopy := path_join root_dir install_dir in
  let fs := if negb (path_exists fs (path_parent dirtocopy))
            then makedirs (path_parent dirtocopy) fs else fs in
  let linked := match compile_type with
                | Executable => bin_dir s
                | Dylib => dylib_dir s
                end in
  match copytree linked dirtocopy fs with
  | Some fs => (run_hook after_stage fs, Returned None)
  | None => (fs, Raised "FileNotFoundError")
  end.

(** A future of one of the two pools. *)
Inductive Status :=
  | Queued
  | Running
  | Done (result : option string).

Definition is_done (x : Status) : bool :=
  match x with Done _ => true | _ => false end.

Definition failed (x : Status) : bool :=
  match x with Done (Some _) => true | _ => false end.

(** What a build does that the properties speak of: a compiler invocation
    with the file system it finds and the paths written so far in this
    run, the call of [__linker], a tool of the link stage, the call of the
    stage step. *)
Inductive Event :=
  | EInvoke (file arch : string) (with_peers : list string)
            (seen : FS) (fresh : list string)
  | ELinker
  | ECmd (c : Cmd)
  | EStage.

(** A build in progress. [file_tasks] are the futures [compile] waits
    for, one per file; [arch_tasks] the futures [__compile_file] waits
    for, one row per file and one entry per architecture once the file's
    task has submitted them; [written] collects the output paths written
    in this run; [returned] is what [compile] returned, once it has. *)
Record State := {
  fs : FS;
  file_tasks : list Status;
  arch_tasks : list (list Status);
  written : list string;
  events : list Event;
  returned : option (Outcome (option string));
}.

(** The moves of the pools and of the thread that runs [compile]. *)
Inductive Choice :=
  | StartFile (i : nat)
  | StartArch (i j : nat)
  | EndArch (i j : nat)
  | EndFile (i : nat)
  | PassBarrier.

Definition get_arch (i j : nat) (tasks : list (list Status)) : option Status :=
  match tasks !! i with
  | Some row => row !! j
  | None => None
  end.

Definition set_arch (i j : nat) (x : Status) (tasks : list (list Status))
  : list (list Status) :=
  match tasks !! i with
  | Some row => <[i := <[j := x]> row]> tasks
  | None => tasks
  end.

(** The element of [files_paths] that [__compile_file] picks for an
    entry: the first one equal to its [new_path] or [path]. *)
Definition chosen_path (files_paths : list string) (e : SourceEntry)
  : option string :=
  find (String.eqb (entry_path e)) files_paths.

(** The loop over the futures: the first result that is not [None]. *)
Fixpoint first_failure (tasks : list Status) : option string :=
  match tasks with
  | [] => None
  | Done (Some e) :: _ => Some e
  | _ :: rest => first_failure rest
  end.

(** What [compile] does once [wait] lets it through. *)
Definition after_barrier (u : Utils) (tc : Toolchain) (s : Self)
    (files : list SourceEntry) (compile_type : CompileType)
    (stage_step : FS -> FS * Outcome (option string)) (st : State) : State :=
  match first_failure (file_tasks st) with
  | Some e =>
      {| fs := fs st; file_tasks := file_tasks st; arch_tasks := arch_tasks st;
         written := written st; events := events st;
         returned := Some (Returned (Some e)) |}
  | None =>
      let '(cmds, linker_results) :=
        linker u (run tc) (fs st) s files compile_type in
      let events := events st ++ [ELinker] ++ map ECmd cmds in
      match linker_results with
      | Some e =>
          {| fs := fs st; file_tasks := file_tasks st;
             arch_tasks := arch_tasks st; written := written st;
             events := events; returned := Some (Returned (Some e)) |}
      | None =>
          if pack s then
            let '(fs', stage_result) := stage_step (fs st) in
            {| fs := fs'; file_tasks := file_tasks st;
               arch_tasks := arch_tasks st; written := written st;
               events := events ++ [EStage]; returned := Some stage_result |}
          else
            {| fs := fs st; file_tasks := file_tasks st;
               arch_tasks := arch_tasks st; written := written st;
               events := events; returned := Some (Returned None) |}
      end
  end.

(** One move, when it is possible.
    - [StartFile i]: a worker of the outer pool takes [__compile_file] for
      the i-th file, which submits one task per architecture.
    - [StartArch i j]: a worker of the inner pool takes the task of file i
      and architecture j: [rmtree] on the stem pattern, then the compiler
      is invoked.
    - [EndArch i j]: that compiler finishes.
    - [EndFile i]: [wait] in [__compile_file] returns, which takes every
      future of the file done; the results are checked.
    - [PassBarrier]: [wait] in [compile] returns, which takes every future
      of [compile] done. *)
Definition exec (u : Utils) (tc : Toolchain) (s : Self)
    (files : list SourceEntry) (compile_type : CompileType)
    (stage_step : FS -> FS * Outcome (option string))
    (c : Choice) (st : State) : option State :=
  let files_paths := fst (handle_logos files []) in
  match c with
  | StartFile i =>
      match file_tasks st !! i, files !! i ≫= chosen_path files_paths with
      | Some Queued, Some _ =>
          Some {| fs := fs st;
                  file_tasks := <[i := Running]> (file_tasks st);
                  arch_tasks :=
                    <[i := replicate (length (archs s)) Queued]> (arch_tasks st);
                  written := written st; events := events st;
                  returned := returned st |}
      | _, _ => None
      end
  | StartArch i j =>
      match files !! i ≫= chosen_path files_paths, archs s !! j,
            get_arch i j (arch_tasks st) with
      | Some file, Some arch, Some Queued =>
          let fs' := rmtree (stem_prefix s arch file +:+ "*") (fs st) in
          Some {| fs := fs'; file_tasks := file_tasks st;
                  arch_tasks := set_arch i j Running (arch_tasks st);
                  written := written st;
                  events := events st
                            ++ [EInvoke file arch (peers files_paths file)
                                        fs' (written st)];
                  returned := returned st |}
      | _, _, _ => None
      end
  | EndArch i j =>
      match files !! i ≫= chosen_path files_paths, archs s !! j,
            get_arch i j (arch_tasks st) with
      | Some file, Some arch, Some Running =>
          let result := if cc_ok tc file arch then None
                        else Some (arch_error s file) in
          let '(fs', written') :=
            match cc_output tc file arch with
            | Some content =>
                (fold_left (fun fs out => write_file out content fs)
                           (outputs s arch file) (fs st),
                 written st ++ outputs s arch file)
            | None => (fs st, written st)
            end in
          Some {| fs := fs'; file_tasks := file_tasks st;
                  arch_tasks := set_arch i j (Done result) (arch_tasks st);
                  written := written'; events := events st;
                  returned := returned st |}
      | _, _, _ => None
      end
  | EndFile i =>
      match file_tasks st !! i, arch_tasks st !! i with
      | Some Running, Some row =>
          if forallb is_done row then
            let result := if existsb failed row then Some (file_error s)
                          else None in
            Some {| fs := fs st;
                    file_tasks := <[i := Done result]> (file_tasks st);
                    arch_tasks := arch_tasks st; written := written st;
                    events := events st; returned := returned st |}
          else None
      | _, _ => None
      end
  | PassBarrier =>
      match returned st with
      | Some _ => None
      | None =>
          if forallb is_done (file_tasks st)
          then Some (after_barrier u tc s files compile_type stage_step st)
          else None
      end
  end.

(** [compile] up to the submission of the file tasks: the architecture
    directories are cleaned and every file has a future. *)
Definition start (tc : Toolchain) (s : Self) (files : list SourceEntry)
    (fs0 : FS) : State :=
  {| fs := clean_arch_dirs tc s (fst (handle_logos files [])) fs0;
     file_tasks := replicate (length files) Queued;
     arch_tasks := replicate (length files) [];
     written := []; events := []; returned := None |}.

(** A build under a schedule: the moves in the order the pools and the
    main thread make them. [None] when a move is not possible where the
    schedule puts it. *)
Fixpoint run_schedule (u : Utils) (tc : Toolchain) (s : Self)
    (files : list SourceEntry) (compile_type : CompileType)
    (stage_step : FS -> FS * Outcome (option string))
    (schedule : list Choice) (st : State) : option State :=
  match schedule with
  | [] => Some st
  | c :: rest =>
      match exec u tc s files compile_type stage_step c st with
      | Some st' => run_schedule u tc s files compile_type stage_step rest st'
      | None => None
      end
  end.

End ModuleBuilder.

(** ** [luz/compiler/modules/tweak.py]: [Tweak] *)

Module Tweak.

(** What the methods read from [self] and [self.luzbuild]. *)
Record Self := {
  luzbuild_path : string;
  dir : string;
  name : string;
  archs : list string;
  now : string;
  only_compile_changed : bool;
  hashlist : gmap string string;
}.

(** File path formatting: a list result is spliced in, a single path is
    appended. *)
Definition format_file (u : Utils) (s : Self) (file : string) : list string :=
  let file :=
    if negb (startswith file "/") then luzbuild_path s +:+ "/" +:+ file
    else file in
  match resolve_entry u file with
  | ManyPaths ps => ps
  | OnePath p => [p]
  end.

Definition object_pattern (s : Self) (file : string) : string :=
  dir s +:+ "/obj/" +:+ name s +:+ "/*/" +:+ path_name file +:+ "*-*.o".

Definition dylib_pattern (s : Self) : string :=
  dir s +:+ "/obj/" +:+ name s +:+ "/*/" +:+ name s +:+ ".dylib".

Definition hash_file (u : Utils) (s : Self)
    (acc : list string * gmap string string) (file : string)
  : list string * gmap string string :=
  let '(changed, new_hashes) := acc in
  let arch_count := length (archs s) in
  let fhash := hashlist s !! file in
  let new_hash := get_hash u file in
  let changed :=
    match fhash with
    | None => changed ++ [file]
    | Some h =>
        if String.eqb h new_hash then
          let object_paths := resolve_glob u (object_pattern s file) in
          let dylib_paths := resolve_glob u (dylib_pattern s) in
          if (length object_paths <? arch_count)
             || (length dylib_paths <? arch_count)
          then changed ++ [file]
          else changed
        else changed ++ [file]
    end in
  (changed, <[file := new_hash]> new_hashes).

Definition hash_loop (u : Utils) (s : Self) (files_to_compile : list string)
  : list string * gmap string string :=
  fold_left (hash_file u s) files_to_compile ([], ∅).

Definition files_list (s : Self) (changed files_to_compile : list string)
  : list string :=
  let files := if only_compile_changed s then changed else files_to_compile in
  if length files =? 0 then [] else files_to_compile.

(** [__hash_files]. The test [filter(...) != []] compares a filter
    object with a list and always holds, so [logos] always runs. *)
Definition hash_files (u : Utils) (s : Self) (files : list string)
  : gmap string string * list SourceEntry :=
  let files_to_compile := concat (map (format_file u s) files) in
  let '(changed, new_hashes) := hash_loop u s files_to_compile in
  let hashlist' := update_hashlist new_hashes (hashlist s) in
  match files_list s changed files_to_compile with
  | [] => (hashlist', [])
  | fs => (hashlist', logos u fs)
  end.

Fixpoint link_archs (u : Utils) (run : Cmd -> bool) (s : Self)
    (archs : list string) : list Cmd * option string :=
  match archs with
  | [] => ([], None)
  | arch :: rest =>
      let objects :=
        resolve_glob u (dir s +:+ "/obj/" +:+ name s +:+ "/" +:+ arch +:+ "/*.o") in
      let c := CLink arch objects
                 (dir s +:+ "/obj/" +:+ name s +:+ "/" +:+ arch +:+ "/"
                  +:+ name s +:+ ".dylib") in
      if run c then
        let '(t, r) := link_archs u run s rest in (c :: t, r)
      else
        ([c], Some ("An error occured when trying to link files for module "
                    +:+ quoted (name s) +:+ " for architecture " +:+ quoted arch +:+ "."))
  end.

Definition dylib_path (s : Self) : string :=
  dir s +:+ "/dylib/" +:+ name s +:+ "/" +:+ name s +:+ ".dylib".

(** [__linker]. The inputs of [lipo] are left to the shell as the
    pattern [obj/<name>/*/<name>.dylib]. *)
Definition linker (u : Utils) (run : Cmd -> bool) (fs : FS) (s : Self)
    (rootless : bool) (files : list SourceEntry)
  : list Cmd * option string :=
  if (length files =? 0) && path_exists fs (resolve_path u (dylib_path s))
  then ([], None)
  else
    match link_archs u run s (archs s) with
    | (t, Some e) => (t, Some e)
    | (t, None) =>
        let lipo := CLipo (resolve_glob u (dylib_pattern s)) (dylib_path s) in
        if negb (run lipo) then
          (t ++ [lipo],
           Some ("An error occured when trying to lipo files for module "
                 +:+ quoted (name s) +:+ "."))
        else
          let rpath := if rootless then "/var/jb/Library/Frameworks/"
                       else "/Library/Frameworks" in
          let add_rpath := CAddRpath rpath (dylib_path s) in
          if negb (run add_rpath) then
            (t ++ [lipo; add_rpath],
             Some ("An error occured when trying to add rpath to "
                   +:+ quoted (dylib_path s) +:+ " for module "
                   +:+ quoted (name s) +:+ "."))
          else
            if negb (run (CLdid (dylib_path s))) then
              (t ++ [lipo; add_rpath; CLdid (dylib_path s)],
               Some ("An error occured when trying to codesign "
                     +:+ quoted (dylib_path s) +:+ ". (" +:+ name s +:+ ")"))
            else (t ++ [lipo; add_rpath; CLdid (dylib_path s)], None)
    end.

Definition rootless_warning (name : string) : string :=
  "Custom install directory for module " +:+ quoted name
  +:+ " was specified, and rootless is enabled. Prefixing path with /var/jb.".

(** The first half of [__stage]: the warnings logged, [dirtomake] and
    [dirtocopy]. *)
Definition stage_dirs (u : Utils) (s : Self) (rootless : bool)
    (install_dir : option string) : list string * string * string :=
  match install_dir with
  | None =>
      ([],
       if negb rootless
       then resolve_path u (dir s +:+ "/_/Library/MobileSubstrate/")
       else resolve_path u (dir s +:+ "/_/var/jb/usr/lib/"),
       if negb rootless
       then resolve_path u (dir s +:+ "/_/Library/MobileSubstrate/DynamicLibraries/")
       else resolve_path u (dir s +:+ "/_/var/jb/usr/lib/TweakInject"))
  | Some d =>
      let warnings := if rootless then [rootless_warning (name s)] else [] in
      let install_dir := resolve_path u d in
      (warnings,
       if negb rootless
       then resolve_path u (dir s +:+ "/_/" +:+ path_parent install_dir)
       else resolve_path u (dir s +:+ "/_/var/jb/" +:+ path_parent install_dir),
       if negb rootless
       then resolve_path u (dir s +:+ "/_/" +:+ install_dir)
       else resolve_path u (dir s +:+ "/_/var/jb/" +:+ install_dir))
  end.

(** [s[:-2]]. *)
Definition drop_last2 (s : string) : string :=
  substring 0 (String.length s - 2) s.

(** One block of the filter descriptor. *)
Definition filter_block (label : string) (items : option (list string))
    (msg : string) : string :=
  match items with
  | None => msg
  | Some l =>
      let msg := msg +:+ "    " +:+ label +:+ " = ( " in
      let msg := fold_left (fun m x => m +:+ quoted x +:+ ", ") l msg in
      drop_last2 msg +:+ " );" +:+ nl
  end.

Definition filter_text (bundles executables : option (list string)) : string :=
  let msg := "Filter = {" +:+ nl in
  let msg := filter_block "Bundles" bundles msg in
  let msg := filter_block "Executables" executables msg in
  msg +:+ "};".

(** [__stage]. *)
Definition stage (u : Utils) (fs : FS) (s : Self) (rootless : bool)
    (install_dir : option string) (bundles executables : option (list string))
  : list string * FS * Outcome unit :=
  let '(warnings, dirtomake, dirtocopy) :=
    stage_dirs u s rootless install_dir in
  let fs := if negb (path_exists fs dirtomake) then makedirs dirtomake fs
            else fs in
  match copytree (dir s +:+ "/dylib/" +:+ name s) dirtocopy fs with
  | Some fs' =>
      (warnings,
       write_file (dirtocopy +:+ "/" +:+ name s +:+ ".plist")
                  (filter_text bundles executables) fs',
       Returned tt)
  | None => (warnings, fs, Raised "FileNotFoundError")
  end.

(** *** Compilation *)

Definition obj_dir (s : Self) : string := dir s +:+ "/obj/" +:+ name s.

Definition stem_prefix (s : Self) (arch file : string) : string :=
  obj_dir s +:+ "/" +:+ arch +:+ "/" +:+ path_name file +:+ "-".

(** The first loop of [compile]: each architecture directory is removed
    and made again. *)
Definition clean_arch_dirs (s : Self) (fs : FS) : FS :=
  fold_left
    (fun fs arch =>
       makedirs (obj_dir s +:+ "/" +:+ arch) (rmtree (obj_dir s +:+ "/" +:+ arch) fs))
    (archs s) fs.

(** [files_paths], the second loop of [compile]; the include flags it
    extends on the way are left out. *)
Definition files_paths (files : list SourceEntry) : list string :=
  map ModuleBuilder.entry_path files.

(** [self.include] after that loop: the directory of the original of a
    preprocessed file is appended as a flag unless its text occurs in the
    flags already. *)
Definition include_flags (files : list SourceEntry) (include : string) : string :=
  fold_left
    (fun include file =>
       match file with
       | Logos _ orig_path =>
           let include_path := ModuleBuilder.dirname_text orig_path in
           if contains include_path include then include
           else include +:+ " -I" +:+ include_path
       | Plain _ => include
       end)
    files include.

Definition outputs (s : Self) (arch file : string) : list string :=
  let stem := stem_prefix s arch file +:+ now s in
  if endswith file ".swift" then [stem +:+ ".o"; stem +:+ ".swiftmodule"]
  else [stem +:+ ".o"].

Definition file_error (s : Self) : string :=
  "An error occured when attempting to compile for module "
  +:+ quoted (name s) +:+ ".".

(** A task of [pool.map]: waiting for a worker, in the loop of
    [__compile_tweak_file] at the k-th architecture, or returned. *)
Inductive Progress :=
  | Waiting
  | AtArch (k : nat)
  | Finished (result : option string).

Definition is_finished (x : Progress) : bool :=
  match x with Finished _ => true | _ => false end.

Fixpoint first_failure (tasks : list Progress) : option string :=
  match tasks with
  | [] => None
  | Finished (Some e) :: _ => Some e
  | _ :: rest => first_failure rest
  end.

Record State := {
  fs : FS;
  tasks : list Progress;
  written : list string;
  events : list ModuleBuilder.Event;
  returned : option (Outcome (option string));
}.

Inductive Choice :=
  | Advance (i : nat)
  | PassBarrier.

(** What [compile] does once [pool.map] has handed back every result.
    The value of [__stage] is not used. *)
Definition after_barrier (u : Utils) (tc : Toolchain) (s : Self)
    (rootless : bool) (install_dir : option string)
    (bundles executables : option (list string))
    (files : list SourceEntry) (st : State) : State :=
  match first_failure (tasks st) with
  | Some e =>
      {| fs := fs st; tasks := tasks st; written := written st;
         events := events st; returned := Some (Returned (Some e)) |}
  | None =>
      let '(cmds, linker_results) := linker u (run tc) (fs st) s rootless files in
      let events :=
        events st ++ [ModuleBuilder.ELinker] ++ map ModuleBuilder.ECmd cmds in
      match linker_results with
      | Some e =>
          {| fs := fs st; tasks := tasks st; written := written st;
             events := events; returned := Some (Returned (Some e)) |}
      | None =>
          let '(_, fs', staged) :=
            stage u (fs st) s rootless install_dir bundles executables in
          {| fs := fs'; tasks := tasks st; written := written st;
             events := events ++ [ModuleBuilder.EStage];
             returned := Some (match staged with
                               | Returned _ => Returned None
                               | Raised e => Raised e
                               | Exited c e => Exited c e
                               end) |}
      end
  end.

(** One move. [Advance i] lets the task of the i-th file take its next
    step: pick up a worker; or run one round of the loop over the
    architectures, which calls [rmtree] on the stem pattern, invokes the
    compiler, and leaves the loop with the error value when the compiler
    fails; or return [None] after the last round. [PassBarrier]:
    [pool.map] returns, which takes every task returned. *)
Definition exec (u : Utils) (tc : Toolchain) (s : Self) (rootless : bool)
    (install_dir : option string) (bundles executables : option (list string))
    (files : list SourceEntry) (c : Choice) (st : State) : option State :=
  match c with
  | Advance i =>
      match tasks st !! i,
            files !! i ≫= ModuleBuilder.chosen_path (files_paths files) with
      | Some Waiting, Some _ =>
          Some {| fs := fs st; tasks := <[i := AtArch 0]> (tasks st);
                  written := written st; events := events st;
                  returned := returned st |}
      | Some (AtArch k), Some file =>
          match archs s !! k with
          | None =>
              Some {| fs := fs st; tasks := <[i := Finished None]> (tasks st);
                      written := written st; events := events st;
                      returned := returned st |}
          | Some arch =>
              let seen := rmtree (stem_prefix s arch file +:+ "*") (fs st) in
              let '(fs', written') :=
                match cc_output tc file arch with
                | Some content =>
                    (fold_left (fun fs out => write_file out content fs)
                               (outputs s arch file) seen,
                     written st ++ outputs s arch file)
                | None => (seen, written st)
                end in
              let next := if cc_ok tc file arch then AtArch (S k)
                          else Finished (Some (file_error s)) in
              Some {| fs := fs'; tasks := <[i := next]> (tasks st);
                      written := written';
                      events :=
                        events st
                        ++ [ModuleBuilder.EInvoke file arch
                              (ModuleBuilder.peers (files_paths files) file)
                              seen (written st)];
                      returned := returned st |}
          end
      | _, _ => None
      end
  | PassBarrier =>
      match returned st with
      | Some _ => None
      | None =>
          if forallb is_finished (tasks st)
          then Some (after_barrier u tc s rootless install_dir bundles
                       executables files st)
          else None
      end
  end.

Definition start (s : Self) (files : list SourceEntry) (fs0 : FS) : State :=
  {| fs := clean_arch_dirs s fs0;
     tasks := replicate (length files) Waiting;
     written := []; events := []; returned := None |}.

Fixpoint run_schedule (u : Utils) (tc : Toolchain) (s : Self) (rootless : bool)
    (install_dir : option string) (bundles executables : option (list string))
    (files : list SourceEntry) (schedule : list Choice) (st : State)
  : option State :=
  match schedule with
  | [] => Some st
  | c :: rest =>
      match exec u tc s rootless install_dir bundles executables files c st with
      | Some st' =>
          run_schedule u tc s rootless install_dir bundles executables files
            rest st'
      | None => None
      end
  end.

End Tweak.

(** ** [luz/compiler/modules/tool.py]: [Tool] *)

Module Tool.

Definition format_file (u : Utils) (file : string) : list string :=
  match resolve_entry u file with
  | ManyPaths ps => ps
  | OnePath p => [p]
  end.

(** The loop over [files_to_compile] filling [new_hashes]. *)
Definition new_hashes_of (u : Utils) (files_to_compile : list string)
  : gmap string string :=
  fold_left (fun nh file => <[file := get_hash u file]> nh)
            files_to_compile ∅.

(** [{k: v for k, v in old_hashlist.items() if k in new_hashes}]. *)
Definition old_in_new (old_hashlist new_hashes : gmap string string)
  : gmap string string :=
  filter (fun kv => is_Some (new_hashes !! kv.1)) old_hashlist.

(** What the lookup of an attribute the object does not have raises. *)
Definition attribute_error : string :=
  "AttributeError: 'Tool' object has no attribute 'hash_file'".

(** [__hash_files]. [hash_file] is [self.hash_file] as the object holds
    it: [None] when the object has no attribute of that name, else the
    hashes its file holds ([None] when the file does not exist). The
    directories are made and the paths formatted before the attribute is
    first read. The result is the file system afterwards and, when the
    call returns, the content written to the cache file and the files to
    compile. [dict.update] lets the argument's entries win. *)
Definition hash_files (u : Utils) (fs : FS) (obj_dir bin_dir : string)
    (hash_file : option (option (gmap string string))) (files : list string)
  : FS * Outcome (gmap string string * list string) :=
  let fs := if negb (path_exists fs obj_dir) then makedirs obj_dir fs else fs in
  let fs := if negb (path_exists fs bin_dir) then makedirs bin_dir fs else fs in
  let files_to_compile := concat (map (format_file u) files) in
  match hash_file with
  | None => (fs, Raised attribute_error)
  | Some cache =>
      let old_hashlist := default ∅ cache in
      let new_hashes := new_hashes_of u files_to_compile in
      let written := old_in_new old_hashlist new_hashes ∪ new_hashes in
      (fs, Returned (written, files_to_compile))
  end.

(** [__init__]: the base class is set up, the two directories are
    named, and [__hash_files] is called. Neither [Tool.__init__] nor
    [Module.__init__] assigns [hash_file], and no class attribute of that
    name exists, so the object has no such attribute at the call. [base]
    is how [super().__init__] ends. *)
Definition init (u : Utils) (fs : FS) (dir name : string) (base : Outcome unit)
    (files : list string)
  : FS * Outcome (gmap string string * list string) :=
  match base with
  | Returned _ =>
      hash_files u fs (resolve_path u (dir +:+ "/obj/" +:+ name))
                 (resolve_path u (dir +:+ "/bin")) None files
  | Raised e => (fs, Raised e)
  | Exited c e => (fs, Exited c e)
  end.

(** The message of [warn] in [__stage]. *)
Definition rootless_warning (name : string) : string :=
  "Custom install directory for module " +:+ quoted name
  +:+ " was specified, and rootless is enabled. Prefixing path with /var/jb.".

(** The first half of [__stage]: the warnings logged, [dirtomake] and
    [dirtocopy]. *)
Definition stage_dirs (u : Utils) (dir name : string) (rootless : bool)
    (install_dir : option string) : list string * string * string :=
  match install_dir with
  | None =>
      ([],
       if negb rootless then resolve_path u (dir +:+ "/_/usr")
       else resolve_path u (dir +:+ "/_/var/jb/usr"),
       if negb rootless then resolve_path u (dir +:+ "/_/usr/bin")
       else resolve_path u (dir +:+ "/_/var/jb/usr/bin"))
  | Some d =>
      let warnings := if rootless then [rootless_warning name] else [] in
      let install_dir := resolve_path u d in
      (warnings,
       if negb rootless
       then resolve_path u (dir +:+ "/_/" +:+ path_parent install_dir)
       else resolve_path u (dir +:+ "/_/var/jb/" +:+ path_parent install_dir),
       if negb rootless
       then resolve_path u (dir +:+ "/_/" +:+ install_dir)
       else resolve_path u (dir +:+ "/_/var/jb/" +:+ install_dir))
  end.

(** [__stage]: the warnings, the file system afterwards and how the call
    ends; [copytree] raises when the [bin] directory is missing. *)
Definition stage (u : Utils) (fs : FS) (dir name bin_dir : string)
    (rootless : bool) (install_dir : option string)
  : list string * FS * Outcome unit :=
  let '(warnings, dirtomake, dirtocopy) :=
    stage_dirs u dir name rootless install_dir in
  let fs := if negb (path_exists fs dirtomake) then makedirs dirtomake fs
            else fs in
  match copytree bin_dir dirtocopy fs with
  | Some fs' => (warnings, fs', Returned tt)
  | None => (warnings, fs, Raised "FileNotFoundError")
  end.

End Tool.


(** ** [luz/compiler/modules/prefs.py] and [luz/build/components/prefs.py] *)

Module Preferences.

Definition missing_resources (name : string) : string :=
  "Resources/ folder for " +:+ quoted name +:+ " does not exist".

Definition bundles_dir (u : Utils) (root : string) (rootless : bool) : string :=
  if negb rootless
  then resolve_path u (root +:+ "/_/Library/PreferenceBundles/")
  else resolve_path u (root +:+ "/_/var/jb/Library/PreferenceBundles/").

Definition bundle_dir (u : Utils) (root name : string) (rootless : bool) : string :=
  if negb rootless
  then resolve_path u (root +:+ "/_/Library/PreferenceBundles/" +:+ name +:+ ".bundle")
  else resolve_path u (root +:+ "/_/var/jb/Library/PreferenceBundles/" +:+ name
                       +:+ ".bundle").

(** The first half of [__stage] of the older tree, in the shape of
    [stage_dirs] of the tool and of the tweak: the warnings logged,
    [dirtomake] and [dirtocopy]. A preference bundle holds [install_dir]
    as every module does ([Module.__init__]), but its [__stage] does not
    read it and calls [warn] nowhere. *)
Definition stage_dirs (u : Utils) (dir name : string) (rootless : bool)
    (install_dir : option string) : list string * string * string :=
  ([], bundles_dir u dir rootless, bundle_dir u dir name rootless).

(** [__stage] of the older tree: [dir] is the build directory, [path] the
    project directory. *)
Definition stage (u : Utils) (fs : FS) (dir name path : string) (rootless : bool)
  : FS * Outcome (option string) :=
  let dirtomake := bundles_dir u dir rootless in
  let dirtocopy := bundle_dir u dir name rootless in
  let fs := if negb (path_exists fs dirtomake) then makedirs dirtomake fs
            else fs in
  match copytree (dir +:+ "/dylib/" +:+ name) dirtocopy fs with
  | None => (fs, Raised "FileNotFoundError")
  | Some fs =>
      let resources_path := resolve_path u (path +:+ "/Resources") in
      if negb (path_exists fs resources_path)
      then (fs, Returned (Some (missing_resources name)))
      else
        match copytree resources_path dirtocopy fs with
        | None => (fs, Raised "FileNotFoundError")
        | Some fs => (fs, Returned None)
        end
  end.


End Preferences.

(** ** [luz/compiler/modules/module.py]: the base class of the older tree *)

Module BaseModule.

(** The loops that append [-framework] flags. *)
Definition framework_flags (frameworks : list string) (acc : string) : string :=
  fold_left (fun a framework => a +:+ " -framework " +:+ framework) frameworks acc.

(** [self.private_frameworks]: the defaults of the module type first, then
    the module's own. *)
Definition private_frameworks (defaults declared : list string) : string :=
  framework_flags declared (framework_flags defaults "").

Definition xcode_error : string :=
  "No SDK specified. Xcode will be used, and private frameworks will not be found.".

(** The end of [__init__]: [error] then [exit(1)], or the framework search
    flag. *)
Definition init_framework_dirs (defaults declared : list string) (sdk : string)
  : Outcome string :=
  if negb (String.eqb (private_frameworks defaults declared) "")
     && startswith sdk "/Applications"
  then Exited 1 xcode_error
  else Returned ("-F" +:+ sdk +:+ "/System/Library/PrivateFrameworks").

(** The loops that append [-import-objc-header] flags. *)
Definition header_flags (headers : list string) (acc : string) : string :=
  fold_left (fun a header => a +:+ " -import-objc-header " +:+ header) headers acc.

(** [self.bridging_headers]. [configured] is the [bridgingHeaders] setting
    of the module or of its type, [declared] the [bridging_headers] entry
    of the module. Both loops run over [declared]. *)
Definition bridging_headers (configured declared : list string) : string :=
  let acc := EmptyString in
  let acc := match configured with
             | [] => acc
             | _ :: _ => header_flags declared acc
             end in
  match declared with
  | [] => acc
  | _ :: _ => header_flags declared acc
  end.

End BaseModule.

(** ** [luz/compiler/luzbuild.py]: [LuzBuild.build] *)

Module LuzBuild.

(** A module object of the project, taken at what its [compile()]
    returns. *)
Record ModuleObj := {
  mod_name : string;
  compile_result : option string;
}.

#[local] Set Warnings "-register-all".

Inductive Project :=
  | mkProject (path : string) (modules : option (list ModuleObj))
              (submodules : list Project).

Definition project_path (p : Project) : string :=
  match p with mkProject path _ _ => path end.

(** What a run does, in the order the calls are issued. *)
Inductive Event :=
  | EBuild (path : string)
  | ECompile (module : string)
  | EError (msg : string).

(** How [build()] ends: it returns, it reports [msg] and calls [exit(1)],
    or a submodule's [build()] called [exit] inside its pool task and so
    handed no value back to [map]. *)
Inductive Result :=
  | Built
  | Aborted (msg : string)
  | NoValue.

(** The first result that is not [None]. *)
Fixpoint first_error (results : list (option string)) : option string :=
  match results with
  | [] => None
  | Some e :: _ => Some e
  | None :: rest => first_error rest
  end.

Definition is_built (r : Result) : bool :=
  match r with Built => true | _ => false end.

(** [build()]. [pool.map] calls [compile()] on every module and hands back
    every result before the loop over the results starts. *)
Fixpoint build (p : Project) : list Event * Result :=
  match p with
  | mkProject path modules submodules =>
      let '(events, failure) :=
        match modules with
        | Some ms =>
            let compile_results := map compile_result ms in
            ([EBuild path] ++ map (fun m => ECompile (mod_name m)) ms,
             first_error compile_results)
        | None => ([EBuild path], None)
        end in
      match failure with
      | Some e => (events ++ [EError e], Aborted e)
      | None =>
          let compile_results := map build submodules in
          let events := events ++ concat (map fst compile_results) in
          if forallb is_built (map snd compile_results)
          then (events, Built)
          else (events, NoValue)
      end
  end.

End LuzBuild.

(** ** Verdicts and scenarios used in the statements *)

(** The verdict of one round of [ModuleBuilder.hash_file], as a boolean. *)
Definition mb_verdict (u : Utils) (s : ModuleBuilder.Self) (file : string) : bool :=
  match ModuleBuilder.hashlist s !! file with
  | None => true
  | Some h =>
      if String.eqb h (get_hash u file) then
        (length (resolve_glob u (ModuleBuilder.object_pattern s file))
           <? length (ModuleBuilder.archs s))
        || (length (resolve_glob u (ModuleBuilder.lipod_pattern s))
              <? length (ModuleBuilder.archs s))
      else true
  end.

(** The same for [Tweak.hash_file]. *)
Definition tw_verdict (u : Utils) (s : Tweak.Self) (file : string) : bool :=
  match Tweak.hashlist s !! file with
  | None => true
  | Some h =>
      if String.eqb h (get_hash u file) then
        (length (resolve_glob u (Tweak.object_pattern s file))
           <? length (Tweak.archs s))
        || (length (resolve_glob u (Tweak.dylib_pattern s))
              <? length (Tweak.archs s))
      else true
  end.

(** The entries [new_hashes] receives in a run over [files]. *)
Definition record_hashes (u : Utils) (files : list string)
    (new_hashes : gmap string string) : gmap string string :=
  fold_left (fun nh file => <[file := get_hash u file]> nh) files new_hashes.

(** Change detection as the specification words it: no prior hash, a
    different prior hash, or an equal hash with fewer compiled objects
    than architectures. *)
Definition spec_changed (u : Utils) (s : ModuleBuilder.Self) (file : string) : Prop :=
  ModuleBuilder.hashlist s !! file = None
  ∨ (∃ h, ModuleBuilder.hashlist s !! file = Some h ∧ h ≠ get_hash u file)
  ∨ (ModuleBuilder.hashlist s !! file = Some (get_hash u file)
     ∧ length (resolve_glob u (ModuleBuilder.object_pattern s file))
         < length (ModuleBuilder.archs s)).

(** A project at [/p] with two Objective-C files built for one
    architecture. Both files were hashed by an earlier build and both have
    their object; [b.m] has been edited since. *)
Definition demo_hashes : gmap string string :=
  {[ "/p/a.m" := "h-a"; "/p/b.m" := "h-b-old" ]}.

Definition demo_utils (objects_a objects_b linked : list string) : Utils := {|
  get_hash := fun f => if String.eqb f "/p/b.m" then "h-b-new" else "h-a";
  resolve_path := fun p => p;
  resolve_glob := fun pat =>
    if String.eqb pat "/p/.luz/obj/demo/*/demo.dylib" then linked
    else if String.eqb pat "/p/.luz/obj/demo/*/a.m*-*.o" then objects_a
    else if String.eqb pat "/p/.luz/obj/demo/*/b.m*-*.o" then objects_b
    else [];
  resolve_entry := fun p => OnePath p;
  logos := map Plain;
|}.

Definition demo_builder (only_changed : bool) : ModuleBuilder.Self := {|
  ModuleBuilder.name := "demo";
  ModuleBuilder.luz_path := "/p";
  ModuleBuilder.obj_dir := "/p/.luz/obj/demo";
  ModuleBuilder.dylib_dir := "/p/.luz/dylib/demo";
  ModuleBuilder.bin_dir := "/p/.luz/bin/demo";
  ModuleBuilder.release := false;
  ModuleBuilder.pack := false;
  ModuleBuilder.now := "1700000000.0";
  ModuleBuilder.install_name := "demo.dylib";
  ModuleBuilder.archs := ["arm64"];
  ModuleBuilder.only_compile_changed := only_changed;
  ModuleBuilder.hashlist := demo_hashes;
|}.

Definition demo_tweak (only_changed : bool) : Tweak.Self := {|
  Tweak.luzbuild_path := "/p";
  Tweak.dir := "/p/.luz";
  Tweak.name := "demo";
  Tweak.archs := ["arm64"];
  Tweak.now := "1700000000.0";
  Tweak.only_compile_changed := only_changed;
  Tweak.hashlist := demo_hashes;
|}.

(** A file system that holds the linked artifact of the demo module and
    nothing else, and tools that all succeed. *)
Definition demo_linked_fs : FS :=
  fun p => if String.eqb p "/p/.luz/dylib/demo/demo.dylib"
           then Some (File "fat binary") else None.

Definition empty_fs : FS := fun _ => None.

Definition demo_tools : Toolchain := {|
  cc_ok := fun _ _ => true;
  cc_output := fun _ _ => Some "object";
  run := fun _ => true;
  sh := fun _ fs => fs;
|}.






(** Whether a call ended without a value. *)
Definition failed_outcome {A : Type} (o : Outcome A) : bool :=
  match o with
  | Returned _ => false
  | _ => true
  end.

Definition private_frameworks_dir (sdk : string) : string :=
  sdk +:+ "/System/Library/PrivateFrameworks".

(** An SDK that cannot supply private frameworks, as the specification
    words it: an Xcode default location, or no [PrivateFrameworks]
    directory. *)
Definition spec_sdk_cannot_supply (u : Utils) (fs : FS) (sdk : string) : bool :=
  startswith sdk "/Applications"
  || negb (path_exists fs (resolve_path u (private_frameworks_dir sdk))).

(** The check as the specification words it, on one construction: with
    private frameworks declared and such an SDK, construction fails. *)
Definition spec_private_frameworks_check (u : Utils) (fs : FS) (sdk : string)
    (declared : list string) (failed : bool) : Prop :=
  declared ≠ [] → spec_sdk_cannot_supply u fs sdk = true → failed = true.

(** An Xcode SDK that has a [PrivateFrameworks] directory, an SDK
    elsewhere that has none, and a module that asks for a private
    framework. *)
Definition xcode_sdk : string :=
  "/Applications/Xcode.app/Contents/Developer/Platforms/iPhoneOS.platform/Developer/SDKs/iPhoneOS.sdk".

Definition xcode_sdk_fs : FS :=
  fun p => if String.eqb p (private_frameworks_dir xcode_sdk) then Some Dir
           else None.

Definition demo_module : ModuleBuilder.ModuleCfg := {|
  ModuleBuilder.files := ["a.m"; "b.m"];
  ModuleBuilder.include_dirs := [];
  ModuleBuilder.library_dirs := [];
  ModuleBuilder.framework_dirs := [];
  ModuleBuilder.private_frameworks := ["Preferences"];
|}.

(** [build()] as the specification words it: every module and every
    submodule is run whatever fails, and every failure is reported. *)
Definition spec_build_runs_all (p : LuzBuild.Project) : Prop :=
  match p with
  | LuzBuild.mkProject _ modules submodules =>
      (∀ m, m ∈ default [] modules →
            LuzBuild.ECompile (LuzBuild.mod_name m) ∈ (LuzBuild.build p).1)
      ∧ (∀ sub, sub ∈ submodules →
                LuzBuild.EBuild (LuzBuild.project_path sub) ∈ (LuzBuild.build p).1)
      ∧ (∀ m e, m ∈ default [] modules → LuzBuild.compile_result m = Some e →
                LuzBuild.EError e ∈ (LuzBuild.build p).1)
  end.

(** A project with a tool whose link fails, a tweak that builds, and one
    submodule. *)
Definition demo_lipo_error : string :=
  "An error occured when trying to lipo files for module tool.".

Definition demo_modules : list LuzBuild.ModuleObj :=
  [ {| LuzBuild.mod_name := "tool";
       LuzBuild.compile_result := Some demo_lipo_error |};
    {| LuzBuild.mod_name := "tweak"; LuzBuild.compile_result := None |} ].

Definition demo_submodules : list LuzBuild.Project :=
  [ LuzBuild.mkProject "/p/sub"
      (Some [ {| LuzBuild.mod_name := "prefs";
                 LuzBuild.compile_result := None |} ])
      [] ].

Definition demo_project : LuzBuild.Project :=
  LuzBuild.mkProject "/p" (Some demo_modules) demo_submodules.

(** ** What holds of every state of a build *)

(** A file task and its row of architecture tasks: nothing submitted while
    the file waits for a worker, one task per architecture once it runs,
    all of them done once it is done. *)
Definition row_ok (n : nat) (f : ModuleBuilder.Status)
    (row : list ModuleBuilder.Status) : Prop :=
  match f with
  | ModuleBuilder.Queued => row = []
  | ModuleBuilder.Running => length row = n
  | ModuleBuilder.Done _ =>
      length row = n ∧ Forall (fun x => ModuleBuilder.is_done x = true) row
  end.

(** The order in which a future moves: never backwards, and a result once
    set stays. *)
Definition status_le (x y : ModuleBuilder.Status) : Prop :=
  match x, y with
  | ModuleBuilder.Queued, _ => True
  | ModuleBuilder.Running, ModuleBuilder.Queued => False
  | ModuleBuilder.Running, _ => True
  | ModuleBuilder.Done r, ModuleBuilder.Done r' => r = r'
  | ModuleBuilder.Done _, _ => False
  end.

(** [p] is an output path of a compiler invocation of this build. *)
Definition run_output (s : ModuleBuilder.Self) (files : list SourceEntry)
    (p : string) : Prop :=
  ∃ file arch,
    file ∈ map ModuleBuilder.entry_path files
    ∧ arch ∈ ModuleBuilder.archs s
    ∧ p ∈ ModuleBuilder.outputs s arch file.

(** No file below the stem prefix of [file] and [arch] but those listed
    in [fresh]. *)
Definition only_fresh (s : ModuleBuilder.Self) (arch file : string)
    (fs : FS) (fresh : list string) : Prop :=
  ∀ p c, String.prefix (ModuleBuilder.stem_prefix s arch file) p = true →
         fs p = Some (File c) → p ∈ fresh.

(** The words [compile] hands to the shell in its cleaning loop are all
    words the shell hands on unchanged. *)
Definition names_safe (s : ModuleBuilder.Self) (files : list SourceEntry) : bool :=
  forallb
    (fun arch =>
       forallb (fun file => shell_safe (ModuleBuilder.stem_prefix s arch file))
               (map ModuleBuilder.entry_path files))
    (ModuleBuilder.archs s).

(** [fs'] holds no file that [fs] does not hold. *)
Definition no_new_files (fs fs' : FS) : Prop :=
  ∀ p c, fs' p = Some (File c) → fs p = Some (File c).

Definition build_inv (s : ModuleBuilder.Self) (files : list SourceEntry)
    (st : ModuleBuilder.State) : Prop :=
  length (ModuleBuilder.file_tasks st) = length files
  ∧ Forall2 (row_ok (length (ModuleBuilder.archs s)))
            (ModuleBuilder.file_tasks st) (ModuleBuilder.arch_tasks st)
  ∧ (ModuleBuilder.returned st ≠ None →
     Forall (fun x => ModuleBuilder.is_done x = true) (ModuleBuilder.file_tasks st))
  ∧ (ModuleBuilder.ELinker ∈ ModuleBuilder.events st →
     ModuleBuilder.returned st ≠ None)
  ∧ (names_safe s files = true →
     ModuleBuilder.returned st = None →
     ∀ file arch, file ∈ map ModuleBuilder.entry_path files →
                  arch ∈ ModuleBuilder.archs s →
                  only_fresh s arch file (ModuleBuilder.fs st)
                             (ModuleBuilder.written st))
  ∧ (∀ p, p ∈ ModuleBuilder.written st → run_output s files p)
  ∧ (names_safe s files = true →
     ∀ file arch with_peers seen fresh,
       ModuleBuilder.EInvoke file arch with_peers seen fresh
         ∈ ModuleBuilder.events st →
       only_fresh s arch file seen fresh
       ∧ ∀ p, p ∈ fresh → run_output s files p).

(** A build of the demo module: both files, one architecture, and a
    stale object of an interrupted build left in the object directory. *)
Definition demo_files : list SourceEntry := [Plain "/p/a.m"; Plain "/p/b.m"].

Definition demo_stale_fs : FS :=
  fun p => if String.eqb p "/p/.luz/obj/demo/arm64/a.m-1600000000.0.o"
           then Some (File "half-written object") else None.

Definition demo_schedule : list ModuleBuilder.Choice :=
  [ ModuleBuilder.StartFile 0; ModuleBuilder.StartFile 1;
    ModuleBuilder.StartArch 1 0; ModuleBuilder.StartArch 0 0;
    ModuleBuilder.EndArch 0 0; ModuleBuilder.EndFile 0;
    ModuleBuilder.EndArch 1 0; ModuleBuilder.EndFile 1;
    ModuleBuilder.PassBarrier ].

Definition demo_stage (fs : FS) : FS * Outcome (option string) :=
  ModuleBuilder.stage (demo_builder true) ModuleBuilder.Dylib
    "/p/.luz/_" "Library/MobileSubstrate/DynamicLibraries" None None fs.

Definition demo_run (schedule : list ModuleBuilder.Choice)
  : option ModuleBuilder.State :=
  ModuleBuilder.run_schedule (demo_utils [] [] []) demo_tools (demo_builder true)
    demo_files ModuleBuilder.Dylib demo_stage schedule
    (ModuleBuilder.start demo_tools (demo_builder true) demo_files demo_stale_fs).

(** The state the demo build ends in under [demo_schedule]. *)
Definition demo_final : ModuleBuilder.State :=
  default (ModuleBuilder.start demo_tools (demo_builder true) demo_files demo_stale_fs)
          (demo_run demo_schedule).






(** The same notions for a build of the tweak module. *)
Definition tw_only_fresh (s : Tweak.Self) (arch file : string)
    (fs : FS) (fresh : list string) : Prop :=
  ∀ p c, String.prefix (Tweak.stem_prefix s arch file) p = true →
         fs p = Some (File c) → p ∈ fresh.

Definition tw_build_inv (s : Tweak.Self) (files : list SourceEntry)
    (st : Tweak.State) : Prop :=
  length (Tweak.tasks st) = length files
  ∧ (Tweak.returned st ≠ None →
     Forall (fun x => Tweak.is_finished x = true) (Tweak.tasks st))
  ∧ (ModuleBuilder.ELinker ∈ Tweak.events st → Tweak.returned st ≠ None)
  ∧ (Tweak.returned st = None →
     ∀ file arch, arch ∈ Tweak.archs s →
                  tw_only_fresh s arch file (Tweak.fs st) (Tweak.written st))
  ∧ (∀ file arch with_peers seen fresh,
       ModuleBuilder.EInvoke file arch with_peers seen fresh ∈ Tweak.events st →
       tw_only_fresh s arch file seen fresh).

(** ** Further notions used in the statements *)

(** A file the change detection leaves alone: its hash is the cached one,
    and the pattern for its objects and the pattern for the linked
    binaries, each over all the architecture directories, have at least as
    many matches as the build has architectures. *)
Definition mb_unchanged (u : Utils) (s : ModuleBuilder.Self) (file : string) : Prop :=
  ModuleBuilder.hashlist s !! file = Some (get_hash u file)
  ∧ length (ModuleBuilder.archs s)
    ≤ length (resolve_glob u (ModuleBuilder.object_pattern s file))
  ∧ length (ModuleBuilder.archs s)
    ≤ length (resolve_glob u (ModuleBuilder.lipod_pattern s)).


(** The link invocations of the builder, one per architecture. *)
Definition mb_link_cmds (u : Utils) (s : ModuleBuilder.Self) : list Cmd :=
  map (fun arch =>
         CLink arch
           (resolve_glob u (ModuleBuilder.obj_dir s +:+ "/" +:+ arch +:+ "/*.o"))
           (ModuleBuilder.obj_dir s +:+ "/" +:+ arch +:+ "/"
            +:+ ModuleBuilder.install_name s))
      (ModuleBuilder.archs s).

Definition mb_lipo_cmd (u : Utils) (s : ModuleBuilder.Self)
    (ct : ModuleBuilder.CompileType) : Cmd :=
  CLipo (map (fun arch => ModuleBuilder.obj_dir s +:+ "/" +:+ arch +:+ "/"
                          +:+ ModuleBuilder.install_name s)
             (ModuleBuilder.archs s))
        (ModuleBuilder.out_name u s ct).

(** A trace that stopped at its first failure: every tool but the last
    succeeded, the last one failed. *)
Definition stopped_at_failure (run : Cmd → bool) (trace : list Cmd) : Prop :=
  ∃ before c, trace = before ++ [c]
              ∧ forallb run before = true ∧ run c = false.

(** Every tool the builder's link stage invokes when nothing fails: the
    links, [lipo], [strip] for an executable in release mode, [ldid]. *)
Definition mb_full_trace (u : Utils) (s : ModuleBuilder.Self)
    (ct : ModuleBuilder.CompileType) : list Cmd :=
  mb_link_cmds u s
  ++ [mb_lipo_cmd u s ct]
  ++ (match ct with
      | ModuleBuilder.Executable =>
          if ModuleBuilder.release s then [CStrip (ModuleBuilder.out_name u s ct)]
          else []
      | ModuleBuilder.Dylib => []
      end)
  ++ [CLdid (ModuleBuilder.out_name u s ct)].

(** The same for the tweak module: the links, [lipo], the run-path
    patch, [ldid]. *)
Definition tw_link_cmds (u : Utils) (s : Tweak.Self) : list Cmd :=
  map (fun arch =>
         CLink arch
           (resolve_glob u (Tweak.dir s +:+ "/obj/" +:+ Tweak.name s +:+ "/"
                            +:+ arch +:+ "/*.o"))
           (Tweak.dir s +:+ "/obj/" +:+ Tweak.name s +:+ "/" +:+ arch +:+ "/"
            +:+ Tweak.name s +:+ ".dylib"))
      (Tweak.archs s).

Definition tw_full_trace (u : Utils) (s : Tweak.Self) (rootless : bool) : list Cmd :=
  tw_link_cmds u s
  ++ [CLipo (resolve_glob u (Tweak.dylib_pattern s)) (Tweak.dylib_path s);
      CAddRpath (if rootless then "/var/jb/Library/Frameworks/"
                 else "/Library/Frameworks") (Tweak.dylib_path s);
      CLdid (Tweak.dylib_path s)].

(** *** Results of a build *)

(** What the task of [file] and [arch] returns. *)
Definition arch_result (tc : Toolchain) (s : ModuleBuilder.Self)
    (file arch : string) : option string :=
  if cc_ok tc file arch then None else Some (ModuleBuilder.arch_error s file).

(** The path the i-th file task compiles. *)
Definition file_at (files : list SourceEntry) (i : nat) : option string :=
  files !! i ≫= ModuleBuilder.chosen_path (ModuleBuilder.handle_logos files []).1.

(** What the results and the events of a state record: each finished
    task holds the result of its compiler, each finished file task the
    verdict over its row, the linker was called only without failure, a
    failure is what [compile] returned, [None] was returned only after the
    linker was called, and every task that left the queue has invoked its
    compiler. *)
Definition results_inv (tc : Toolchain) (s : ModuleBuilder.Self)
    (files : list SourceEntry) (st : ModuleBuilder.State) : Prop :=
  (∀ i j r,
     ModuleBuilder.get_arch i j (ModuleBuilder.arch_tasks st)
     = Some (ModuleBuilder.Done r) →
     ∃ file arch, file_at files i = Some file
                  ∧ ModuleBuilder.archs s !! j = Some arch
                  ∧ r = arch_result tc s file arch)
  ∧ (∀ i r,
       ModuleBuilder.file_tasks st !! i = Some (ModuleBuilder.Done r) →
       ∃ row, ModuleBuilder.arch_tasks st !! i = Some row
              ∧ r = if existsb ModuleBuilder.failed row
                    then Some (ModuleBuilder.file_error s) else None)
  ∧ (ModuleBuilder.ELinker ∈ ModuleBuilder.events st →
     ModuleBuilder.first_failure (ModuleBuilder.file_tasks st) = None)
  ∧ (∀ o e, ModuleBuilder.returned st = Some o →
            ModuleBuilder.first_failure (ModuleBuilder.file_tasks st) = Some e →
            o = Returned (Some e))
  ∧ (ModuleBuilder.returned st = Some (Returned None) →
     ModuleBuilder.ELinker ∈ ModuleBuilder.events st)
  ∧ (∀ i j x,
       ModuleBuilder.get_arch i j (ModuleBuilder.arch_tasks st) = Some x →
       x ≠ ModuleBuilder.Queued →
       ∃ file arch w seen fresh,
         file_at files i = Some file
         ∧ ModuleBuilder.archs s !! j = Some arch
         ∧ ModuleBuilder.EInvoke file arch w seen fresh ∈ ModuleBuilder.events st).

(** The demo build with a compiler that rejects "/p/b.m". *)
Definition demo_failing_tools : Toolchain := {|
  cc_ok := fun file _ => negb (String.eqb file "/p/b.m");
  cc_output := fun _ _ => Some "object";
  run := fun _ => true;
  sh := fun _ fs => fs;
|}.

Definition demo_failing_run (schedule : list ModuleBuilder.Choice)
  : option ModuleBuilder.State :=
  ModuleBuilder.run_schedule (demo_utils [] [] []) demo_failing_tools
    (demo_builder true) demo_files ModuleBuilder.Dylib demo_stage schedule
    (ModuleBuilder.start demo_failing_tools (demo_builder true) demo_files demo_stale_fs).

Definition demo_failing_final : ModuleBuilder.State :=
  default (ModuleBuilder.start demo_failing_tools (demo_builder true) demo_files demo_stale_fs)
          (demo_failing_run demo_schedule).

(** The modules a project declares itself, and those of the whole tree of
    its subprojects. *)
Definition own_modules (p : LuzBuild.Project) : list LuzBuild.ModuleObj :=
  match p with LuzBuild.mkProject _ modules _ => default [] modules end.

Fixpoint project_modules (p : LuzBuild.Project) : list LuzBuild.ModuleObj :=
  match p with
  | LuzBuild.mkProject _ modules submodules =>
      default [] modules ++ concat (map project_modules submodules)
  end.

(** What the tasks of [Tweak.compile] hold: a task that returned [None]
    compiled its file for every architecture, a task that returned an error
    met a compiler failure, and a task inside its loop has compiled for the
    architectures before the one it is at. The linker runs only when no
    task returned an error, and an error of a task is what [compile]
    returns. *)
Definition tw_results_inv (tc : Toolchain) (s : Tweak.Self)
    (files : list SourceEntry) (st : Tweak.State) : Prop :=
  (∀ i r, Tweak.tasks st !! i = Some (Tweak.Finished r) →
          ∃ e, files !! i = Some e
               ∧ match r with
                 | Some msg =>
                     msg = Tweak.file_error s
                     ∧ ∃ arch, arch ∈ Tweak.archs s
                               ∧ cc_ok tc (ModuleBuilder.entry_path e) arch = false
                 | None =>
                     ∀ arch, arch ∈ Tweak.archs s →
                             cc_ok tc (ModuleBuilder.entry_path e) arch = true
                 end)
  ∧ (∀ i k, Tweak.tasks st !! i = Some (Tweak.AtArch k) →
            ∃ e, files !! i = Some e
                 ∧ ∀ j arch, j < k → Tweak.archs s !! j = Some arch →
                             cc_ok tc (ModuleBuilder.entry_path e) arch = true)
  ∧ (ModuleBuilder.ELinker ∈ Tweak.events st →
     Tweak.first_failure (Tweak.tasks st) = None)
  ∧ (∀ o e, Tweak.returned st = Some o →
            Tweak.first_failure (Tweak.tasks st) = Some e →
            o = Returned (Some e)).

(** The demo tweak: both files, one architecture, under a schedule that
    compiles the second file first. *)
Definition demo_tweak_schedule : list Tweak.Choice :=
  [ Tweak.Advance 1; Tweak.Advance 0; Tweak.Advance 1; Tweak.Advance 1;
    Tweak.Advance 0; Tweak.Advance 0; Tweak.PassBarrier ].

Definition demo_tweak_run (tc : Toolchain) (schedule : list Tweak.Choice)
  : option Tweak.State :=
  Tweak.run_schedule (demo_utils [] [] []) tc (demo_tweak true) false None
    None None demo_files schedule
    (Tweak.start (demo_tweak true) demo_files demo_stale_fs).

Definition demo_tweak_final : Tweak.State :=
  default (Tweak.start (demo_tweak true) demo_files demo_stale_fs)
          (demo_tweak_run demo_tools demo_tweak_schedule).

(** The same build with the compiler that rejects "/p/b.m": the task of
    that file returns from its first round. *)
Definition demo_tweak_failing_schedule : list Tweak.Choice :=
  [ Tweak.Advance 1; Tweak.Advance 0; Tweak.Advance 1;
    Tweak.Advance 0; Tweak.Advance 0; Tweak.PassBarrier ].

Definition demo_tweak_failing_final : Tweak.State :=
  default (Tweak.start (demo_tweak true) demo_files demo_stale_fs)
          (demo_tweak_run demo_failing_tools demo_tweak_failing_schedule).

(** ** [luz/luzgen/modules/module.py]: the project generator *)

Module Luzgen.

(** A value of the generator's dict: a string, or any other object, taken
    at the text its formatting gives. *)
Inductive Value :=
  | VStr (s : string)
  | VOther (text : string).

Definition tab : string := String "009"%char EmptyString.

(** One round of the loop over the items of a block. *)
Definition field (indent : string) (py : string) (item : string * Value)
  : string :=
  match item.2 with
  | VStr v1 => py +:+ nl +:+ indent +:+ item.1 +:+ "='" +:+ v1 +:+ "', "
  | VOther v1 => py +:+ nl +:+ indent +:+ item.1 +:+ "=" +:+ v1 +:+ ", "
  end.

(** One round of the loop of [write_to_file] over [self.dict]. *)
Definition block (py : string) (entry : string * list (string * Value))
  : string :=
  if String.eqb entry.1 "control" then
    let py := py +:+ "control = Control(" in
    let py := fold_left (field tab) entry.2 py in
    Tweak.drop_last2 py +:+ nl +:+ ")" +:+ nl +:+ nl
  else
    let py := py +:+ "modules = [" +:+ nl +:+ "    Module(" in
    let py := fold_left (field (tab +:+ tab)) entry.2 py in
    Tweak.drop_last2 py +:+ nl +:+ tab +:+ ")" +:+ nl +:+ "]".

(** The text [write_to_file] writes to [luz.py]. *)
Definition python_text (dict : list (string * list (string * Value))) : string :=
  fold_left block dict ("from luz import Control, Module" +:+ nl +:+ nl).

(** What [ask_for] does: a question put to the user, or an error
    reported. *)
Inductive Event :=
  | EAsk (prompt : string)
  | EError (msg : string).

Definition prompt (dsc dsc1 scope key extra_msg : string)
    (default : option string) : string :=
  dsc +:+ " " +:+ dsc1 +:+ " this " +:+ scope +:+ "'s " +:+ key +:+ "?"
  +:+ (if String.eqb extra_msg EmptyString then EmptyString
       else " (" +:+ extra_msg +:+ ")")
  +:+ match default with
      | Some d => " (enter for '" +:+ d +:+ "')"
      | None => EmptyString
      end.

(** [ask_for]. [answers] is what the user types, line by line, and [pos]
    the line [ask] reads next; the result holds the value and the next
    line. *)
Definition ask_for (type key : string) (default : option string)
    (dsc dsc1 extra_msg : string) (answers : nat -> string) (pos : nat)
  : list Event * string * nat :=
  let val := answers pos in
  match default with
  | Some d =>
      let asked := [EAsk (prompt dsc dsc1 "project" key extra_msg (Some d))] in
      if String.eqb val EmptyString then (asked, d, S pos)
      else (asked, val, S pos)
  | None =>
      let asked := [EAsk (prompt dsc dsc1 "project" key extra_msg None)] in
      if String.eqb val EmptyString then
        (asked ++ [EError "You must enter a value.";
                   EAsk (prompt dsc dsc1 type key extra_msg None)],
         answers (S pos), S (S pos))
      else (asked, val, S pos)
  end.

End Luzgen.

(** The text of an item between the separators. *)
Definition field_text (indent : string) (item : string * Luzgen.Value) : string :=
  nl +:+ indent +:+ item.1
  +:+ match item.2 with
      | Luzgen.VStr v1 => "='" +:+ v1 +:+ "'"
      | Luzgen.VOther v1 => "=" +:+ v1
      end.

(** * Properties *)

(** ** Change detection *)

Section HashLoop.
Context (u : Utils).

Lemma mb_hash_file_eq (s : ModuleBuilder.Self) (changed : list string)
    (nh : gmap string string) (f : string) :
  ModuleBuilder.hash_file u s (changed, nh) f
  = (if mb_verdict u s f then changed ++ [f] else changed,
     <[f := get_hash u f]> nh).
Proof.
  unfold ModuleBuilder.hash_file, mb_verdict.
  destruct (ModuleBuilder.hashlist s !! f) as [h|]; [|done].
  destruct (String.eqb h (get_hash u f)); [|done].
  by destruct (_ || _).
Qed.

Lemma mb_hash_loop_acc (s : ModuleBuilder.Self) (l changed : list string)
    (nh : gmap string string) :
  fold_left (ModuleBuilder.hash_file u s) l (changed, nh)
  = (changed ++ List.filter (mb_verdict u s) l, record_hashes u l nh).
Proof.
  revert changed nh. induction l as [|f l IH]; intros changed nh.
  - simpl. by rewrite app_nil_r.
  - cbn [fold_left List.filter]. rewrite mb_hash_file_eq, IH.
    destruct (mb_verdict u s f); [|done].
    by rewrite <- app_assoc.
Qed.

Lemma tw_hash_file_eq (s : Tweak.Self) (changed : list string)
    (nh : gmap string string) (f : string) :
  Tweak.hash_file u s (changed, nh) f
  = (if tw_verdict u s f then changed ++ [f] else changed,
     <[f := get_hash u f]> nh).
Proof.
  unfold Tweak.hash_file, tw_verdict.
  destruct (Tweak.hashlist s !! f) as [h|]; [|done].
  destruct (String.eqb h (get_hash u f)); [|done].
  by destruct (_ || _).
Qed.

Lemma tw_hash_loop_acc (s : Tweak.Self) (l changed : list string)
    (nh : gmap string string) :
  fold_left (Tweak.hash_file u s) l (changed, nh)
  = (changed ++ List.filter (tw_verdict u s) l, record_hashes u l nh).
Proof.
  revert changed nh. induction l as [|f l IH]; intros changed nh.
  - simpl. by rewrite app_nil_r.
  - cbn [fold_left List.filter]. rewrite tw_hash_file_eq, IH.
    destruct (tw_verdict u s f); [|done].
    by rewrite <- app_assoc.
Qed.

Lemma mb_hash_loop_eq (s : ModuleBuilder.Self) (l : list string) :
  ModuleBuilder.hash_loop u s l
  = (List.filter (mb_verdict u s) l, record_hashes u l ∅).
Proof. unfold ModuleBuilder.hash_loop. by rewrite mb_hash_loop_acc. Qed.

Lemma tw_hash_loop_eq (s : Tweak.Self) (l : list string) :
  Tweak.hash_loop u s l
  = (List.filter (tw_verdict u s) l, record_hashes u l ∅).
Proof. unfold Tweak.hash_loop. by rewrite tw_hash_loop_acc. Qed.

(** Every processed path ends up in [new_hashes] with its current hash. *)
Lemma record_hashes_lookup (l : list string) (nh : gmap string string) (f : string) :
  f ∈ l → record_hashes u l nh !! f = Some (get_hash u f).
Proof.
  revert nh. induction l as [|g l IH]; intros nh Hin.
  - by apply elem_of_nil in Hin.
  - unfold record_hashes; simpl. fold (record_hashes u l (<[g:=get_hash u g]> nh)).
    destruct (decide (f ∈ l)) as [Hl|Hl]; [by apply IH|].
    apply elem_of_cons in Hin as [->|?]; [|done].
    clear IH. revert nh. induction l as [|k l IH]; intros nh; simpl.
    + apply lookup_insert_eq.
    + unfold record_hashes; simpl.
      fold (record_hashes u l (<[k:=get_hash u k]> (<[g:=get_hash u g]> nh))).
      apply not_elem_of_cons in Hl as [Hne Hl].
      rewrite insert_insert_ne by done. by apply IH.
Qed.

Lemma record_hashes_other (l : list string) (nh : gmap string string) (f : string) :
  f ∉ l → record_hashes u l nh !! f = nh !! f.
Proof.
  revert nh. induction l as [|g l IH]; intros nh Hin; [done|].
  apply not_elem_of_cons in Hin as [Hne Hl].
  unfold record_hashes; simpl. fold (record_hashes u l (<[g:=get_hash u g]> nh)).
  rewrite IH by done. by apply lookup_insert_ne.
Qed.

End HashLoop.

Lemma mb_verdict_spec (u : Utils) (s : ModuleBuilder.Self) (f : string) :
  mb_verdict u s f = true ↔
  ModuleBuilder.hashlist s !! f = None
  ∨ (∃ h, ModuleBuilder.hashlist s !! f = Some h ∧ h ≠ get_hash u f)
  ∨ (ModuleBuilder.hashlist s !! f = Some (get_hash u f)
     ∧ (length (resolve_glob u (ModuleBuilder.object_pattern s f))
          < length (ModuleBuilder.archs s)
        ∨ length (resolve_glob u (ModuleBuilder.lipod_pattern s))
          < length (ModuleBuilder.archs s))).
Proof.
  unfold mb_verdict.
  destruct (ModuleBuilder.hashlist s !! f) as [h|]; [|by split; [left|]].
  destruct (String.eqb_spec h (get_hash u f)) as [->|Hne].
  - rewrite orb_true_iff, !Nat.ltb_lt. split.
    + intros Hlt. right; right. by split.
    + intros [Hn | [[h [Hh Hne]] | [_ Hlt]]]; [done| |done].
      inversion Hh; subst. by destruct Hne.
  - split; [|done]. intros _. right; left. by exists h.
Qed.

Lemma tw_verdict_spec (u : Utils) (s : Tweak.Self) (f : string) :
  tw_verdict u s f = true ↔
  Tweak.hashlist s !! f = None
  ∨ (∃ h, Tweak.hashlist s !! f = Some h ∧ h ≠ get_hash u f)
  ∨ (Tweak.hashlist s !! f = Some (get_hash u f)
     ∧ (length (resolve_glob u (Tweak.object_pattern s f))
          < length (Tweak.archs s)
        ∨ length (resolve_glob u (Tweak.dylib_pattern s))
          < length (Tweak.archs s))).
Proof.
  unfold tw_verdict.
  destruct (Tweak.hashlist s !! f) as [h|]; [|by split; [left|]].
  destruct (String.eqb_spec h (get_hash u f)) as [->|Hne].
  - rewrite orb_true_iff, !Nat.ltb_lt. split.
    + intros Hlt. right; right. by split.
    + intros [Hn | [[h [Hh Hne]] | [_ Hlt]]]; [done| |done].
      inversion Hh; subst. by destruct Hne.
  - split; [|done]. intros _. right; left. by exists h.
Qed.

(** C1, as the specification states it, fails: with an unchanged hash and
    every object present, a file is still marked changed when the
    per-architecture linked binaries are missing. *)
Lemma hash_loop_changed_not_spec :
  let u := demo_utils ["/p/.luz/obj/demo/arm64/a.m-1.o"]
                      ["/p/.luz/obj/demo/arm64/b.m-1.o"] [] in
  let s := demo_builder true in
  ¬ ("/p/a.m" ∈ (ModuleBuilder.hash_loop u s ["/p/a.m"; "/p/b.m"]).1
     ↔ spec_changed u s "/p/a.m").
Proof.
  intros u s [Hchanged _].
  assert (Hin : "/p/a.m" ∈ (ModuleBuilder.hash_loop u s ["/p/a.m"; "/p/b.m"]).1).
  { vm_compute. apply list_elem_of_here. }
  destruct (Hchanged Hin) as [Hnone | [[h [Hsome Hne]] | [_ Hlt]]].
  - vm_compute in Hnone. discriminate.
  - vm_compute in Hsome. inversion Hsome; subst. by apply Hne.
  - vm_compute in Hlt. lia.
Qed.

(** C1 (amended): in [ModuleBuilder.__hash_files] and in
    [Tweak.__hash_files], a processed file is marked changed if and only if
    the cache has no prior hash for its path, or the prior hash differs
    from the current one, or the hash is unchanged and either the number of
    paths matching the file's object pattern or the number of
    per-architecture linked binaries of the module is below the
    architecture count. *)
Theorem hash_loop_changed_iff (u : Utils) :
  (∀ (s : ModuleBuilder.Self) (files_to_compile : list string) (f : string),
     f ∈ (ModuleBuilder.hash_loop u s files_to_compile).1 ↔
     f ∈ files_to_compile
     ∧ (ModuleBuilder.hashlist s !! f = None
        ∨ (∃ h, ModuleBuilder.hashlist s !! f = Some h ∧ h ≠ get_hash u f)
        ∨ (ModuleBuilder.hashlist s !! f = Some (get_hash u f)
           ∧ (length (resolve_glob u (ModuleBuilder.object_pattern s f))
                < length (ModuleBuilder.archs s)
              ∨ length (resolve_glob u (ModuleBuilder.lipod_pattern s))
                < length (ModuleBuilder.archs s)))))
  ∧ (∀ (s : Tweak.Self) (files_to_compile : list string) (f : string),
       f ∈ (Tweak.hash_loop u s files_to_compile).1 ↔
       f ∈ files_to_compile
       ∧ (Tweak.hashlist s !! f = None
          ∨ (∃ h, Tweak.hashlist s !! f = Some h ∧ h ≠ get_hash u f)
          ∨ (Tweak.hashlist s !! f = Some (get_hash u f)
             ∧ (length (resolve_glob u (Tweak.object_pattern s f))
                  < length (Tweak.archs s)
                ∨ length (resolve_glob u (Tweak.dylib_pattern s))
                  < length (Tweak.archs s))))).
Proof.
  split; intros s l f.
  - rewrite mb_hash_loop_eq; cbn [fst].
    rewrite list_elem_of_In, filter_In, <- list_elem_of_In.
    by rewrite mb_verdict_spec.
  - rewrite tw_hash_loop_eq; cbn [fst].
    rewrite list_elem_of_In, filter_In, <- list_elem_of_In.
    by rewrite tw_verdict_spec.
Qed.

(** ** Which files are compiled *)

Lemma mb_files_list_disabled (s : ModuleBuilder.Self) (changed ftc : list string) :
  ModuleBuilder.only_compile_changed s = false →
  ModuleBuilder.files_list s changed ftc = ftc.
Proof.
  intros Hp. unfold ModuleBuilder.files_list. rewrite Hp. by destruct ftc.
Qed.

Lemma mb_files_list_nothing_changed (s : ModuleBuilder.Self) (ftc : list string) :
  ModuleBuilder.only_compile_changed s = true →
  ModuleBuilder.files_list s [] ftc = [].
Proof. intros Hp. unfold ModuleBuilder.files_list. by rewrite Hp. Qed.

Lemma mb_files_list_some_changed (s : ModuleBuilder.Self)
    (f : string) (changed ftc : list string) :
  ModuleBuilder.files_list s (f :: changed) ftc = ftc.
Proof.
  unfold ModuleBuilder.files_list.
  destruct (ModuleBuilder.only_compile_changed s); [done|]. by destruct ftc.
Qed.

(** C2: with the policy enabled, two files already hashed and built, and
    only [b.m] edited, change detection singles out [b.m], yet
    [__hash_files] hands both files to the compile stage: the list chosen
    by the policy is replaced by the full list as soon as it is not
    empty. The same holds in [ModuleBuilder] and in [Tweak]. *)
Theorem hash_files_recompiles_unchanged :
  let u := demo_utils ["/p/.luz/obj/demo/arm64/a.m-1.o"]
                      ["/p/.luz/obj/demo/arm64/b.m-1.o"]
                      ["/p/.luz/obj/demo/arm64/demo.dylib"] in
  ((ModuleBuilder.hash_loop u (demo_builder true) ["/p/a.m"; "/p/b.m"]).1
     = ["/p/b.m"]
   ∧ (ModuleBuilder.hash_files u (demo_builder true) ["a.m"; "b.m"]).2
     = Returned [Plain "/p/a.m"; Plain "/p/b.m"])
  ∧ ((Tweak.hash_loop u (demo_tweak true) ["/p/a.m"; "/p/b.m"]).1
       = ["/p/b.m"]
     ∧ (Tweak.hash_files u (demo_tweak true) ["a.m"; "b.m"]).2
       = [Plain "/p/a.m"; Plain "/p/b.m"]).
Proof. repeat split; vm_compute; reflexivity. Qed.

(** ** The cache after the hashing phase *)

(** In [ModuleBuilder.__hash_files] every processed path is mapped to its
    current hash afterwards, whatever the verdict and the policy. *)
Lemma mb_cache_latest (u : Utils) (s : ModuleBuilder.Self)
    (files : list string) (f : string) :
  f ∈ map (ModuleBuilder.format_file u s) files →
  (ModuleBuilder.hash_files u s files).1 !! f = Some (get_hash u f).
Proof.
  intros Hin. unfold ModuleBuilder.hash_files.
  rewrite mb_hash_loop_eq.
  assert (Hl : update_hashlist
                 (record_hashes u (map (ModuleBuilder.format_file u s) files) ∅)
                 (ModuleBuilder.hashlist s) !! f = Some (get_hash u f)).
  { unfold update_hashlist. apply lookup_union_Some_l.
    by apply record_hashes_lookup. }
  destruct (ModuleBuilder.files_list _ _ _); [done|].
  by destruct (_ =? _).
Qed.

(** [Tool.__hash_files] never writes a file: it makes directories at
    most. *)
Lemma tool_hash_files_no_new (u : Utils) (fs : FS) (obj_dir bin_dir : string)
    (hash_file : option (option (gmap string string))) (files : list string) :
  ∀ p c, (Tool.hash_files u fs obj_dir bin_dir hash_file files).1 p = Some (File c) →
         fs p = Some (File c).
Proof.
  intros p c. unfold Tool.hash_files.
  set (fs1 := if negb (path_exists fs obj_dir) then makedirs obj_dir fs else fs).
  set (fs2 := if negb (path_exists fs1 bin_dir) then makedirs bin_dir fs1 else fs1).
  assert (Hmk : ∀ d (g : FS), makedirs d g p = Some (File c) → g p = Some (File c)).
  { intros d g. unfold makedirs. destruct (_ || _); [|done]. by destruct (g p). }
  assert (H2 : fs2 p = Some (File c) → fs p = Some (File c)).
  { unfold fs2, fs1.
    destruct (negb (path_exists _ bin_dir)); destruct (negb (path_exists fs obj_dir));
      intros H; repeat (apply Hmk in H); done. }
  by destruct hash_file.
Qed.

(** Were the attribute there, an entry of the old cache file would
    survive for every processed path that had one. *)
Lemma tool_old_hash_wins (u : Utils) (fs : FS) (obj_dir bin_dir : string)
    (old : gmap string string) (files : list string) (f h : string) :
  f ∈ concat (map (Tool.format_file u) files) →
  old !! f = Some h →
  ∃ written,
    (Tool.hash_files u fs obj_dir bin_dir (Some (Some old)) files).2
    = Returned (written, concat (map (Tool.format_file u) files))
    ∧ written !! f = Some h.
Proof.
  intros Hin Hold. unfold Tool.hash_files; cbn [snd default].
  eexists. split; [reflexivity|].
  apply lookup_union_Some_l. unfold Tool.old_in_new.
  apply map_lookup_filter_Some. split; [done|]. cbn [fst].
  unfold Tool.new_hashes_of.
  fold (record_hashes u (concat (map (Tool.format_file u) files)) ∅).
  rewrite record_hashes_lookup by done. by eexists.
Qed.

(** C3: [Tool.__init__] calls [__hash_files] on an object that has no
    [hash_file] attribute. Whatever the files, the constructor never
    returns: when the base class is set up, the read of [self.hash_file]
    raises, after the two directories are made and before the cache file
    is read or written. No file is written, so no path gets its current
    hash into the cache. *)
Theorem tool_hash_files_attribute_error (u : Utils) (fs : FS) (dir name : string)
    (base : Outcome unit) (files : list string) :
  let out := Tool.init u fs dir name base files in
  (∀ r, out.2 ≠ Returned r)
  ∧ (base = Returned tt → out.2 = Raised Tool.attribute_error)
  ∧ (∀ p c, out.1 p = Some (File c) → fs p = Some (File c)).
Proof.
  cbn zeta. unfold Tool.init. destruct base as [[]|e|code e]; cbn [fst snd].
  - split; [|split].
    + intros r. unfold Tool.hash_files. cbn [snd]. discriminate.
    + intros _. reflexivity.
    + apply tool_hash_files_no_new.
  - split; [|split]; [discriminate|discriminate|done].
  - split; [|split]; [discriminate|discriminate|done].
Qed.

(** ** File system lemmas *)





Lemma str_app_cons (x : ascii) (a b : string) :
  String x a +:+ b = String x (a +:+ b).
Proof. reflexivity. Qed.

Lemma str_app_assoc (a b c : string) : (a +:+ b) +:+ c = a +:+ b +:+ c.
Proof.
  induction a as [|x a IH]; [done|]. rewrite !str_app_cons. by rewrite IH.
Qed.

Lemma str_length_app (a b : string) :
  String.length (a +:+ b) = String.length a + String.length b.
Proof.
  induction a as [|x a IH]; [done|]. rewrite str_app_cons. simpl. by rewrite IH.
Qed.




(** ** Staging in relocated-root mode *)






(** ** Staging a preference bundle *)







(** ** Private frameworks and the SDK *)

Lemma framework_flags_nonempty (frameworks : list string) (acc : string) :
  acc ≠ "" → BaseModule.framework_flags frameworks acc ≠ "".
Proof.
  revert acc. induction frameworks as [|f l IH]; intros acc Hacc; [done|].
  cbn [BaseModule.framework_flags fold_left].
  apply IH. by destruct acc.
Qed.

Lemma private_frameworks_empty (defaults declared : list string) :
  BaseModule.private_frameworks defaults declared = "" ↔ defaults ++ declared = [].
Proof.
  unfold BaseModule.private_frameworks. split.
  - destruct defaults as [|d defaults]; [destruct declared as [|d declared]|];
      [done| |]; intros H; exfalso; revert H.
    + cbn [BaseModule.framework_flags fold_left].
      apply (framework_flags_nonempty declared). done.
    + apply framework_flags_nonempty. cbn [BaseModule.framework_flags fold_left].
      apply (framework_flags_nonempty defaults). done.
  - intros [-> ->]%app_eq_nil. done.
Qed.

(** C10, as the specification states it, fails on both constructions: the
    builder accepts an Xcode SDK that has a [PrivateFrameworks]
    directory, and the older base class accepts an SDK outside
    [/Applications] that has none. *)
Lemma private_frameworks_check_not_spec :
  let u := demo_utils [] [] [] in
  ¬ spec_private_frameworks_check u xcode_sdk_fs xcode_sdk
      (ModuleBuilder.private_frameworks demo_module)
      (failed_outcome
         (ModuleBuilder.init_search_paths u xcode_sdk_fs "/h" "/l" xcode_sdk "/s"
            demo_module))
  ∧ ¬ spec_private_frameworks_check u empty_fs "/opt/sdk" ["Preferences"]
        (failed_outcome (BaseModule.init_framework_dirs [] ["Preferences"] "/opt/sdk")).
Proof.
  intros u. split; intros H.
  - assert (Hf : false = true); [|discriminate]. by apply H.
  - assert (Hf : false = true); [|discriminate]. by apply H.
Qed.

(** C10 (amended): each construction has its own test. The base class of
    the older tree exits with an error exactly when private frameworks are
    requested (by the module or by the defaults of its type) and the SDK
    path starts with [/Applications]; otherwise it sets the framework
    search flag to the SDK's [PrivateFrameworks] directory. The builder
    raises exactly when private frameworks are declared and the SDK has no
    [PrivateFrameworks] directory, and then the hashing phase is not run;
    when the directory exists it is appended to the framework search
    paths. *)
Theorem private_frameworks_check (u : Utils) (fs : FS) (sdk : string) :
  (∀ defaults declared : list string,
     (failed_outcome (BaseModule.init_framework_dirs defaults declared sdk) = true
      ↔ defaults ++ declared ≠ [] ∧ startswith sdk "/Applications" = true)
     ∧ (failed_outcome (BaseModule.init_framework_dirs defaults declared sdk) = true
        → BaseModule.init_framework_dirs defaults declared sdk
          = Exited 1 BaseModule.xcode_error)
     ∧ (failed_outcome (BaseModule.init_framework_dirs defaults declared sdk) = false
        → BaseModule.init_framework_dirs defaults declared sdk
          = Returned ("-F" +:+ private_frameworks_dir sdk)))
  ∧ (∀ (cloned_headers cloned_libs storage : string)
       (s : ModuleBuilder.Self) (m : ModuleBuilder.ModuleCfg),
       ModuleBuilder.private_frameworks m ≠ [] →
       (path_exists fs (resolve_path u (private_frameworks_dir sdk)) = false →
        ModuleBuilder.init_search_paths u fs cloned_headers cloned_libs sdk storage m
          = Raised (ModuleBuilder.private_frameworks_error sdk)
        ∧ ModuleBuilder.init u fs cloned_headers cloned_libs sdk storage s m
          = Raised (ModuleBuilder.private_frameworks_error sdk))
       ∧ (path_exists fs (resolve_path u (private_frameworks_dir sdk)) = true →
          ∃ m', ModuleBuilder.init_search_paths u fs cloned_headers cloned_libs
                  sdk storage m = Returned m'
                ∧ private_frameworks_dir sdk ∈ ModuleBuilder.framework_dirs m')).
Proof.
  split.
  - intros defaults declared. unfold BaseModule.init_framework_dirs.
    destruct (String.eqb_spec (BaseModule.private_frameworks defaults declared) "")
      as [He|Hne]; cbn [negb andb].
    + apply private_frameworks_empty in He. repeat split; try done.
      by intros [? _].
    + assert (Hl : defaults ++ declared ≠ []).
      { intros Hl. by apply private_frameworks_empty in Hl. }
      destruct (startswith sdk "/Applications"); cbn; repeat split; try done.
      by intros [_ ?].
  - intros cloned_headers cloned_libs storage s m Hpf.
    unfold ModuleBuilder.init, ModuleBuilder.init_search_paths.
    fold (private_frameworks_dir sdk).
    destruct (ModuleBuilder.private_frameworks m) as [|f l]; [done|].
    split; intros ->; [done|].
    eexists. split; [done|]. cbn [ModuleBuilder.framework_dirs].
    apply elem_of_app. right. apply list_elem_of_here.
Qed.

(** The demo module, which asks for a private framework, built against
    an SDK that has no [PrivateFrameworks] directory. *)
Lemma private_frameworks_check_witness :
  let u := demo_utils [] [] [] in
  ModuleBuilder.private_frameworks demo_module ≠ []
  ∧ path_exists empty_fs (resolve_path u (private_frameworks_dir "/opt/sdk")) = false
  ∧ ModuleBuilder.init u empty_fs "/h" "/l" "/opt/sdk" "/s" (demo_builder true)
      demo_module
    = Raised (ModuleBuilder.private_frameworks_error "/opt/sdk").
Proof.
  intros u.
  assert (Hpf : ModuleBuilder.private_frameworks demo_module ≠ [])
    by (intros H; discriminate H).
  split; [exact Hpf|]. split; [reflexivity|].
  apply (proj2 (private_frameworks_check u empty_fs "/opt/sdk")
           "/h" "/l" "/s" (demo_builder true) demo_module Hpf).
  reflexivity.
Defined.

(** ** The project orchestrator *)

Lemma first_error_None (results : list (option string)) :
  LuzBuild.first_error results = None ↔ ∀ r, r ∈ results → r = None.
Proof.
  induction results as [|[e|] l IH]; cbn.
  - split; [|done]. intros _ r Hr. by apply elem_of_nil in Hr.
  - split; [done|]. intros H. by specialize (H (Some e) (list_elem_of_here _ _)).
  - rewrite IH. split.
    + intros H r [->|Hr]%elem_of_cons; [done|by apply H].
    + intros H r Hr. apply H. by apply elem_of_cons; right.
Qed.

Lemma build_starts (p : LuzBuild.Project) :
  LuzBuild.EBuild (LuzBuild.project_path p) ∈ (LuzBuild.build p).1.
Proof.
  destruct p as [path [ms|] subs]; cbn [LuzBuild.build LuzBuild.project_path].
  - destruct (LuzBuild.first_error _); [|destruct (forallb _ _)]; cbn;
      apply list_elem_of_here.
  - destruct (forallb _ _); cbn; apply list_elem_of_here.
Qed.

(** C5, as the specification states it, fails: in the demo project the
    tool fails to link, so [build()] reports that and exits; the
    submodule is never built. *)
Lemma build_not_spec : ¬ spec_build_runs_all demo_project.
Proof.
  intros (_ & Hsub & _).
  specialize (Hsub _ (list_elem_of_here _ _)).
  vm_compute in Hsub.
  repeat (apply elem_of_cons in Hsub as [Hsub|Hsub]; [discriminate Hsub|]).
  by apply elem_of_nil in Hsub.
Qed.

(** C5 (amended): [build()] calls [compile()] on every module whatever the
    others return. When some module returns an error, the first such
    result in module order is reported, the run exits, and no submodule is
    built. Only when every module returns [None] is [build()] called on
    every submodule. *)
Theorem build_modules_then_submodules (path : string)
    (ms : list LuzBuild.ModuleObj) (subs : list LuzBuild.Project) :
  let p := LuzBuild.mkProject path (Some ms) subs in
  (∀ m, m ∈ ms → LuzBuild.ECompile (LuzBuild.mod_name m) ∈ (LuzBuild.build p).1)
  ∧ (∀ e, LuzBuild.first_error (map LuzBuild.compile_result ms) = Some e →
          LuzBuild.build p
          = ([LuzBuild.EBuild path]
             ++ map (fun m => LuzBuild.ECompile (LuzBuild.mod_name m)) ms
             ++ [LuzBuild.EError e],
             LuzBuild.Aborted e))
  ∧ ((∀ m, m ∈ ms → LuzBuild.compile_result m = None) →
     ∀ sub, sub ∈ subs →
            LuzBuild.EBuild (LuzBuild.project_path sub) ∈ (LuzBuild.build p).1).
Proof.
  intros p. split; [|split].
  - intros m Hm. unfold p. cbn [LuzBuild.build].
    assert (Hin : LuzBuild.ECompile (LuzBuild.mod_name m)
                  ∈ [LuzBuild.EBuild path]
                    ++ map (fun m => LuzBuild.ECompile (LuzBuild.mod_name m)) ms).
    { apply elem_of_app. right. apply list_elem_of_In, in_map_iff.
      exists m. split; [done|]. by apply list_elem_of_In. }
    destruct (LuzBuild.first_error _); [|destruct (forallb _ _)]; cbn [fst];
      apply elem_of_app; by left.
  - intros e He. unfold p. cbn [LuzBuild.build]. rewrite He.
    by rewrite <- app_assoc.
  - intros Hok sub Hsub. unfold p. cbn [LuzBuild.build].
    assert (Hnone : LuzBuild.first_error (map LuzBuild.compile_result ms) = None).
    { apply first_error_None. intros r Hr.
      apply list_elem_of_In, in_map_iff in Hr as (m & <- & Hm).
      apply Hok. by apply list_elem_of_In. }
    rewrite Hnone.
    assert (Hin : LuzBuild.EBuild (LuzBuild.project_path sub)
                  ∈ concat (map fst (map LuzBuild.build subs))).
    { apply list_elem_of_In, in_concat. exists (LuzBuild.build sub).1. split.
      - apply in_map, in_map. by apply list_elem_of_In.
      - apply list_elem_of_In, build_starts. }
    destruct (forallb _ _); cbn [fst]; apply elem_of_app; by right.
Qed.

(** The demo project: its first module fails, the run is aborted with
    that module's message after both modules were compiled. *)
Lemma build_modules_then_submodules_witness :
  LuzBuild.first_error (map LuzBuild.compile_result demo_modules)
  = Some demo_lipo_error
  ∧ LuzBuild.build demo_project
    = ([LuzBuild.EBuild "/p"; LuzBuild.ECompile "tool"; LuzBuild.ECompile "tweak";
        LuzBuild.EError demo_lipo_error],
       LuzBuild.Aborted demo_lipo_error).
Proof.
  split; [reflexivity|].
  exact (proj1 (proj2 (build_modules_then_submodules "/p" demo_modules
                         demo_submodules))
           demo_lipo_error eq_refl).
Defined.

(** ** The compile stage *)

Lemma handle_logos_acc (files : list SourceEntry) (acc inc : list string) :
  (fold_left
     (fun acc file =>
        let '(files_paths, inc) := acc in
        match file with
        | Logos new_path orig_path =>
            (files_paths ++ [new_path],
             if existsb (String.eqb (ModuleBuilder.dirname_text orig_path)) inc
             then inc else inc ++ [ModuleBuilder.dirname_text orig_path])
        | Plain path => (files_paths ++ [path], inc)
        end)
     files (acc, inc)).1
  = acc ++ map ModuleBuilder.entry_path files.
Proof.
  revert acc inc. induction files as [|[p|n o] files IH]; intros acc inc.
  - cbn. by rewrite app_nil_r.
  - cbn [fold_left map ModuleBuilder.entry_path]. rewrite IH.
    by rewrite <- app_assoc.
  - cbn [fold_left map ModuleBuilder.entry_path]. rewrite IH.
    by rewrite <- app_assoc.
Qed.

(** [files_paths] lists the path of each entry, in order. *)
Lemma handle_logos_paths (files : list SourceEntry) (inc : list string) :
  (ModuleBuilder.handle_logos files inc).1 = map ModuleBuilder.entry_path files.
Proof. unfold ModuleBuilder.handle_logos. by rewrite handle_logos_acc. Qed.

(** The lookup of [__compile_file] finds the path of the entry. *)
Lemma chosen_path_entry (files : list SourceEntry) (e : SourceEntry) :
  e ∈ files →
  ModuleBuilder.chosen_path (map ModuleBuilder.entry_path files) e
  = Some (ModuleBuilder.entry_path e).
Proof.
  intros He. unfold ModuleBuilder.chosen_path.
  destruct (find _ _) as [x|] eqn:Hf.
  - apply find_some in Hf as [_ Hx]. apply String.eqb_eq in Hx. by subst.
  - exfalso.
    assert (Hin : In (ModuleBuilder.entry_path e)
                     (map ModuleBuilder.entry_path files)).
    { apply in_map. by apply list_elem_of_In. }
    apply (find_none _ _ Hf) in Hin. by rewrite String.eqb_refl in Hin.
Qed.

Lemma chosen_path_lookup (files : list SourceEntry) (i : nat) (file : string) :
  files !! i ≫= ModuleBuilder.chosen_path (ModuleBuilder.handle_logos files []).1
  = Some file →
  file ∈ map ModuleBuilder.entry_path files.
Proof.
  rewrite handle_logos_paths.
  destruct (files !! i) as [e|] eqn:He; [|done]. cbn.
  assert (Hin : e ∈ files) by (by eapply list_elem_of_lookup_2).
  rewrite chosen_path_entry by done. intros [= <-].
  apply list_elem_of_In, in_map. by apply list_elem_of_In.
Qed.

Lemma chosen_path_defined (files : list SourceEntry) (i : nat) :
  i < length files →
  is_Some (files !! i
           ≫= ModuleBuilder.chosen_path (ModuleBuilder.handle_logos files []).1).
Proof.
  intros Hi. rewrite handle_logos_paths.
  destruct (lookup_lt_is_Some_2 files i Hi) as [e He]. rewrite He. cbn.
  rewrite chosen_path_entry by (by eapply list_elem_of_lookup_2). by eexists.
Qed.

(** *** Cleaning the architecture directories *)

Lemma no_new_files_refl (fs : FS) : no_new_files fs fs.
Proof. by intros p c. Qed.

Lemma no_new_files_trans (fs1 fs2 fs3 : FS) :
  no_new_files fs1 fs2 → no_new_files fs2 fs3 → no_new_files fs1 fs3.
Proof. intros H12 H23 p c H. by apply H12, H23. Qed.

Lemma rm_rf_glob_no_new (sh : string → FS → FS) (prefix : string) (fs : FS) :
  shell_safe prefix = true → no_new_files fs (rm_rf_glob sh prefix fs).
Proof.
  intros Hs p c. unfold rm_rf_glob. rewrite Hs. by destruct (String.prefix _ _).
Qed.

Lemma names_safe_spec (s : ModuleBuilder.Self) (files : list SourceEntry) :
  names_safe s files = true ↔
  ∀ arch file, arch ∈ ModuleBuilder.archs s →
               file ∈ map ModuleBuilder.entry_path files →
               shell_safe (ModuleBuilder.stem_prefix s arch file) = true.
Proof.
  unfold names_safe. rewrite forallb_forall. split.
  - intros H arch file Ha Hf.
    specialize (H arch (proj1 (list_elem_of_In _ _) Ha)).
    rewrite forallb_forall in H. apply H. by apply list_elem_of_In.
  - intros H arch Ha. apply forallb_forall. intros file Hf.
    apply H; by apply list_elem_of_In.
Qed.

Lemma rmtree_no_new (d : string) (fs : FS) : no_new_files fs (rmtree d fs).
Proof. intros p c. unfold rmtree. by destruct (_ || _). Qed.

Lemma makedirs_no_new (d : string) (fs : FS) : no_new_files fs (makedirs d fs).
Proof.
  intros p c. unfold makedirs. destruct (_ || _); [|done].
  by destruct (fs p).
Qed.

Lemma fold_left_no_new {A : Type} (f : FS → A → FS) (l : list A) (fs : FS) :
  (∀ fs a, no_new_files fs (f fs a)) → no_new_files fs (fold_left f l fs).
Proof.
  intros Hf. revert fs. induction l as [|a l IH]; intros fs; cbn.
  - apply no_new_files_refl.
  - eapply no_new_files_trans; [apply Hf|apply IH].
Qed.

Lemma fold_left_no_new_in {A : Type} (f : FS → A → FS) (l : list A) (fs : FS) :
  (∀ fs a, a ∈ l → no_new_files fs (f fs a)) →
  no_new_files fs (fold_left f l fs).
Proof.
  revert fs. induction l as [|a l IH]; intros fs Hf; cbn.
  - apply no_new_files_refl.
  - eapply no_new_files_trans; [apply Hf, list_elem_of_here|].
    apply IH. intros fs' b Hb. apply Hf. by apply elem_of_cons; right.
Qed.

Lemma clean_arch_no_new (tc : Toolchain) (s : ModuleBuilder.Self)
    (files_paths : list string) (fs : FS) (arch : string) :
  (∀ file, file ∈ files_paths →
           shell_safe (ModuleBuilder.stem_prefix s arch file) = true) →
  no_new_files fs (ModuleBuilder.clean_arch tc s files_paths fs arch).
Proof.
  intros Hsafe. unfold ModuleBuilder.clean_arch.
  eapply no_new_files_trans; [|apply makedirs_no_new].
  apply fold_left_no_new_in. intros fs' x Hx. by apply rm_rf_glob_no_new, Hsafe.
Qed.

(** After the cleaning loop no file is left below the stem prefix of any
    file and architecture of the build. *)
Lemma clean_arch_dirs_clears (tc : Toolchain) (s : ModuleBuilder.Self)
    (files_paths : list string) (fs : FS) (file arch : string) :
  (∀ arch file, arch ∈ ModuleBuilder.archs s → file ∈ files_paths →
                shell_safe (ModuleBuilder.stem_prefix s arch file) = true) →
  file ∈ files_paths → arch ∈ ModuleBuilder.archs s →
  only_fresh s arch file (ModuleBuilder.clean_arch_dirs tc s files_paths fs) [].
Proof.
  intros Hsafe Hfile Harch p c Hpre Hp. exfalso.
  unfold ModuleBuilder.clean_arch_dirs in Hp.
  pose proof Harch as Harch0.
  apply list_elem_of_split in Harch as (a1 & a2 & Ha).
  rewrite Ha, fold_left_app in Hp. cbn [fold_left] in Hp.
  apply (fold_left_no_new_in _ a2) in Hp.
  2:{ intros fs' a Hin. apply clean_arch_no_new. intros x Hx.
      apply Hsafe; [|done]. rewrite Ha. apply elem_of_app. right.
      by apply elem_of_cons; right. }
  unfold ModuleBuilder.clean_arch in Hp. apply makedirs_no_new in Hp.
  pose proof Hfile as Hfile0.
  apply list_elem_of_split in Hfile as (f1 & f2 & Hf).
  rewrite Hf, fold_left_app in Hp. cbn [fold_left] in Hp.
  apply (fold_left_no_new_in
           (fun fs x => rm_rf_glob (sh tc) (ModuleBuilder.stem_prefix s arch x) fs)
           f2) in Hp.
  2:{ intros fs' x Hx. apply rm_rf_glob_no_new, Hsafe; [done|].
      rewrite Hf. apply elem_of_app. right. by apply elem_of_cons; right. }
  unfold rm_rf_glob in Hp. rewrite (Hsafe arch file Harch0 Hfile0) in Hp.
  by rewrite Hpre in Hp.
Qed.

(** *** The invariant *)

Section Build.
Context (u : Utils) (tc : Toolchain) (s : ModuleBuilder.Self)
        (files : list SourceEntry) (compile_type : ModuleBuilder.CompileType)
        (stage_step : FS → FS * Outcome (option string)).

Let step := ModuleBuilder.exec u tc s files compile_type stage_step.
Let n_archs := length (ModuleBuilder.archs s).

Lemma start_inv (fs0 : FS) :
  build_inv s files (ModuleBuilder.start tc s files fs0).
Proof.
  unfold build_inv, ModuleBuilder.start; cbn.
  split; [by rewrite length_replicate|].
  split; [by apply Forall2_replicate|].
  split; [done|]. split; [by intros H%elem_of_nil|].
  split.
  - intros Hsafe _ file arch Hf Ha. rewrite handle_logos_paths.
    apply clean_arch_dirs_clears; [|done|done].
    intros arch' file' Ha' Hf'. by apply (proj1 (names_safe_spec s files) Hsafe).
  - split; [by intros p H%elem_of_nil|].
    by intros _ file arch w seen fresh H%elem_of_nil.
Qed.

Lemma get_arch_Some (i j : nat) (tasks : list (list ModuleBuilder.Status))
    (x : ModuleBuilder.Status) :
  ModuleBuilder.get_arch i j tasks = Some x ↔
  ∃ row, tasks !! i = Some row ∧ row !! j = Some x.
Proof.
  unfold ModuleBuilder.get_arch. destruct (tasks !! i) as [row|].
  - split; [by exists row|]. by intros (r & [= <-] & H).
  - split; [done|]. by intros (r & ? & _).
Qed.

Lemma set_arch_row (i j : nat) (x : ModuleBuilder.Status)
    (tasks : list (list ModuleBuilder.Status)) (row : list ModuleBuilder.Status) :
  tasks !! i = Some row →
  ModuleBuilder.set_arch i j x tasks = <[i := <[j := x]> row]> tasks.
Proof. intros H. unfold ModuleBuilder.set_arch. by rewrite H. Qed.

(** A row with a task that is not yet done belongs to a running file
    task. *)
Lemma row_ok_pending (f : ModuleBuilder.Status) (row : list ModuleBuilder.Status)
    (j : nat) (x : ModuleBuilder.Status) :
  row_ok n_archs f row → row !! j = Some x → ModuleBuilder.is_done x = false →
  f = ModuleBuilder.Running.
Proof.
  destruct f as [| |r]; cbn; [|done|].
  - by intros ->.
  - intros [_ Hall] Hj Hx. apply (Forall_lookup_1 _ _ _ _ Hall) in Hj.
    by rewrite Hj in Hx.
Qed.

Lemma row_ok_update (f : ModuleBuilder.Status) (row : list ModuleBuilder.Status)
    (j : nat) (x y : ModuleBuilder.Status) :
  row_ok n_archs f row → row !! j = Some x → ModuleBuilder.is_done x = false →
  row_ok n_archs f (<[j := y]> row).
Proof.
  intros Hok Hj Hx. pose proof (row_ok_pending f row j x Hok Hj Hx) as ->.
  unfold row_ok in *. rewrite length_insert. exact Hok.
Qed.

Lemma write_outputs_lookup (content : string) (outs : list string) (fs : FS)
    (p : string) (n : Node) :
  fold_left (fun fs out => write_file out content fs) outs fs p = Some n →
  p ∈ outs ∨ fs p = Some n.
Proof.
  revert fs. induction outs as [|o outs IH]; intros fs; cbn; [by right|].
  intros [Hin|Hfs]%IH.
  - left. by apply elem_of_cons; right.
  - unfold write_file in Hfs. destruct (String.eqb_spec p o) as [->|_].
    + left. apply list_elem_of_here.
    + by right.
Qed.

Lemma after_barrier_frame (st : ModuleBuilder.State) :
  let st' := ModuleBuilder.after_barrier u tc s files compile_type stage_step st in
  ModuleBuilder.file_tasks st' = ModuleBuilder.file_tasks st
  ∧ ModuleBuilder.arch_tasks st' = ModuleBuilder.arch_tasks st
  ∧ ModuleBuilder.written st' = ModuleBuilder.written st
  ∧ ModuleBuilder.returned st' ≠ None
  ∧ ∀ file arch w seen fresh,
      ModuleBuilder.EInvoke file arch w seen fresh ∈ ModuleBuilder.events st' →
      ModuleBuilder.EInvoke file arch w seen fresh ∈ ModuleBuilder.events st.
Proof.
  assert (Hcmd : ∀ file arch w seen fresh (cmds : list Cmd) tail,
            (∀ e, e ∈ tail → e = ModuleBuilder.EStage) →
            ModuleBuilder.EInvoke file arch w seen fresh
            ∈ (ModuleBuilder.events st
               ++ [ModuleBuilder.ELinker] ++ map ModuleBuilder.ECmd cmds) ++ tail →
            ModuleBuilder.EInvoke file arch w seen fresh ∈ ModuleBuilder.events st).
  { intros file arch w seen fresh cmds tail Htail
      [[H|[H|H]%elem_of_app]%elem_of_app|H]%elem_of_app; [done| | |].
    - apply list_elem_of_singleton in H. discriminate H.
    - apply list_elem_of_In, in_map_iff in H as (c & Hc & _). discriminate Hc.
    - apply Htail in H. discriminate H. }
  unfold ModuleBuilder.after_barrier.
  destruct (ModuleBuilder.first_failure _); [by cbn|].
  destruct (ModuleBuilder.linker _ _ _ _ _ _) as [cmds [e|]].
  - cbn. repeat split; try done. intros file arch w seen fresh H.
    apply (Hcmd file arch w seen fresh cmds []); [by intros e0 ?%elem_of_nil|].
    by rewrite app_nil_r.
  - destruct (ModuleBuilder.pack s).
    + destruct (stage_step _) as [fs' r]. cbn. repeat split; try done.
      intros file arch w seen fresh H.
      apply (Hcmd file arch w seen fresh cmds [ModuleBuilder.EStage]); [|done].
      by intros e0 ->%list_elem_of_singleton.
    + cbn. repeat split; try done. intros file arch w seen fresh H.
      apply (Hcmd file arch w seen fresh cmds []); [by intros e0 ?%elem_of_nil|].
      by rewrite app_nil_r.
Qed.

Lemma exec_inv (c : ModuleBuilder.Choice) (st st' : ModuleBuilder.State) :
  build_inv s files st → step c st = Some st' → build_inv s files st'.
Proof.
  intros (Hlen & Hrows & Hret & Hlink & Hfresh & Hwr & Hev) He.
  destruct st as [fs ft at' wr ev ret]. cbn in Hlen, Hrows, Hret, Hlink, Hfresh, Hwr, Hev.
  unfold step in He. destruct c as [i|i j|i j|i|]; cbn [ModuleBuilder.exec] in He;
    cbn [ModuleBuilder.fs ModuleBuilder.file_tasks ModuleBuilder.arch_tasks
         ModuleBuilder.written ModuleBuilder.events ModuleBuilder.returned] in He.
  - (* StartFile *)
    destruct (ft !! i) as [[| |r]|] eqn:Hfi; try done.
    destruct (files !! i ≫= _) as [file|] eqn:Hfile; [|done].
    injection He as <-. unfold build_inv; cbn.
    split; [by rewrite length_insert|].
    split; [apply Forall2_insert; [done|]; apply length_replicate|].
    split.
    { intros Hr. apply Hret in Hr. by apply (Forall_lookup_1 _ _ _ _ Hr) in Hfi. }
    done.
  - (* StartArch *)
    destruct (files !! i ≫= _) as [file|] eqn:Hfile; [|done].
    destruct (ModuleBuilder.archs s !! j) as [arch|] eqn:Harch; [|done].
    destruct (ModuleBuilder.get_arch i j at') as [[| |r]|] eqn:Hget; try done.
    injection He as <-.
    apply get_arch_Some in Hget as (row & Hrow & Hj).
    destruct (Forall2_lookup_r _ _ _ _ _ Hrows Hrow) as (f & Hf & Hok).
    assert (Hrun : f = ModuleBuilder.Running)
      by (by apply (row_ok_pending f row j ModuleBuilder.Queued)).
    assert (Hnone : ret = None).
    { destruct ret as [o|]; [|done]. exfalso.
      assert (Hd : Forall (fun x => ModuleBuilder.is_done x = true) ft) by by apply Hret.
      apply (Forall_lookup_1 _ _ _ _ Hd) in Hf. by subst f. }
    assert (Hfin : file ∈ map ModuleBuilder.entry_path files)
      by (by eapply chosen_path_lookup).
    assert (Hain : arch ∈ ModuleBuilder.archs s)
      by (by eapply list_elem_of_lookup_2).
    unfold build_inv; cbn. split; [done|].
    split.
    { rewrite (set_arch_row i j _ at' row Hrow).
      rewrite <- (list_insert_id ft i f Hf).
      apply Forall2_insert; [done|].
      by apply (row_ok_update f row j ModuleBuilder.Queued). }
    split; [done|]. split.
    { intros [H|H%list_elem_of_singleton]%elem_of_app; [by apply Hlink|done]. }
    split.
    { intros Hs _ file' arch' Hf' Ha' p c Hpre Hp. apply rmtree_no_new in Hp.
      by apply (Hfresh Hs Hnone file' arch' Hf' Ha' p c). }
    split; [done|].
    intros Hs file' arch' w seen fresh [H|H%list_elem_of_singleton]%elem_of_app;
      [by apply (Hev Hs file' arch' w seen fresh)|].
    injection H as -> -> -> -> ->. split; [|done].
    intros p c Hpre Hp. apply rmtree_no_new in Hp.
    by apply (Hfresh Hs Hnone file arch Hfin Hain p c).
  - (* EndArch *)
    destruct (files !! i ≫= _) as [file|] eqn:Hfile; [|done].
    destruct (ModuleBuilder.archs s !! j) as [arch|] eqn:Harch; [|done].
    destruct (ModuleBuilder.get_arch i j at') as [[| |r]|] eqn:Hget; try done.
    apply get_arch_Some in Hget as (row & Hrow & Hj).
    destruct (Forall2_lookup_r _ _ _ _ _ Hrows Hrow) as (f & Hf & Hok).
    assert (Hfin : file ∈ map ModuleBuilder.entry_path files)
      by (by eapply chosen_path_lookup).
    assert (Hain : arch ∈ ModuleBuilder.archs s)
      by (by eapply list_elem_of_lookup_2).
    assert (Hrows' : ∀ y, Forall2 (row_ok (length (ModuleBuilder.archs s))) ft
                            (ModuleBuilder.set_arch i j y at')).
    { intros y. rewrite (set_arch_row i j _ at' row Hrow).
      rewrite <- (list_insert_id ft i f Hf).
      apply Forall2_insert; [done|].
      by apply (row_ok_update f row j ModuleBuilder.Running). }
    destruct (cc_output tc file arch) as [content|]; injection He as <-;
      unfold build_inv; cbn; (split; [done|]); (split; [done|]);
      (split; [done|]); (split; [done|]); [|done].
    split.
    { intros Hs Hnone file' arch' Hf' Ha' p c Hpre Hp. apply elem_of_app.
      apply write_outputs_lookup in Hp as [Hp|Hp]; [by right|left].
      by apply (Hfresh Hs Hnone file' arch' Hf' Ha' p c). }
    split; [|done].
    intros p [Hp|Hp]%elem_of_app; [by apply Hwr|].
    by exists file, arch.
  - (* EndFile *)
    destruct (ft !! i) as [[| |r]|] eqn:Hfi; try done.
    destruct (at' !! i) as [row|] eqn:Hrow; [|done].
    destruct (forallb ModuleBuilder.is_done row) eqn:Hall; [|done].
    injection He as <-. unfold build_inv; cbn.
    split; [by rewrite length_insert|].
    split.
    { rewrite <- (list_insert_id at' i row Hrow).
      apply Forall2_insert; [done|]. cbn. split.
      - by apply (Forall2_lookup_lr _ _ _ _ _ _ Hrows Hfi Hrow).
      - apply Forall_forall. intros x Hx.
        by apply (proj1 (forallb_forall _ _) Hall), list_elem_of_In. }
    split.
    { intros Hr. apply Forall_insert; [by apply Hret|done]. }
    done.
  - (* PassBarrier *)
    destruct ret as [o|]; [done|].
    destruct (forallb ModuleBuilder.is_done ft) eqn:Hall; [|done].
    injection He as <-.
    destruct (after_barrier_frame
                {| ModuleBuilder.fs := fs; ModuleBuilder.file_tasks := ft;
                   ModuleBuilder.arch_tasks := at'; ModuleBuilder.written := wr;
                   ModuleBuilder.events := ev; ModuleBuilder.returned := None |})
      as (Eft & Eat & Ewr & Eret & Eev).
    cbn in Eft, Eat, Ewr, Eret, Eev. unfold build_inv.
    rewrite Eft, Eat, Ewr.
    split; [done|]. split; [done|]. split.
    { intros _. apply Forall_forall. intros x Hx.
      by apply (proj1 (forallb_forall _ _) Hall), list_elem_of_In. }
    split; [done|]. split; [done|]. split; [done|].
    intros Hs file arch w seen fresh H.
    apply (Hev Hs file arch w seen fresh). by apply Eev.
Qed.

Lemma run_inv (schedule : list ModuleBuilder.Choice)
    (st st' : ModuleBuilder.State) :
  build_inv s files st →
  ModuleBuilder.run_schedule u tc s files compile_type stage_step schedule st
  = Some st' →
  build_inv s files st'.
Proof.
  revert st. induction schedule as [|c schedule IH]; intros st Hinv; cbn.
  - by intros [= <-].
  - destruct (ModuleBuilder.exec _ _ _ _ _ _ c st) as [st1|] eqn:He; [|done].
    apply IH. by eapply exec_inv.
Qed.

End Build.

Lemma status_le_refl (x : ModuleBuilder.Status) : status_le x x.
Proof. by destruct x. Qed.

Lemma get_arch_insert_ne (i i' j : nat) (row' : list ModuleBuilder.Status)
    (tasks : list (list ModuleBuilder.Status)) :
  i ≠ i' →
  ModuleBuilder.get_arch i j (<[i' := row']> tasks)
  = ModuleBuilder.get_arch i j tasks.
Proof.
  intros Hne. unfold ModuleBuilder.get_arch.
  by rewrite list_lookup_insert_ne.
Qed.

(** Changing the status of one task of a row moves that task forward and
    leaves the others as they are. *)
Lemma set_arch_monotone (i' j' : nat) (x0 y : ModuleBuilder.Status)
    (tasks : list (list ModuleBuilder.Status)) :
  ModuleBuilder.get_arch i' j' tasks = Some x0 → status_le x0 y →
  ∀ i j x, ModuleBuilder.get_arch i j tasks = Some x →
           ∃ z, ModuleBuilder.get_arch i j (ModuleBuilder.set_arch i' j' y tasks)
                = Some z ∧ status_le x z.
Proof.
  intros (row' & Hrow' & Hj')%get_arch_Some Hle i j x Hx.
  rewrite (set_arch_row i' j' y tasks row' Hrow').
  destruct (decide (i = i')) as [->|Hi].
  - apply get_arch_Some in Hx as (row & Hrow & Hj).
    rewrite Hrow' in Hrow. injection Hrow as <-.
    destruct (decide (j = j')) as [->|Hjne].
    + exists y. split.
      * apply get_arch_Some. exists (<[j' := y]> row'). split.
        -- apply list_lookup_insert_eq. by eapply lookup_lt_Some.
        -- apply list_lookup_insert_eq. by eapply lookup_lt_Some.
      * rewrite Hj' in Hj. by injection Hj as <-.
    + exists x. split; [|apply status_le_refl].
      apply get_arch_Some. exists (<[j' := y]> row'). split.
      * apply list_lookup_insert_eq. by eapply lookup_lt_Some.
      * by rewrite list_lookup_insert_ne.
  - exists x. split; [|apply status_le_refl].
    by rewrite get_arch_insert_ne.
Qed.

(** C4: a build of [ModuleBuilder.compile] under any schedule of the two
    pools. Once [__linker] has been called, every file task and every
    task of a file and an architecture is done, with a result or an
    error. A task that is running can always finish, whatever the
    results of the others, and no move takes a task backwards or changes
    a result: nothing cancels a sibling. *)
Theorem compile_barrier (u : Utils) (tc : Toolchain) (s : ModuleBuilder.Self)
    (files : list SourceEntry) (compile_type : ModuleBuilder.CompileType)
    (stage_step : FS → FS * Outcome (option string)) (fs0 : FS)
    (schedule : list ModuleBuilder.Choice) (st : ModuleBuilder.State) :
  ModuleBuilder.run_schedule u tc s files compile_type stage_step schedule
    (ModuleBuilder.start tc s files fs0) = Some st →
  (ModuleBuilder.ELinker ∈ ModuleBuilder.events st →
   ∀ i, i < length files →
        (∃ r, ModuleBuilder.file_tasks st !! i = Some (ModuleBuilder.Done r))
        ∧ ∀ j, j < length (ModuleBuilder.archs s) →
               ∃ r, ModuleBuilder.get_arch i j (ModuleBuilder.arch_tasks st)
                    = Some (ModuleBuilder.Done r))
  ∧ (∀ i j, ModuleBuilder.get_arch i j (ModuleBuilder.arch_tasks st)
            = Some ModuleBuilder.Running →
            is_Some (ModuleBuilder.exec u tc s files compile_type stage_step
                       (ModuleBuilder.EndArch i j) st))
  ∧ (∀ c st', ModuleBuilder.exec u tc s files compile_type stage_step c st
              = Some st' →
              ∀ i j x, ModuleBuilder.get_arch i j (ModuleBuilder.arch_tasks st)
                       = Some x →
                       ∃ y, ModuleBuilder.get_arch i j (ModuleBuilder.arch_tasks st')
                            = Some y ∧ status_le x y).
Proof.
  intros Hrun.
  pose proof (run_inv u tc s files compile_type stage_step schedule _ st
                (start_inv tc s files fs0) Hrun)
    as (Hlen & Hrows & Hret & Hlink & _).
  split; [|split].
  - intros Hl i Hi.
    assert (Hdone := Hret (Hlink Hl)).
    rewrite <- Hlen in Hi.
    destruct (lookup_lt_is_Some_2 _ _ Hi) as [f Hf].
    pose proof (Forall_lookup_1 _ _ _ _ Hdone Hf) as Hfd.
    destruct f as [| |r]; try done.
    split; [by exists r|]. intros j Hj.
    destruct (Forall2_lookup_l _ _ _ _ _ Hrows Hf) as (row & Hrow & Hn & Hall).
    rewrite <- Hn in Hj.
    destruct (lookup_lt_is_Some_2 _ _ Hj) as [x Hx].
    pose proof (Forall_lookup_1 _ _ _ _ Hall Hx) as Hxd.
    destruct x as [| |r']; try done.
    exists r'. apply get_arch_Some. by exists row.
  - intros i j (row & Hrow & Hj)%get_arch_Some.
    destruct (Forall2_lookup_r _ _ _ _ _ Hrows Hrow) as (f & Hf & Hok).
    pose proof (row_ok_pending s f row j _ Hok Hj eq_refl) as ->.
    assert (Hi : i < length files).
    { rewrite <- Hlen. by eapply lookup_lt_Some. }
    destruct (chosen_path_defined files i Hi) as [file Hfile].
    assert (Hja : j < length (ModuleBuilder.archs s)).
    { cbn in Hok. rewrite <- Hok. by eapply lookup_lt_Some. }
    destruct (lookup_lt_is_Some_2 _ _ Hja) as [arch Harch].
    cbn [ModuleBuilder.exec]. rewrite Hfile, Harch.
    assert (Hget : ModuleBuilder.get_arch i j (ModuleBuilder.arch_tasks st)
                   = Some ModuleBuilder.Running).
    { apply get_arch_Some. by exists row. }
    rewrite Hget. by destruct (cc_output tc file arch).
  - intros c st' He i j x Hx.
    destruct c as [i'|i' j'|i' j'|i'|]; cbn [ModuleBuilder.exec] in He.
    + destruct (ModuleBuilder.file_tasks st !! i') as [[| |r]|] eqn:Hfi; try done.
      destruct (files !! i' ≫= _); [|done]. injection He as <-. cbn.
      exists x. split; [|apply status_le_refl].
      rewrite get_arch_insert_ne; [done|]. intros ->.
      apply get_arch_Some in Hx as (row & Hrow & Hj).
      pose proof (Forall2_lookup_lr _ _ _ _ _ _ Hrows Hfi Hrow) as Hok.
      cbn in Hok. by subst row.
    + destruct (files !! i' ≫= _); [|done].
      destruct (ModuleBuilder.archs s !! j'); [|done].
      destruct (ModuleBuilder.get_arch i' j' _) as [[| |r]|] eqn:Hget; try done.
      injection He as <-. cbn.
      by apply (set_arch_monotone i' j' ModuleBuilder.Queued).
    + destruct (files !! i' ≫= _) as [file|]; [|done].
      destruct (ModuleBuilder.archs s !! j') as [arch|]; [|done].
      destruct (ModuleBuilder.get_arch i' j' _) as [[| |r]|] eqn:Hget; try done.
      destruct (cc_output tc file arch); injection He as <-; cbn;
        by apply (set_arch_monotone i' j' ModuleBuilder.Running).
    + destruct (ModuleBuilder.file_tasks st !! i') as [[| |r]|]; try done.
      destruct (ModuleBuilder.arch_tasks st !! i'); [|done].
      destruct (forallb _ _); [|done]. injection He as <-. cbn.
      exists x. split; [done|apply status_le_refl].
    + destruct (ModuleBuilder.returned st); [done|].
      destruct (forallb _ _); [|done]. injection He as <-.
      destruct (after_barrier_frame u tc s files compile_type stage_step st)
        as (_ & -> & _).
      exists x. split; [done|apply status_le_refl].
Qed.

(** The demo build under a schedule that lets the second file start
    compiling first: it reaches the link stage with both tasks done. *)
Lemma compile_barrier_witness :
  demo_run demo_schedule = Some demo_final
  ∧ ModuleBuilder.ELinker ∈ ModuleBuilder.events demo_final
  ∧ ∀ i, i < 2 →
         ∀ j, j < 1 →
              ∃ r, ModuleBuilder.get_arch i j (ModuleBuilder.arch_tasks demo_final)
                   = Some (ModuleBuilder.Done r).
Proof.
  assert (Hrun : demo_run demo_schedule = Some demo_final) by reflexivity.
  assert (Hl : ModuleBuilder.ELinker ∈ ModuleBuilder.events demo_final).
  { apply list_elem_of_In. vm_compute.
    repeat (first [left; reflexivity | right]). }
  split; [exact Hrun|]. split; [exact Hl|].
  intros i Hi.
  exact (proj2 (proj1 (compile_barrier (demo_utils [] [] []) demo_tools
                         (demo_builder true) demo_files ModuleBuilder.Dylib
                         demo_stage demo_stale_fs demo_schedule demo_final Hrun)
                  Hl i Hi)).
Defined.

(** The [rmtree] of a compile task, on its own, leaves a stale object of
    an earlier build where it is: the pattern is taken as a path, and no
    entry has that name. *)
Lemma task_rmtree_keeps_stale :
  rmtree (ModuleBuilder.stem_prefix (demo_builder true) "arm64" "/p/a.m" +:+ "*")
         demo_stale_fs "/p/.luz/obj/demo/arm64/a.m-1600000000.0.o"
  = Some (File "half-written object").
Proof. reflexivity. Qed.




(** *** The tweak module of the older tree *)

Lemma prefix_app_l (a b p : string) :
  String.prefix (a +:+ b) p = true → String.prefix a p = true.
Proof.
  revert p. induction a as [|x a IH]; intros p; [by destruct p|].
  rewrite str_app_cons. destruct p as [|y p]; [done|]. cbn.
  destruct (ascii_dec x y); [apply IH|done].
Qed.

Lemma tw_stem_under (s : Tweak.Self) (arch file p : string) :
  String.prefix (Tweak.stem_prefix s arch file) p = true →
  under (Tweak.obj_dir s +:+ "/" +:+ arch) p = true.
Proof.
  unfold under, Tweak.stem_prefix. intros H.
  apply (prefix_app_l _ (path_name file +:+ "-")).
  by rewrite !str_app_assoc.
Qed.

Lemma tw_clean_arch_dirs_clears (s : Tweak.Self) (fs : FS) (file arch : string) :
  arch ∈ Tweak.archs s →
  tw_only_fresh s arch file (Tweak.clean_arch_dirs s fs) [].
Proof.
  intros Harch p c Hpre Hp. exfalso.
  unfold Tweak.clean_arch_dirs in Hp.
  apply list_elem_of_split in Harch as (a1 & a2 & Ha).
  rewrite Ha, fold_left_app in Hp. cbn [fold_left] in Hp.
  apply (fold_left_no_new _ a2) in Hp.
  - apply makedirs_no_new in Hp. unfold rmtree in Hp.
    rewrite (tw_stem_under s arch file p Hpre) in Hp.
    by rewrite orb_true_r in Hp.
  - intros fs' a. eapply no_new_files_trans; [apply rmtree_no_new|].
    apply makedirs_no_new.
Qed.

Section TweakBuild.
Context (u : Utils) (tc : Toolchain) (s : Tweak.Self) (rootless : bool)
        (install_dir : option string) (bundles executables : option (list string))
        (files : list SourceEntry).

Lemma tw_start_inv (fs0 : FS) : tw_build_inv s files (Tweak.start s files fs0).
Proof.
  unfold tw_build_inv, Tweak.start; cbn.
  split; [by rewrite length_replicate|]. split; [done|].
  split; [by intros H%elem_of_nil|]. split.
  - intros _ file arch Ha. by apply tw_clean_arch_dirs_clears.
  - by intros file arch w seen fresh H%elem_of_nil.
Qed.

Lemma tw_after_barrier_frame (st : Tweak.State) :
  let st' := Tweak.after_barrier u tc s rootless install_dir bundles executables
               files st in
  Tweak.tasks st' = Tweak.tasks st
  ∧ Tweak.returned st' ≠ None
  ∧ ∀ file arch w seen fresh,
      ModuleBuilder.EInvoke file arch w seen fresh ∈ Tweak.events st' →
      ModuleBuilder.EInvoke file arch w seen fresh ∈ Tweak.events st.
Proof.
  assert (Hcmd : ∀ file arch w seen fresh (cmds : list Cmd) tail,
            (∀ e, e ∈ tail → e = ModuleBuilder.EStage) →
            ModuleBuilder.EInvoke file arch w seen fresh
            ∈ (Tweak.events st
               ++ [ModuleBuilder.ELinker] ++ map ModuleBuilder.ECmd cmds) ++ tail →
            ModuleBuilder.EInvoke file arch w seen fresh ∈ Tweak.events st).
  { intros file arch w seen fresh cmds tail Htail
      [[H|[H|H]%elem_of_app]%elem_of_app|H]%elem_of_app; [done| | |].
    - apply list_elem_of_singleton in H. discriminate H.
    - apply list_elem_of_In, in_map_iff in H as (c & Hc & _). discriminate Hc.
    - apply Htail in H. discriminate H. }
  unfold Tweak.after_barrier.
  destruct (Tweak.first_failure _); [by cbn|].
  destruct (Tweak.linker _ _ _ _ _ _) as [cmds [e|]].
  - cbn. repeat split; try done. intros file arch w seen fresh H.
    apply (Hcmd file arch w seen fresh cmds []); [by intros e0 ?%elem_of_nil|].
    by rewrite app_nil_r.
  - destruct (Tweak.stage _ _ _ _ _ _ _) as [[warnings fs'] staged].
    cbn. repeat split; try done. intros file arch w seen fresh H.
    apply (Hcmd file arch w seen fresh cmds [ModuleBuilder.EStage]); [|done].
    by intros e0 ->%list_elem_of_singleton.
Qed.

Lemma tw_exec_inv (c : Tweak.Choice) (st st' : Tweak.State) :
  tw_build_inv s files st →
  Tweak.exec u tc s rootless install_dir bundles executables files c st = Some st' →
  tw_build_inv s files st'.
Proof.
  intros (Hlen & Hret & Hlink & Hfresh & Hev) He.
  destruct st as [fs ts wr ev ret]. cbn in Hlen, Hret, Hlink, Hfresh, Hev.
  destruct c as [i|]; cbn [Tweak.exec] in He;
    cbn [Tweak.fs Tweak.tasks Tweak.written Tweak.events Tweak.returned] in He.
  - destruct (ts !! i) as [[|k|r]|] eqn:Hti; try done;
      (destruct (files !! i ≫= _) as [file|] eqn:Hfile; [|done]).
    + injection He as <-. unfold tw_build_inv; cbn.
      split; [by rewrite length_insert|]. split; [|done].
      intros Hr. apply Hret in Hr.
      by apply (Forall_lookup_1 _ _ _ _ Hr) in Hti.
    + assert (Hnone : ret = None).
      { destruct ret as [o|]; [|done]. exfalso.
        assert (Hd : Forall (fun x => Tweak.is_finished x = true) ts)
          by by apply Hret.
        by apply (Forall_lookup_1 _ _ _ _ Hd) in Hti. }
      subst ret.
      destruct (Tweak.archs s !! k) as [arch|] eqn:Harch.
      * assert (Hain : arch ∈ Tweak.archs s)
          by (by eapply list_elem_of_lookup_2).
        destruct (cc_output tc file arch) as [content|]; injection He as <-;
          unfold tw_build_inv; cbn.
        -- split; [by rewrite length_insert|]. split; [done|]. split.
           { intros [H|H%list_elem_of_singleton]%elem_of_app; [by apply Hlink|done]. }
           split.
           { intros _ file' arch' Ha' p c Hpre Hp. apply elem_of_app.
             apply write_outputs_lookup in Hp as [Hp|Hp]; [by right|left].
             apply rmtree_no_new in Hp.
             by apply (Hfresh eq_refl file' arch' Ha' p c). }
           intros file' arch' w seen fresh
             [H|H%list_elem_of_singleton]%elem_of_app;
             [by apply (Hev file' arch' w seen fresh)|].
           injection H as -> -> -> -> ->.
           intros p c Hpre Hp. apply rmtree_no_new in Hp.
           by apply (Hfresh eq_refl file arch Hain p c).
        -- split; [by rewrite length_insert|]. split; [done|]. split.
           { intros [H|H%list_elem_of_singleton]%elem_of_app; [by apply Hlink|done]. }
           split.
           { intros _ file' arch' Ha' p c Hpre Hp. apply rmtree_no_new in Hp.
             by apply (Hfresh eq_refl file' arch' Ha' p c). }
           intros file' arch' w seen fresh
             [H|H%list_elem_of_singleton]%elem_of_app;
             [by apply (Hev file' arch' w seen fresh)|].
           injection H as -> -> -> -> ->.
           intros p c Hpre Hp. apply rmtree_no_new in Hp.
           by apply (Hfresh eq_refl file arch Hain p c).
      * injection He as <-. unfold tw_build_inv; cbn.
        split; [by rewrite length_insert|]. done.
  - destruct ret as [o|]; [done|].
    destruct (forallb Tweak.is_finished ts) eqn:Hall; [|done].
    injection He as <-.
    destruct (tw_after_barrier_frame
                {| Tweak.fs := fs; Tweak.tasks := ts; Tweak.written := wr;
                   Tweak.events := ev; Tweak.returned := None |})
      as (Ets & Eret & Eev).
    cbn in Ets, Eret, Eev. unfold tw_build_inv. rewrite Ets.
    split; [done|]. split.
    { intros _. apply Forall_forall. intros x Hx.
      by apply (proj1 (forallb_forall _ _) Hall), list_elem_of_In. }
    split; [done|]. split; [done|].
    intros file arch w seen fresh H.
    apply (Hev file arch w seen fresh). by apply Eev.
Qed.

Lemma tw_run_inv (schedule : list Tweak.Choice) (st st' : Tweak.State) :
  tw_build_inv s files st →
  Tweak.run_schedule u tc s rootless install_dir bundles executables files
    schedule st = Some st' →
  tw_build_inv s files st'.
Proof.
  revert st. induction schedule as [|c schedule IH]; intros st Hinv; cbn.
  - by intros [= <-].
  - destruct (Tweak.exec _ _ _ _ _ _ _ _ c st) as [st1|] eqn:He; [|done].
    apply IH. by eapply tw_exec_inv.
Qed.

(** X14: the barrier of [Tweak.compile]: once [__linker] has been called,
    every task of [pool.map] has returned. *)
Lemma tweak_compile_barrier (fs0 : FS) (schedule : list Tweak.Choice)
    (st : Tweak.State) :
  Tweak.run_schedule u tc s rootless install_dir bundles executables files
    schedule (Tweak.start s files fs0) = Some st →
  ModuleBuilder.ELinker ∈ Tweak.events st →
  ∀ i, i < length files → ∃ r, Tweak.tasks st !! i = Some (Tweak.Finished r).
Proof.
  intros Hrun Hl i Hi.
  pose proof (tw_run_inv schedule _ st (tw_start_inv fs0) Hrun)
    as (Hlen & Hret & Hlink & _).
  rewrite <- Hlen in Hi. destruct (lookup_lt_is_Some_2 _ _ Hi) as [x Hx].
  pose proof (Forall_lookup_1 _ _ _ _ (Hret (Hlink Hl)) Hx) as Hd.
  destruct x as [|k|r]; try done. by exists r.
Qed.

(** Stale fragments in [Tweak.compile]: whenever the compiler is invoked
    for a file and an architecture, every file below the stem prefix was
    written in this same build. *)
Lemma tweak_stale_fragments_cleared (fs0 : FS) (schedule : list Tweak.Choice)
    (st : Tweak.State) :
  Tweak.run_schedule u tc s rootless install_dir bundles executables files
    schedule (Tweak.start s files fs0) = Some st →
  ∀ file arch with_peers seen fresh,
    ModuleBuilder.EInvoke file arch with_peers seen fresh ∈ Tweak.events st →
    ∀ p c, String.prefix (Tweak.stem_prefix s arch file) p = true →
           seen p = Some (File c) → p ∈ fresh.
Proof.
  intros Hrun file arch w seen fresh Hev p c Hpre Hp.
  pose proof (tw_run_inv schedule _ st (tw_start_inv fs0) Hrun)
    as (_ & _ & _ & _ & Hinv).
  by apply (Hinv file arch w seen fresh Hev p c).
Qed.

End TweakBuild.

(** * Further properties of the code *)

(** ** The hashing phase *)

(** X1: the dict of new hashes that [__hash_files] hands to
    [update_hashlist] holds the current hash of every processed path and
    nothing else, in the builder and in the tweak module. *)
Theorem hash_loop_new_hashes (u : Utils) (l : list string) (f : string) :
  (∀ s : ModuleBuilder.Self,
     (ModuleBuilder.hash_loop u s l).2 !! f
     = if decide (f ∈ l) then Some (get_hash u f) else None)
  ∧ (∀ s : Tweak.Self,
       (Tweak.hash_loop u s l).2 !! f
       = if decide (f ∈ l) then Some (get_hash u f) else None).
Proof.
  split; intros s; [rewrite mb_hash_loop_eq|rewrite tw_hash_loop_eq]; cbn [snd];
    (destruct (decide (f ∈ l)) as [Hin|Hin];
     [by apply record_hashes_lookup|by rewrite record_hashes_other]).
Qed.

Lemma mb_verdict_false (u : Utils) (s : ModuleBuilder.Self) (f : string) :
  mb_verdict u s f = false ↔ mb_unchanged u s f.
Proof.
  unfold mb_verdict, mb_unchanged.
  destruct (ModuleBuilder.hashlist s !! f) as [h|]; [|by split; [|intros [? _]]].
  destruct (String.eqb_spec h (get_hash u f)) as [->|Hne].
  - rewrite orb_false_iff, !Nat.ltb_ge. split; [by intros [? ?]|].
    by intros (_ & ? & ?).
  - split; [done|]. intros ([= ->] & _). by destruct Hne.
Qed.

(** The list the policy leaves is empty exactly when the module has no
    file, or the policy is enabled and the change detection leaves every
    file alone; a list that is not empty is the full list. *)
Lemma mb_files_list_chosen (u : Utils) (s : ModuleBuilder.Self)
    (files_to_compile : list string) :
  let chosen := ModuleBuilder.files_list s
                  (ModuleBuilder.hash_loop u s files_to_compile).1
                  files_to_compile in
  (chosen = [] ↔
   files_to_compile = []
   ∨ (ModuleBuilder.only_compile_changed s = true
      ∧ ∀ f, f ∈ files_to_compile → mb_unchanged u s f))
  ∧ (chosen ≠ [] → chosen = files_to_compile).
Proof.
  cbn zeta. rewrite mb_hash_loop_eq; cbn [fst]. unfold ModuleBuilder.files_list.
  assert (Hfilter : List.filter (mb_verdict u s) files_to_compile = [] ↔
                    ∀ f, f ∈ files_to_compile → mb_unchanged u s f).
  { induction files_to_compile as [|g l IH]; cbn.
    - split; [|done]. by intros _ f ?%elem_of_nil.
    - destruct (mb_verdict u s g) eqn:Hg.
      + split; [done|]. intros H.
        specialize (H g (list_elem_of_here _ _)).
        apply mb_verdict_false in H. by rewrite H in Hg.
      + rewrite IH. split.
        * intros H f [->|Hf]%elem_of_cons; [by apply mb_verdict_false|by apply H].
        * intros H f Hf. apply H. by apply elem_of_cons; right. }
  destruct (ModuleBuilder.only_compile_changed s).
  - destruct (List.filter (mb_verdict u s) files_to_compile) as [|c cs] eqn:Hc;
      cbn [length Nat.eqb].
    + split; [|done]. split; [|done]. intros _.
      destruct files_to_compile; [by left|right]. split; [done|].
      by apply Hfilter.
    + split; [|done]. split.
      * intros ->. by left.
      * intros [->|[_ H]]; [done|]. by apply Hfilter in H.
  - destruct files_to_compile as [|g l]; cbn [length Nat.eqb].
    + split; [|done]. split; [by left|done].
    + split; [|done]. split; [done|]. by intros [?|[? _]].
Qed.

(** X2: how [ModuleBuilder.__hash_files] ends. It returns the empty list
    exactly when the module has no file, or the policy is enabled and
    every file has its recorded hash and enough matches of both patterns.
    In every other case it hands all the files of the module to the
    preprocessor and returns what that gives, unless the pool of the
    compile tasks would have no worker (no architecture, or no file back
    from the preprocessor): then it raises. *)
Theorem nothing_to_compile_iff (u : Utils) (s : ModuleBuilder.Self)
    (files : list string) :
  let files_to_compile := map (ModuleBuilder.format_file u s) files in
  let out := (ModuleBuilder.hash_files u s files).2 in
  let nothing :=
    files_to_compile = []
    ∨ (ModuleBuilder.only_compile_changed s = true
       ∧ ∀ f, f ∈ files_to_compile → mb_unchanged u s f) in
  (out = Returned [] ↔ nothing)
  ∧ (¬ nothing →
     out = if length (logos u files_to_compile)
               * length (ModuleBuilder.archs s) =? 0
           then Raised ModuleBuilder.pool_error
           else Returned (logos u files_to_compile)).
Proof.
  cbn zeta.
  pose proof (mb_files_list_chosen u s (map (ModuleBuilder.format_file u s) files))
    as [Hiff Hfull]. cbn zeta in Hiff, Hfull.
  unfold ModuleBuilder.hash_files.
  destruct (ModuleBuilder.hash_loop u s _) as [changed new_hashes].
  cbn [fst] in Hiff, Hfull.
  destruct (ModuleBuilder.files_list s changed _) as [|x l] eqn:Hfl; cbn [snd].
  - split; [split; [intros _; by apply Hiff|done]|].
    intros Hn. exfalso. by apply Hn, Hiff.
  - rewrite (Hfull ltac:(done)).
    destruct (_ * _ =? 0) eqn:Hz; cbn [snd].
    + split; [|done]. split; [done|]. intros Hn. by apply Hiff in Hn.
    + split; [|done]. split.
      * intros [= Hlog]. rewrite Hlog in Hz. done.
      * intros Hn. by apply Hiff in Hn.
Qed.

(** ** The link stage, tool by tool *)

Lemma stopped_at_failure_snoc (run : Cmd → bool) (before : list Cmd) (c : Cmd) :
  forallb run before = true → run c = false →
  stopped_at_failure run (before ++ [c]).
Proof. intros Hb Hc. by exists before, c. Qed.

Lemma forallb_snoc (run : Cmd → bool) (l : list Cmd) (c : Cmd) :
  forallb run (l ++ [c]) = forallb run l && run c.
Proof. rewrite forallb_app. cbn. by rewrite andb_true_r. Qed.

Lemma mb_link_archs_cases (u : Utils) (run : Cmd → bool) (s : ModuleBuilder.Self)
    (l : list string) :
  let cmds :=
    map (fun arch =>
           CLink arch
             (resolve_glob u (ModuleBuilder.obj_dir s +:+ "/" +:+ arch +:+ "/*.o"))
             (ModuleBuilder.obj_dir s +:+ "/" +:+ arch +:+ "/"
              +:+ ModuleBuilder.install_name s)) l in
  (ModuleBuilder.link_archs u run s l = (cmds, None) ∧ forallb run cmds = true)
  ∨ (∃ before c after e,
       cmds = before ++ c :: after ∧ forallb run before = true ∧ run c = false
       ∧ ModuleBuilder.link_archs u run s l = (before ++ [c], Some e)).
Proof.
  induction l as [|a l IH]; cbn zeta; [by left|].
  cbn [map ModuleBuilder.link_archs].
  destruct (run (CLink a _ _)) eqn:Ha.
  - destruct IH as [[-> Hall]|(before & c & after & e & Hc & Hb & Hr & ->)].
    + left. split; [done|]. cbn. by rewrite Ha.
    + right. exists (CLink a
                       (resolve_glob u (ModuleBuilder.obj_dir s +:+ "/" +:+ a +:+ "/*.o"))
                       (ModuleBuilder.obj_dir s +:+ "/" +:+ a +:+ "/"
                        +:+ ModuleBuilder.install_name s) :: before), c, after, e.
      cbn zeta in Hc. rewrite Hc. repeat split; try done. cbn. by rewrite Ha.
  - right. eexists [], _, _, _. by repeat split.
Qed.

Lemma tw_link_archs_cases (u : Utils) (run : Cmd → bool) (s : Tweak.Self)
    (l : list string) :
  let cmds :=
    map (fun arch =>
           CLink arch
             (resolve_glob u (Tweak.dir s +:+ "/obj/" +:+ Tweak.name s +:+ "/"
                              +:+ arch +:+ "/*.o"))
             (Tweak.dir s +:+ "/obj/" +:+ Tweak.name s +:+ "/" +:+ arch +:+ "/"
              +:+ Tweak.name s +:+ ".dylib")) l in
  (Tweak.link_archs u run s l = (cmds, None) ∧ forallb run cmds = true)
  ∨ (∃ before c after e,
       cmds = before ++ c :: after ∧ forallb run before = true ∧ run c = false
       ∧ Tweak.link_archs u run s l = (before ++ [c], Some e)).
Proof.
  induction l as [|a l IH]; cbn zeta; [by left|].
  cbn [map Tweak.link_archs].
  destruct (run (CLink a _ _)) eqn:Ha.
  - destruct IH as [[-> Hall]|(before & c & after & e & Hc & Hb & Hr & ->)].
    + left. split; [done|]. cbn. by rewrite Ha.
    + right. exists (CLink a
                       (resolve_glob u (Tweak.dir s +:+ "/obj/" +:+ Tweak.name s
                                        +:+ "/" +:+ a +:+ "/*.o"))
                       (Tweak.dir s +:+ "/obj/" +:+ Tweak.name s +:+ "/" +:+ a
                        +:+ "/" +:+ Tweak.name s +:+ ".dylib") :: before),
        c, after, e.
      cbn zeta in Hc. rewrite Hc. repeat split; try done. cbn. by rewrite Ha.
  - right. eexists [], _, _, _. by repeat split.
Qed.

(** X4: the builder's [__linker], when it does not skip. The tools are
    invoked in the fixed order links, [lipo], [strip] (executables in
    release mode only), [ldid]; the run stops at the first tool that fails
    and reports an error, so no later tool is invoked; it reports nothing
    exactly when every tool of the sequence succeeded. *)
Theorem linker_stops_at_first_failure (u : Utils) (run : Cmd → bool) (fs : FS)
    (s : ModuleBuilder.Self) (files : list SourceEntry)
    (ct : ModuleBuilder.CompileType) :
  (length files =? 0) && path_exists fs (ModuleBuilder.out_name u s ct) = false →
  let out := ModuleBuilder.linker u run fs s files ct in
  (∃ rest, mb_full_trace u s ct = out.1 ++ rest)
  ∧ (out.2 = None ↔ forallb run (mb_full_trace u s ct) = true)
  ∧ (out.2 = None → out.1 = mb_full_trace u s ct)
  ∧ (out.2 ≠ None → stopped_at_failure run out.1).
Proof.
  intros Hno. cbn zeta. unfold ModuleBuilder.linker. rewrite Hno.
  unfold mb_full_trace, mb_lipo_cmd.
  destruct (mb_link_archs_cases u run s (ModuleBuilder.archs s))
    as [[-> Hall]|(before & c & after & e & Hc & Hb & Hr & ->)];
    fold (mb_link_cmds u s) in *.
  - set (lipo := CLipo _ _). set (o := ModuleBuilder.out_name u s ct).
    set (strip_step := match ct with
                       | ModuleBuilder.Executable => ModuleBuilder.release s
                       | ModuleBuilder.Dylib => false
                       end).
    assert (Hstrip : match ct with
                     | ModuleBuilder.Executable =>
                         if ModuleBuilder.release s then [CStrip o] else []
                     | ModuleBuilder.Dylib => []
                     end = if strip_step then [CStrip o] else []).
    { unfold strip_step. by destruct ct. }
    rewrite Hstrip. clearbody strip_step lipo o. clear Hstrip.
    rewrite !forallb_app, Hall. cbn [forallb].
    destruct (run lipo) eqn:Hl; [destruct strip_step;
      [destruct (run (CStrip o)) eqn:Hs|]; try destruct (run (CLdid o)) eqn:Hd|];
      cbn [negb andb fst snd forallb]; rewrite ?Hs; cbn [andb];
      (split; [eexists; rewrite <- ?app_assoc; cbn [app]; reflexivity|]);
      (split; [by split|]);
      (split; [first [done | intros _; by rewrite <- ?app_assoc]|]);
      first [ done
            | intros _; apply stopped_at_failure_snoc; [|done];
              by rewrite ?forallb_snoc, Hall, ?Hl, ?Hs ].
  - cbn [fst snd]. rewrite Hc.
    split; [eexists; rewrite <- ?app_assoc; cbn [app]; reflexivity|].
    split.
    { rewrite !forallb_app. cbn [forallb]. rewrite Hr.
      rewrite andb_false_r. by split. }
    split; [done|]. intros _. by apply stopped_at_failure_snoc.
Qed.

(** The demo module relinked from scratch with tools that all succeed:
    the whole sequence runs. *)
Lemma linker_stops_at_first_failure_witness :
  (length demo_files =? 0)
  && path_exists empty_fs
       (ModuleBuilder.out_name (demo_utils [] [] []) (demo_builder true)
          ModuleBuilder.Dylib) = false
  ∧ (ModuleBuilder.linker (demo_utils [] [] []) (run demo_tools) empty_fs
       (demo_builder true) demo_files ModuleBuilder.Dylib).1
    = mb_full_trace (demo_utils [] [] []) (demo_builder true) ModuleBuilder.Dylib.
Proof.
  split; [reflexivity|].
  exact (proj1 (proj2 (proj2 (linker_stops_at_first_failure (demo_utils [] [] [])
                                (run demo_tools) empty_fs (demo_builder true)
                                demo_files ModuleBuilder.Dylib eq_refl)))
           eq_refl).
Defined.

(** X5: [Tweak.__linker], when it does not skip: links, [lipo], the
    run-path patch for the root in use, [ldid], in that order; it stops at
    the first tool that fails, and reports nothing exactly when all of
    them succeeded. *)
Theorem tweak_linker_stops_at_first_failure (u : Utils) (run : Cmd → bool)
    (fs : FS) (s : Tweak.Self) (rootless : bool) (files : list SourceEntry) :
  (length files =? 0)
  && path_exists fs (resolve_path u (Tweak.dylib_path s)) = false →
  let out := Tweak.linker u run fs s rootless files in
  (∃ rest, tw_full_trace u s rootless = out.1 ++ rest)
  ∧ (out.2 = None ↔ forallb run (tw_full_trace u s rootless) = true)
  ∧ (out.2 = None → out.1 = tw_full_trace u s rootless)
  ∧ (out.2 ≠ None → stopped_at_failure run out.1).
Proof.
  intros Hno. cbn zeta. unfold Tweak.linker. rewrite Hno.
  unfold tw_full_trace.
  destruct (tw_link_archs_cases u run s (Tweak.archs s))
    as [[-> Hall]|(before & c & after & e & Hc & Hb & Hr & ->)];
    fold (tw_link_cmds u s) in *.
  - set (lipo := CLipo _ _). set (rp := CAddRpath _ _).
    set (ld := CLdid _). clearbody lipo rp ld.
    rewrite !forallb_app, Hall. cbn [forallb].
    destruct (run lipo) eqn:Hl;
      [destruct (run rp) eqn:Hp; [destruct (run ld) eqn:Hd|]|];
      cbn [negb andb fst snd];
      (split; [eexists; rewrite <- ?app_assoc; cbn [app]; reflexivity|]);
      (split; [by split|]);
      (split; [done|]);
      first [ done | intros _ ].
    + change [lipo; rp; ld] with ([lipo; rp] ++ [ld]). rewrite app_assoc.
      apply stopped_at_failure_snoc; [|done].
      rewrite forallb_app, Hall. cbn. by rewrite Hl, Hp.
    + change [lipo; rp] with ([lipo] ++ [rp]). rewrite app_assoc.
      apply stopped_at_failure_snoc; [|done].
      rewrite forallb_app, Hall. cbn. by rewrite Hl.
    + by apply stopped_at_failure_snoc.
  - cbn [fst snd]. rewrite Hc.
    split; [eexists; rewrite <- ?app_assoc; cbn [app]; reflexivity|].
    split.
    { rewrite !forallb_app. cbn [forallb]. rewrite Hr.
      rewrite andb_false_r. by split. }
    split; [done|]. intros _. by apply stopped_at_failure_snoc.
Qed.

(** The demo tweak relinked with a linker that fails: the link for
    [arm64] is the only tool invoked. *)
Lemma tweak_linker_stops_at_first_failure_witness :
  (length demo_files =? 0)
  && path_exists empty_fs
       (resolve_path (demo_utils [] [] []) (Tweak.dylib_path (demo_tweak true)))
  = false
  ∧ stopped_at_failure (fun _ => false)
      (Tweak.linker (demo_utils [] [] []) (fun _ => false) empty_fs
         (demo_tweak true) false demo_files).1.
Proof.
  split; [reflexivity|].
  apply (proj2 (proj2 (proj2 (tweak_linker_stops_at_first_failure
                                (demo_utils [] [] []) (fun _ => false) empty_fs
                                (demo_tweak true) false demo_files eq_refl)))).
  intros H. discriminate H.
Defined.

(** ** Skipping the link *)

(** The link stage when it does not skip, for the builder and for the
    tweak module: the tools run in their order up to the first that
    fails. *)
Lemma mb_linker_trace (u : Utils) (run : Cmd → bool) (fs : FS)
    (s : ModuleBuilder.Self) (files : list SourceEntry)
    (ct : ModuleBuilder.CompileType) :
  (length files =? 0) && path_exists fs (ModuleBuilder.out_name u s ct) = false →
  let out := ModuleBuilder.linker u run fs s files ct in
  (∃ rest, mb_full_trace u s ct = out.1 ++ rest)
  ∧ (out.2 = None ↔ forallb run (mb_full_trace u s ct) = true)
  ∧ (out.2 = None → out.1 = mb_full_trace u s ct)
  ∧ (out.2 ≠ None → stopped_at_failure run out.1).
Proof.
  intros Hno. cbn zeta. unfold ModuleBuilder.linker. rewrite Hno.
  unfold mb_full_trace, mb_lipo_cmd.
  destruct (mb_link_archs_cases u run s (ModuleBuilder.archs s))
    as [[-> Hall]|(before & c & after & e & Hc & Hb & Hr & ->)];
    fold (mb_link_cmds u s) in *.
  - set (lipo := CLipo _ _). set (o := ModuleBuilder.out_name u s ct).
    set (strip_step := match ct with
                       | ModuleBuilder.Executable => ModuleBuilder.release s
                       | ModuleBuilder.Dylib => false
                       end).
    assert (Hstrip : match ct with
                     | ModuleBuilder.Executable =>
                         if ModuleBuilder.release s then [CStrip o] else []
                     | ModuleBuilder.Dylib => []
                     end = if strip_step then [CStrip o] else []).
    { unfold strip_step. by destruct ct. }
    rewrite Hstrip. clearbody strip_step lipo o. clear Hstrip.
    rewrite !forallb_app, Hall. cbn [forallb].
    destruct (run lipo) eqn:Hl; [destruct strip_step;
      [destruct (run (CStrip o)) eqn:Hs|]; try destruct (run (CLdid o)) eqn:Hd|];
      cbn [negb andb fst snd forallb]; rewrite ?Hs; cbn [andb];
      (split; [eexists; rewrite <- ?app_assoc; cbn [app]; reflexivity|]);
      (split; [by split|]);
      (split; [first [done | intros _; by rewrite <- ?app_assoc]|]);
      first [ done
            | intros _; apply stopped_at_failure_snoc; [|done];
              by rewrite ?forallb_snoc, Hall, ?Hl, ?Hs ].
  - cbn [fst snd]. rewrite Hc.
    split; [eexists; rewrite <- ?app_assoc; cbn [app]; reflexivity|].
    split.
    { rewrite !forallb_app. cbn [forallb]. rewrite Hr.
      rewrite andb_false_r. by split. }
    split; [done|]. intros _. by apply stopped_at_failure_snoc.
Qed.

Lemma tw_linker_trace (u : Utils) (run : Cmd → bool)
    (fs : FS) (s : Tweak.Self) (rootless : bool) (files : list SourceEntry) :
  (length files =? 0)
  && path_exists fs (resolve_path u (Tweak.dylib_path s)) = false →
  let out := Tweak.linker u run fs s rootless files in
  (∃ rest, tw_full_trace u s rootless = out.1 ++ rest)
  ∧ (out.2 = None ↔ forallb run (tw_full_trace u s rootless) = true)
  ∧ (out.2 = None → out.1 = tw_full_trace u s rootless)
  ∧ (out.2 ≠ None → stopped_at_failure run out.1).
Proof.
  intros Hno. cbn zeta. unfold Tweak.linker. rewrite Hno.
  unfold tw_full_trace.
  destruct (tw_link_archs_cases u run s (Tweak.archs s))
    as [[-> Hall]|(before & c & after & e & Hc & Hb & Hr & ->)];
    fold (tw_link_cmds u s) in *.
  - set (lipo := CLipo _ _). set (rp := CAddRpath _ _).
    set (ld := CLdid _). clearbody lipo rp ld.
    rewrite !forallb_app, Hall. cbn [forallb].
    destruct (run lipo) eqn:Hl;
      [destruct (run rp) eqn:Hp; [destruct (run ld) eqn:Hd|]|];
      cbn [negb andb fst snd];
      (split; [eexists; rewrite <- ?app_assoc; cbn [app]; reflexivity|]);
      (split; [by split|]);
      (split; [done|]);
      first [ done | intros _ ].
    + change [lipo; rp; ld] with ([lipo; rp] ++ [ld]). rewrite app_assoc.
      apply stopped_at_failure_snoc; [|done].
      rewrite forallb_app, Hall. cbn. by rewrite Hl, Hp.
    + change [lipo; rp] with ([lipo] ++ [rp]). rewrite app_assoc.
      apply stopped_at_failure_snoc; [|done].
      rewrite forallb_app, Hall. cbn. by rewrite Hl.
    + by apply stopped_at_failure_snoc.
  - cbn [fst snd]. rewrite Hc.
    split; [eexists; rewrite <- ?app_assoc; cbn [app]; reflexivity|].
    split.
    { rewrite !forallb_app. cbn [forallb]. rewrite Hr.
      rewrite andb_false_r. by split. }
    split; [done|]. intros _. by apply stopped_at_failure_snoc.
Qed.

Lemma stopped_not_nil (run : Cmd → bool) (trace : list Cmd) :
  stopped_at_failure run trace → trace ≠ [].
Proof. intros (before & c & -> & _) H. by apply app_eq_nil in H as [_ ?]. Qed.

(** C6: [__linker] of the builder and of the tweak module, with no file
    to compile. With the linked artifact on disk, no tool is invoked and
    nothing is reported. With the artifact absent the link runs as for a
    module that was compiled: the links of the architectures, [lipo] and
    the tools after it are invoked in their order, up to the first that
    fails; nothing is reported exactly when all of them succeed, and then
    all of them have run. *)
Theorem linker_short_circuit (u : Utils) (run : Cmd → bool) (fs : FS) :
  (∀ (s : ModuleBuilder.Self) (ct : ModuleBuilder.CompileType),
     (path_exists fs (ModuleBuilder.out_name u s ct) = true →
      ModuleBuilder.linker u run fs s [] ct = ([], None))
     ∧ (path_exists fs (ModuleBuilder.out_name u s ct) = false →
        let out := ModuleBuilder.linker u run fs s [] ct in
        out.1 ≠ []
        ∧ (∃ rest, mb_full_trace u s ct = out.1 ++ rest)
        ∧ (out.2 = None ↔ forallb run (mb_full_trace u s ct) = true)
        ∧ (out.2 = None → out.1 = mb_full_trace u s ct)
        ∧ (out.2 ≠ None → stopped_at_failure run out.1)))
  ∧ (∀ (s : Tweak.Self) (rootless : bool),
       (path_exists fs (resolve_path u (Tweak.dylib_path s)) = true →
        Tweak.linker u run fs s rootless [] = ([], None))
       ∧ (path_exists fs (resolve_path u (Tweak.dylib_path s)) = false →
          let out := Tweak.linker u run fs s rootless [] in
          out.1 ≠ []
          ∧ (∃ rest, tw_full_trace u s rootless = out.1 ++ rest)
          ∧ (out.2 = None ↔ forallb run (tw_full_trace u s rootless) = true)
          ∧ (out.2 = None → out.1 = tw_full_trace u s rootless)
          ∧ (out.2 ≠ None → stopped_at_failure run out.1))).
Proof.
  split; [intros s ct|intros s rootless]; (split; intros Hex).
  - unfold ModuleBuilder.linker. by rewrite Hex.
  - cbn zeta.
    destruct (mb_linker_trace u run fs s [] ct) as (Hpre & Hiff & Hall & Hstop);
      [by rewrite Hex|].
    cbn zeta in Hpre, Hiff, Hall, Hstop.
    split; [|done].
    destruct (ModuleBuilder.linker u run fs s [] ct) as [trace [e|]];
      cbn [fst snd] in *.
    + by apply (stopped_not_nil run), Hstop.
    + rewrite (Hall eq_refl). unfold mb_full_trace.
      intros H. apply app_eq_nil in H as [_ H].
      apply app_eq_nil in H as [H _]. discriminate H.
  - unfold Tweak.linker. by rewrite Hex.
  - cbn zeta.
    destruct (tw_linker_trace u run fs s rootless []) as (Hpre & Hiff & Hall & Hstop);
      [by rewrite Hex|].
    cbn zeta in Hpre, Hiff, Hall, Hstop.
    split; [|done].
    destruct (Tweak.linker u run fs s rootless []) as [trace [e|]];
      cbn [fst snd] in *.
    + by apply (stopped_not_nil run), Hstop.
    + rewrite (Hall eq_refl). unfold tw_full_trace.
      intros H. apply app_eq_nil in H as [_ H]. discriminate H.
Qed.

(** The demo module with nothing to compile: linked artifact present, no
    tool runs; artifact deleted, the architecture is linked again and the
    binary is put together and signed. *)
Lemma linker_short_circuit_witness :
  let u := demo_utils [] [] [] in
  (path_exists demo_linked_fs
     (ModuleBuilder.out_name u (demo_builder true) ModuleBuilder.Dylib) = true
   ∧ ModuleBuilder.linker u (run demo_tools) demo_linked_fs (demo_builder true)
       [] ModuleBuilder.Dylib = ([], None))
  ∧ (path_exists empty_fs
       (ModuleBuilder.out_name u (demo_builder true) ModuleBuilder.Dylib) = false
     ∧ (ModuleBuilder.linker u (run demo_tools) empty_fs (demo_builder true)
          [] ModuleBuilder.Dylib).1
       = [CLink "arm64" [] "/p/.luz/obj/demo/arm64/demo.dylib";
          CLipo ["/p/.luz/obj/demo/arm64/demo.dylib"]
                "/p/.luz/dylib/demo/demo.dylib";
          CLdid "/p/.luz/dylib/demo/demo.dylib"]).
Proof.
  intros u. split.
  - split; [reflexivity|].
    apply (linker_short_circuit u (run demo_tools) demo_linked_fs).
    reflexivity.
  - split; [reflexivity|].
    destruct (proj2 (proj1 (linker_short_circuit u (run demo_tools) empty_fs)
                       (demo_builder true) ModuleBuilder.Dylib) eq_refl)
      as (_ & _ & _ & Hall & _).
    exact (eq_trans (Hall eq_refl) eq_refl).
Defined.



(** ** Results of the compile stage *)

Section BuildResults.
Context (u : Utils) (tc : Toolchain) (s : ModuleBuilder.Self)
        (files : list SourceEntry) (compile_type : ModuleBuilder.CompileType)
        (stage_step : FS → FS * Outcome (option string)).

Lemma get_arch_insert_row (i i' j : nat) (row' : list ModuleBuilder.Status)
    (tasks : list (list ModuleBuilder.Status)) (x : ModuleBuilder.Status) :
  ModuleBuilder.get_arch i j (<[i' := row']> tasks) = Some x →
  (i = i' ∧ row' !! j = Some x)
  ∨ (i ≠ i' ∧ ModuleBuilder.get_arch i j tasks = Some x).
Proof.
  destruct (decide (i = i')) as [->|Hne].
  - intros (row & Hrow & Hj)%get_arch_Some. left. split; [done|].
    assert (Hlt : i' < length tasks).
    { apply lookup_lt_Some in Hrow. by rewrite length_insert in Hrow. }
    rewrite list_lookup_insert_eq in Hrow by done. by injection Hrow as <-.
  - rewrite get_arch_insert_ne by done. by right.
Qed.

Lemma get_arch_set_arch (i i' j j' : nat) (x y : ModuleBuilder.Status)
    (tasks : list (list ModuleBuilder.Status)) :
  ModuleBuilder.get_arch i j (ModuleBuilder.set_arch i' j' y tasks) = Some x →
  (i = i' ∧ j = j' ∧ x = y) ∨ ModuleBuilder.get_arch i j tasks = Some x.
Proof.
  unfold ModuleBuilder.set_arch.
  destruct (tasks !! i') as [row'|] eqn:Hrow'; [|by right].
  intros [[-> Hj]|[_ H]]%get_arch_insert_row; [|by right].
  destruct (decide (j = j')) as [->|Hne].
  - assert (Hlt : j' < length row').
    { apply lookup_lt_Some in Hj. by rewrite length_insert in Hj. }
    rewrite list_lookup_insert_eq in Hj by done. injection Hj as <-. by left.
  - rewrite list_lookup_insert_ne in Hj by done. right.
    apply get_arch_Some. by exists row'.
Qed.

Lemma first_failure_in (l : list ModuleBuilder.Status) (e : string) :
  ModuleBuilder.first_failure l = Some e → ModuleBuilder.Done (Some e) ∈ l.
Proof.
  induction l as [|[| |[e'|]] l IH]; cbn; try done;
    try (intros H; apply elem_of_cons; right; by apply IH).
  intros [= ->]. apply list_elem_of_here.
Qed.

Lemma first_failure_None (l : list ModuleBuilder.Status) :
  ModuleBuilder.first_failure l = None ↔
  ∀ x, x ∈ l → ModuleBuilder.failed x = false.
Proof.
  induction l as [|x l IH]; cbn.
  - split; [|done]. by intros _ y ?%elem_of_nil.
  - destruct x as [| |[e|]]; cbn.
    + rewrite IH. split.
      * intros H y [->|Hy]%elem_of_cons; [done|by apply H].
      * intros H y Hy. apply H. by apply elem_of_cons; right.
    + rewrite IH. split.
      * intros H y [->|Hy]%elem_of_cons; [done|by apply H].
      * intros H y Hy. apply H. by apply elem_of_cons; right.
    + split; [done|]. intros H.
      by specialize (H _ (list_elem_of_here _ _)).
    + rewrite IH. split.
      * intros H y [->|Hy]%elem_of_cons; [done|by apply H].
      * intros H y Hy. apply H. by apply elem_of_cons; right.
Qed.

Lemma after_barrier_cases (st : ModuleBuilder.State) :
  let st' := ModuleBuilder.after_barrier u tc s files compile_type stage_step st in
  (∃ e, ModuleBuilder.first_failure (ModuleBuilder.file_tasks st) = Some e
        ∧ ModuleBuilder.events st' = ModuleBuilder.events st
        ∧ ModuleBuilder.returned st' = Some (Returned (Some e)))
  ∨ (ModuleBuilder.first_failure (ModuleBuilder.file_tasks st) = None
     ∧ ∃ extra, ModuleBuilder.events st'
                = ModuleBuilder.events st ++ ModuleBuilder.ELinker :: extra).
Proof.
  unfold ModuleBuilder.after_barrier.
  destruct (ModuleBuilder.first_failure _) as [e|]; [left; by exists e|right].
  split; [done|].
  destruct (ModuleBuilder.linker _ _ _ _ _ _) as [cmds [e|]].
  - cbn. by eexists.
  - destruct (ModuleBuilder.pack s).
    + destruct (stage_step _) as [fs' r]. cbn. rewrite <- app_assoc. by eexists.
    + cbn. by eexists.
Qed.

Lemma start_results_inv (fs0 : FS) :
  results_inv tc s files (ModuleBuilder.start tc s files fs0).
Proof.
  unfold results_inv, ModuleBuilder.start; cbn.
  assert (Hrow : ∀ i j x,
            ModuleBuilder.get_arch i j (replicate (length files) []) = Some x →
            False).
  { intros i j x (row & Hrow & Hj)%get_arch_Some.
    apply lookup_replicate in Hrow as [-> _]. done. }
  split; [intros i j r H; by apply Hrow in H|].
  split; [by intros i r [? _]%lookup_replicate|].
  split; [by intros ?%elem_of_nil|].
  split; [done|]. split; [done|].
  intros i j x H. by apply Hrow in H.
Qed.

Lemma exec_results_inv (c : ModuleBuilder.Choice) (st st' : ModuleBuilder.State) :
  build_inv s files st → results_inv tc s files st →
  ModuleBuilder.exec u tc s files compile_type stage_step c st = Some st' →
  results_inv tc s files st'.
Proof.
  intros (Hlen & Hrows & Hret & Hlink & _) (Ha & Hf & Hl & Hr & Hn & Hi) He.
  destruct st as [fs ft at' wr ev ret].
  cbn in Hlen, Hrows, Hret, Hlink, Ha, Hf, Hl, Hr, Hn, Hi.
  assert (Hpending : ∀ i x, ft !! i = Some x → ModuleBuilder.is_done x = false →
                            ret = None).
  { intros i x Hx Hnd. destruct ret as [o|]; [|done]. exfalso.
    assert (Hd : Forall (fun x => ModuleBuilder.is_done x = true) ft) by by apply Hret.
    apply (Forall_lookup_1 _ _ _ _ Hd) in Hx. by rewrite Hx in Hnd. }
  destruct c as [i'|i' j'|i' j'|i'|]; cbn [ModuleBuilder.exec] in He;
    cbn [ModuleBuilder.fs ModuleBuilder.file_tasks ModuleBuilder.arch_tasks
         ModuleBuilder.written ModuleBuilder.events ModuleBuilder.returned] in He.
  - (* StartFile *)
    destruct (ft !! i') as [[| |r']|] eqn:Hfi; try done.
    destruct (files !! i' ≫= _) as [file|] eqn:Hfile; [|done].
    injection He as <-.
    pose proof (Hpending i' _ Hfi eq_refl) as ->.
    assert (Hlt : i' < length ft) by (by eapply lookup_lt_Some).
    unfold results_inv; cbn. repeat split.
    + intros i j r [[-> Hrep]|[_ H]]%get_arch_insert_row; [|by apply Ha].
      by apply lookup_replicate in Hrep as [? _].
    + intros i r Hd. destruct (decide (i = i')) as [->|Hne].
      * rewrite list_lookup_insert_eq in Hd by done. discriminate Hd.
      * rewrite list_lookup_insert_ne in Hd by done.
        rewrite list_lookup_insert_ne by done. by apply Hf.
    + intros H. by apply Hlink in H.
    + done.
    + done.
    + intros i j x [[-> Hrep]|[_ H]]%get_arch_insert_row Hx;
        [|by apply (Hi i j x)].
      by apply lookup_replicate in Hrep as [-> _].
  - (* StartArch *)
    destruct (files !! i' ≫= _) as [file|] eqn:Hfile; [|done].
    destruct (ModuleBuilder.archs s !! j') as [arch|] eqn:Harch; [|done].
    destruct (ModuleBuilder.get_arch i' j' at') as [[| |r']|] eqn:Hget; try done.
    injection He as <-.
    pose proof Hget as (row & Hrow & Hj)%get_arch_Some.
    destruct (Forall2_lookup_r _ _ _ _ _ Hrows Hrow) as (f & Hfi & Hok).
    pose proof (row_ok_pending s f row j' _ Hok Hj eq_refl) as ->.
    unfold results_inv; cbn. repeat split.
    + intros i j r [(_ & _ & H)|H]%get_arch_set_arch; [done|by apply Ha].
    + intros i r Hd. destruct (decide (i = i')) as [->|Hne].
      * rewrite Hfi in Hd. discriminate Hd.
      * rewrite (set_arch_row i' j' _ at' row Hrow).
        rewrite list_lookup_insert_ne by done. by apply Hf.
    + intros [H|H%list_elem_of_singleton]%elem_of_app; [by apply Hl|done].
    + done.
    + intros H. apply elem_of_app. left. by apply Hn.
    + intros i j x [(-> & -> & ->)|H]%get_arch_set_arch Hx.
      * exists file, arch. eexists _, _, _. split; [done|]. split; [done|].
        apply elem_of_app. right. apply list_elem_of_here.
      * destruct (Hi i j x H Hx) as (f0 & a0 & w & seen & fresh & ? & ? & ?).
        exists f0, a0, w, seen, fresh. split; [done|]. split; [done|].
        apply elem_of_app. by left.
  - (* EndArch *)
    destruct (files !! i' ≫= _) as [file|] eqn:Hfile; [|done].
    destruct (ModuleBuilder.archs s !! j') as [arch|] eqn:Harch; [|done].
    destruct (ModuleBuilder.get_arch i' j' at') as [[| |r']|] eqn:Hget; try done.
    pose proof Hget as (row & Hrow & Hj)%get_arch_Some.
    destruct (Forall2_lookup_r _ _ _ _ _ Hrows Hrow) as (f & Hfi & Hok).
    pose proof (row_ok_pending s f row j' _ Hok Hj eq_refl) as ->.
    assert (Hres : results_inv tc s files
              {| ModuleBuilder.fs := fs; ModuleBuilder.file_tasks := ft;
                 ModuleBuilder.arch_tasks :=
                   ModuleBuilder.set_arch i' j'
                     (ModuleBuilder.Done (if cc_ok tc file arch then None
                                          else Some (ModuleBuilder.arch_error s file)))
                     at';
                 ModuleBuilder.written := wr; ModuleBuilder.events := ev;
                 ModuleBuilder.returned := ret |}).
    { unfold results_inv; cbn. repeat split.
      + intros i j r [(-> & -> & [= ->])|H]%get_arch_set_arch; [|by apply Ha].
        by exists file, arch.
      + intros i r Hd. destruct (decide (i = i')) as [->|Hne].
        * rewrite Hfi in Hd. discriminate Hd.
        * rewrite (set_arch_row i' j' _ at' row Hrow).
          rewrite list_lookup_insert_ne by done. by apply Hf.
      + done.
      + done.
      + done.
      + intros i j x [(-> & -> & ->)|H]%get_arch_set_arch Hx;
          [|by apply (Hi i j x)].
        by apply (Hi i' j' ModuleBuilder.Running). }
    destruct (cc_output tc file arch); injection He as <-; exact Hres.
  - (* EndFile *)
    destruct (ft !! i') as [[| |r']|] eqn:Hfi; try done.
    destruct (at' !! i') as [row|] eqn:Hrow; [|done].
    destruct (forallb ModuleBuilder.is_done row) eqn:Hall; [|done].
    injection He as <-.
    pose proof (Hpending i' _ Hfi eq_refl) as ->.
    assert (Hlt : i' < length ft) by (by eapply lookup_lt_Some).
    unfold results_inv; cbn. repeat split.
    + done.
    + intros i r Hd. destruct (decide (i = i')) as [->|Hne].
      * rewrite list_lookup_insert_eq in Hd by done. injection Hd as <-.
        by exists row.
      * rewrite list_lookup_insert_ne in Hd by done. by apply Hf.
    + intros H. by apply Hlink in H.
    + done.
    + done.
    + done.
  - (* PassBarrier *)
    destruct ret as [o|]; [done|].
    destruct (forallb ModuleBuilder.is_done ft) eqn:Hall; [|done].
    injection He as <-.
    set (st0 := {| ModuleBuilder.fs := fs; ModuleBuilder.file_tasks := ft;
                   ModuleBuilder.arch_tasks := at'; ModuleBuilder.written := wr;
                   ModuleBuilder.events := ev; ModuleBuilder.returned := None |}).
    destruct (after_barrier_frame u tc s files compile_type stage_step st0)
      as (Eft & Eat & _ & _ & _).
    pose proof (after_barrier_cases st0) as Hcases.
    cbn zeta in Eft, Eat, Hcases. unfold results_inv. rewrite Eft, Eat.
    cbn [st0 ModuleBuilder.file_tasks ModuleBuilder.arch_tasks].
    cbn [st0 ModuleBuilder.file_tasks ModuleBuilder.events] in Hcases.
    destruct Hcases as [(e & Hfail & Eev & Eret)|(Hok & extra & Eev)];
      rewrite Eev.
    + split; [done|]. split; [done|]. split; [done|]. split.
      { intros o e' Ho He'. rewrite Eret in Ho. injection Ho as <-.
        rewrite Hfail in He'. by injection He' as <-. }
      split; [|done]. intros Ho. rewrite Eret in Ho. discriminate Ho.
    + split; [done|]. split; [done|]. split; [done|]. split.
      { intros o e' _ He'. rewrite Hok in He'. discriminate He'. }
      split; [intros _; apply elem_of_app; right; apply list_elem_of_here|].
      intros i j x H Hx.
      destruct (Hi i j x H Hx) as (f0 & a0 & w & seen & fresh & ? & ? & ?).
      exists f0, a0, w, seen, fresh. split; [done|]. split; [done|].
      apply elem_of_app. by left.
Qed.

Lemma run_results_inv (schedule : list ModuleBuilder.Choice)
    (st st' : ModuleBuilder.State) :
  build_inv s files st → results_inv tc s files st →
  ModuleBuilder.run_schedule u tc s files compile_type stage_step schedule st
  = Some st' →
  build_inv s files st' ∧ results_inv tc s files st'.
Proof.
  revert st. induction schedule as [|c schedule IH]; intros st Hinv Hres; cbn.
  - by intros [= <-].
  - destruct (ModuleBuilder.exec _ _ _ _ _ _ c st) as [st1|] eqn:He; [|done].
    apply IH; [by eapply exec_inv|by eapply exec_results_inv].
Qed.

Lemma file_at_entry (i : nat) (e : SourceEntry) :
  files !! i = Some e → file_at files i = Some (ModuleBuilder.entry_path e).
Proof.
  intros He. unfold file_at. rewrite He, handle_logos_paths. cbn.
  apply chosen_path_entry. by eapply list_elem_of_lookup_2.
Qed.

(** Once [compile] has returned, every task is done. *)
Lemma returned_all_done (st : ModuleBuilder.State) (i j : nat) :
  build_inv s files st → ModuleBuilder.returned st ≠ None →
  i < length files → j < length (ModuleBuilder.archs s) →
  ∃ r row r',
    ModuleBuilder.file_tasks st !! i = Some (ModuleBuilder.Done r)
    ∧ ModuleBuilder.arch_tasks st !! i = Some row
    ∧ row !! j = Some (ModuleBuilder.Done r').
Proof.
  intros (Hlen & Hrows & Hret & _) Hr Hi Hj.
  assert (Hdone := Hret Hr). rewrite <- Hlen in Hi.
  destruct (lookup_lt_is_Some_2 _ _ Hi) as [f Hf].
  pose proof (Forall_lookup_1 _ _ _ _ Hdone Hf) as Hfd.
  destruct f as [| |r]; try done.
  destruct (Forall2_lookup_l _ _ _ _ _ Hrows Hf) as (row & Hrow & Hn & Hall).
  rewrite <- Hn in Hj. destruct (lookup_lt_is_Some_2 _ _ Hj) as [x Hx].
  pose proof (Forall_lookup_1 _ _ _ _ Hall Hx) as Hxd.
  destruct x as [| |r']; try done. by exists r, row, r'.
Qed.

(** A compiler that fails makes its file task fail. *)
Lemma failing_task_fails_file (st : ModuleBuilder.State)
    (e : SourceEntry) (arch : string) :
  build_inv s files st → results_inv tc s files st →
  ModuleBuilder.returned st ≠ None →
  e ∈ files → arch ∈ ModuleBuilder.archs s →
  cc_ok tc (ModuleBuilder.entry_path e) arch = false →
  ModuleBuilder.Done (Some (ModuleBuilder.file_error s))
  ∈ ModuleBuilder.file_tasks st.
Proof.
  intros Hinv (Ha & Hf & _) Hr (i & He)%list_elem_of_lookup_1
    (j & Harch)%list_elem_of_lookup_1 Hcc.
  destruct (returned_all_done st i j Hinv Hr) as (r & row & r' & Hfi & Hrow & Hj).
  { by eapply lookup_lt_Some. } { by eapply lookup_lt_Some. }
  destruct (Ha i j r') as (file & arch' & Hfile & Harch' & ->).
  { apply get_arch_Some. by exists row. }
  rewrite (file_at_entry i e He) in Hfile. injection Hfile as <-.
  rewrite Harch in Harch'. injection Harch' as <-.
  unfold arch_result in Hj. rewrite Hcc in Hj.
  destruct (Hf i r Hfi) as (row' & Hrow' & ->).
  rewrite Hrow in Hrow'. injection Hrow' as <-.
  assert (Hex : existsb ModuleBuilder.failed row = true).
  { apply existsb_exists. eexists.
    split; [apply list_elem_of_In; eapply list_elem_of_lookup_2; exact Hj|].
    reflexivity. }
  rewrite Hex in Hfi. by eapply list_elem_of_lookup_2.
Qed.

End BuildResults.

(** X6: a failed compilation keeps the module from linking. Under any
    schedule, if the compiler fails for some file and architecture of the
    build, [__linker] is never called, and what [compile] returns, once it
    returns, is the compile error of the module. *)
Theorem compile_failure_prevents_link (u : Utils) (tc : Toolchain)
    (s : ModuleBuilder.Self) (files : list SourceEntry)
    (compile_type : ModuleBuilder.CompileType)
    (stage_step : FS → FS * Outcome (option string)) (fs0 : FS)
    (schedule : list ModuleBuilder.Choice) (st : ModuleBuilder.State)
    (e : SourceEntry) (arch : string) :
  ModuleBuilder.run_schedule u tc s files compile_type stage_step schedule
    (ModuleBuilder.start tc s files fs0) = Some st →
  e ∈ files → arch ∈ ModuleBuilder.archs s →
  cc_ok tc (ModuleBuilder.entry_path e) arch = false →
  (ModuleBuilder.ELinker ∉ ModuleBuilder.events st)
  ∧ (∀ o, ModuleBuilder.returned st = Some o →
          o = Returned (Some (ModuleBuilder.file_error s))).
Proof.
  intros Hrun He Harch Hcc.
  destruct (run_results_inv u tc s files compile_type stage_step schedule _ st
              (start_inv tc s files fs0) (start_results_inv tc s files fs0) Hrun)
    as [Hinv Hres].
  pose proof Hinv as (_ & _ & _ & Hlink & _).
  pose proof Hres as (_ & Hf & Hl & Hr & _).
  assert (Hfail : ModuleBuilder.returned st ≠ None →
                  ∃ e0, ModuleBuilder.first_failure (ModuleBuilder.file_tasks st)
                        = Some e0).
  { intros Hret.
    pose proof (failing_task_fails_file tc s files st e arch Hinv Hres Hret
                  He Harch Hcc) as Hd.
    destruct (ModuleBuilder.first_failure _) as [e0|] eqn:Hff; [by exists e0|].
    by apply (proj1 (first_failure_None _) Hff) in Hd. }
  split.
  - intros Hlk. destruct (Hfail (Hlink Hlk)) as [e0 He0].
    by rewrite (Hl Hlk) in He0.
  - intros o Ho.
    destruct (Hfail ltac:(by rewrite Ho)) as [e0 He0].
    rewrite (Hr o e0 Ho He0). do 2 f_equal.
    apply first_failure_in, list_elem_of_lookup_1 in He0 as [i Hi].
    destruct (Hf i _ Hi) as (row & _ & Hrow).
    revert Hrow. destruct (existsb _ _); intros Hrow; [|done].
    by injection Hrow as ->.
Qed.


(** The demo build with a compiler that rejects the second file: the
    build returns the compile error and never links. *)
Lemma compile_failure_prevents_link_witness :
  demo_failing_run demo_schedule = Some demo_failing_final
  ∧ ModuleBuilder.returned demo_failing_final
    = Some (Returned (Some (ModuleBuilder.file_error (demo_builder true))))
  ∧ (ModuleBuilder.ELinker ∉ ModuleBuilder.events demo_failing_final).
Proof.
  assert (Hrun : demo_failing_run demo_schedule = Some demo_failing_final)
    by reflexivity.
  assert (He : Plain "/p/b.m" ∈ demo_files)
    by (apply list_elem_of_In; right; left; reflexivity).
  assert (Ha : "arm64" ∈ ModuleBuilder.archs (demo_builder true))
    by (apply list_elem_of_In; left; reflexivity).
  pose proof (compile_failure_prevents_link (demo_utils [] [] [])
                demo_failing_tools (demo_builder true) demo_files
                ModuleBuilder.Dylib demo_stage demo_stale_fs demo_schedule
                demo_failing_final (Plain "/p/b.m") "arm64" Hrun He Ha
                eq_refl) as [Hl Hr].
  split; [exact Hrun|]. split; [|exact Hl].
  destruct (ModuleBuilder.returned demo_failing_final) as [o|] eqn:Ho.
  - f_equal. exact (Hr o eq_refl).
  - discriminate Ho.
Defined.


(** ** [__handle_logos]: the include directories *)

Lemma existsb_eqb_elem_of (x : string) (l : list string) :
  existsb (String.eqb x) l = true ↔ x ∈ l.
Proof.
  rewrite existsb_exists. split.
  - intros (y & Hy & ->%String.eqb_eq). by apply list_elem_of_In.
  - intros H. exists x. split; [by apply list_elem_of_In|apply String.eqb_refl].
Qed.

(** X9: [__handle_logos] keeps the include directories it is given, in
    order, and appends, each once, exactly the directories of the
    original files of the preprocessed entries that are not among them
    yet. *)
Theorem handle_logos_include_dirs (files : list SourceEntry)
    (include_dirs : list string) :
  ∃ extra,
    (ModuleBuilder.handle_logos files include_dirs).2 = include_dirs ++ extra
    ∧ NoDup extra
    ∧ ∀ d, d ∈ extra ↔
           (d ∉ include_dirs)
           ∧ ∃ new_path old_path,
               Logos new_path old_path ∈ files
               ∧ d = ModuleBuilder.dirname_text old_path.
Proof.
  unfold ModuleBuilder.handle_logos.
  set (step := fun (acc : list string * list string) (file : SourceEntry) => _).
  enough (H : ∀ acc inc,
             ∃ extra,
               (fold_left step files (acc, inc)).2 = inc ++ extra
               ∧ NoDup extra
               ∧ ∀ d, d ∈ extra ↔
                      (d ∉ inc)
                      ∧ ∃ new_path old_path,
                          Logos new_path old_path ∈ files
                          ∧ d = ModuleBuilder.dirname_text old_path)
    by apply H.
  induction files as [|[p|n o] files IH]; intros acc inc.
  - exists []. cbn. rewrite app_nil_r. split; [done|]. split; [constructor|].
    intros d. split; [by intros ?%elem_of_nil|].
    by intros (_ & n & o & ?%elem_of_nil & _).
  - destruct (IH (acc ++ [p]) inc) as (extra & Heq & Hnd & Hiff).
    exists extra. cbn [fold_left]. split; [exact Heq|]. split; [exact Hnd|].
    intros d. rewrite Hiff. split.
    + intros (Hd & n & o & Hin & ->). split; [done|]. exists n, o.
      split; [|done]. apply elem_of_cons. by right.
    + intros (Hd & n & o & [Hin|Hin]%elem_of_cons & ->); [done|].
      split; [done|]. by exists n, o.
  - cbn [fold_left].
    change (step (acc, inc) (Logos n o))
      with (acc ++ [n],
            if existsb (String.eqb (ModuleBuilder.dirname_text o)) inc
            then inc else inc ++ [ModuleBuilder.dirname_text o]).
    destruct (existsb _ inc) eqn:Hex.
    + apply existsb_eqb_elem_of in Hex.
      destruct (IH (acc ++ [n]) inc) as (extra & Heq & Hnd & Hiff).
      exists extra. split; [exact Heq|]. split; [exact Hnd|].
      intros d. rewrite Hiff. split.
      * intros (Hd & n' & o' & Hin & ->). split; [done|]. exists n', o'.
        split; [|done]. apply elem_of_cons. by right.
      * intros (Hd & n' & o' & [Hin|Hin]%elem_of_cons & ->).
        -- injection Hin as -> ->. done.
        -- split; [done|]. by exists n', o'.
    + assert (Hno : ModuleBuilder.dirname_text o ∉ inc).
      { intros Hin%existsb_eqb_elem_of. by rewrite Hin in Hex. }
      destruct (IH (acc ++ [n]) (inc ++ [ModuleBuilder.dirname_text o]))
        as (extra & Heq & Hnd & Hiff).
      exists (ModuleBuilder.dirname_text o :: extra).
      split; [by rewrite Heq, <- app_assoc|]. split.
      * apply NoDup_cons. split; [|done]. intros [Hd _]%Hiff.
        apply Hd, elem_of_app. right. apply list_elem_of_here.
      * intros d. rewrite elem_of_cons, Hiff. split.
        -- intros [->|(Hd & n' & o' & Hin & ->)].
           ++ split; [done|]. exists n, o. split; [apply list_elem_of_here|done].
           ++ split; [intros ?; apply Hd, elem_of_app; by left|].
              exists n', o'. split; [|done]. apply elem_of_cons. by right.
        -- intros (Hd & n' & o' & Hin & ->).
           destruct (decide (ModuleBuilder.dirname_text o'
                             = ModuleBuilder.dirname_text o)) as [Heq'|Hne];
             [by left|right].
           split.
           ++ intros [?|Hl%list_elem_of_singleton]%elem_of_app; done.
           ++ apply elem_of_cons in Hin as [Hin|Hin].
              ** injection Hin as -> ->. done.
              ** by exists n', o'.
Qed.

(** ** [LuzBuild.build]: the outcome over the project tree *)

Lemma Project_nested_ind (P : LuzBuild.Project → Prop) :
  (∀ path modules submodules,
      Forall P submodules → P (LuzBuild.mkProject path modules submodules)) →
  ∀ p, P p.
Proof.
  intros H. fix IH 1. intros [path modules submodules]. apply H.
  induction submodules as [|sub subs IHs]; constructor; [apply IH|exact IHs].
Qed.

Lemma first_error_Some_in (results : list (option string)) (e : string) :
  LuzBuild.first_error results = Some e → Some e ∈ results.
Proof.
  induction results as [|[x|] l IH]; cbn; [done| |].
  - intros [= ->]. apply list_elem_of_here.
  - intros H. apply elem_of_cons. right. by apply IH.
Qed.

Lemma forallb_is_built (subs : list LuzBuild.Project) :
  forallb LuzBuild.is_built (map snd (map LuzBuild.build subs)) = true ↔
  ∀ sub, sub ∈ subs → (LuzBuild.build sub).2 = LuzBuild.Built.
Proof.
  rewrite forallb_forall. split.
  - intros H sub Hsub.
    assert (Hin : In (LuzBuild.build sub).2 (map snd (map LuzBuild.build subs))).
    { apply in_map, in_map. by apply list_elem_of_In. }
    apply H in Hin. by destruct (LuzBuild.build sub).2.
  - intros H r (br & <- & (sub & <- & Hsub)%in_map_iff)%in_map_iff.
    rewrite (H sub); [done|by apply list_elem_of_In].
Qed.

Lemma build_unfold (path : string) (modules : option (list LuzBuild.ModuleObj))
    (subs : list LuzBuild.Project) :
  let own := default [] modules in
  let head := LuzBuild.EBuild path
              :: map (fun m => LuzBuild.ECompile (LuzBuild.mod_name m)) own in
  LuzBuild.build (LuzBuild.mkProject path modules subs)
  = match LuzBuild.first_error (map LuzBuild.compile_result own) with
    | Some e => (head ++ [LuzBuild.EError e], LuzBuild.Aborted e)
    | None =>
        (head ++ concat (map fst (map LuzBuild.build subs)),
         if forallb LuzBuild.is_built (map snd (map LuzBuild.build subs))
         then LuzBuild.Built else LuzBuild.NoValue)
    end.
Proof.
  cbn [LuzBuild.build]. destruct modules as [ms|]; cbn [default map].
  - destruct (LuzBuild.first_error _); [done|]. by destruct (forallb _ _).
  - cbn. by destruct (forallb _ _).
Qed.

(** X10: [build()] ends well exactly when no module of the project or of
    any project below it returns an error from [compile()]; it then has
    called [compile()] on all of them. In every other case an error has
    been reported. *)
Theorem build_succeeds_iff (p : LuzBuild.Project) :
  ((LuzBuild.build p).2 = LuzBuild.Built ↔
   ∀ m, m ∈ project_modules p → LuzBuild.compile_result m = None)
  ∧ ((LuzBuild.build p).2 = LuzBuild.Built →
     ∀ m, m ∈ project_modules p →
          LuzBuild.ECompile (LuzBuild.mod_name m) ∈ (LuzBuild.build p).1)
  ∧ ((LuzBuild.build p).2 ≠ LuzBuild.Built ↔
     ∃ e, LuzBuild.EError e ∈ (LuzBuild.build p).1).
Proof.
  induction p as [path modules subs IH] using Project_nested_ind.
  rewrite build_unfold. cbn zeta. cbn [project_modules].
  set (own := default [] modules).
  assert (Hsubs : ∀ m, m ∈ concat (map project_modules subs) ↔
                       ∃ sub, sub ∈ subs ∧ m ∈ project_modules sub).
  { intros m. rewrite list_elem_of_In, in_concat. split.
    - intros (l & (sub & <- & Hsub)%in_map_iff & Hm).
      exists sub. split; by apply list_elem_of_In.
    - intros (sub & Hsub & Hm). exists (project_modules sub).
      split; [apply in_map|]; by apply list_elem_of_In. }
  assert (Hev : ∀ ev, ev ∈ concat (map fst (map LuzBuild.build subs)) ↔
                      ∃ sub, sub ∈ subs ∧ ev ∈ (LuzBuild.build sub).1).
  { intros ev. rewrite list_elem_of_In, in_concat. split.
    - intros (l & (br & <- & (sub & <- & Hsub)%in_map_iff)%in_map_iff & Hm).
      exists sub. split; by apply list_elem_of_In.
    - intros (sub & Hsub & Hm). exists (LuzBuild.build sub).1.
      split; [apply in_map, in_map|]; by apply list_elem_of_In. }
  assert (Hhead : ∀ e, LuzBuild.EError e
                       ∉ LuzBuild.EBuild path
                         :: map (fun m => LuzBuild.ECompile (LuzBuild.mod_name m))
                                own).
  { intros e [?|Hin]%elem_of_cons; [done|].
    by apply list_elem_of_In, in_map_iff in Hin as (m & ? & _). }
  destruct (LuzBuild.first_error _) as [e|] eqn:Hfe; cbn [fst snd].
  - split; [|split].
    + split; [done|]. intros Hall.
      apply first_error_Some_in, list_elem_of_In, in_map_iff in Hfe
        as (m & Hm & Hin).
      rewrite Hall in Hm; [done|]. apply elem_of_app. left.
      by apply list_elem_of_In.
    + done.
    + split; [|done]. intros _. exists e. apply elem_of_app. right.
      apply list_elem_of_here.
  - assert (Hown : ∀ m, m ∈ own → LuzBuild.compile_result m = None).
    { intros m Hm. apply (proj1 (first_error_None _) Hfe).
      apply list_elem_of_In, in_map. by apply list_elem_of_In. }
    destruct (forallb _ _) eqn:Hfb.
    + pose proof (proj1 (forallb_is_built subs) Hfb) as Hbuilt.
      split; [|split].
      * split; [|done]. intros _ m [Hm|Hm]%elem_of_app; [by apply Hown|].
        apply Hsubs in Hm as (sub & Hsub & Hm).
        pose proof (proj1 (Forall_forall _ _) IH) as IH'.
        by apply (proj1 (proj1 (IH' sub Hsub)) (Hbuilt sub Hsub)).
      * intros _ m [Hm|Hm]%elem_of_app.
        -- apply elem_of_app. left. apply elem_of_cons. right.
           apply list_elem_of_In, in_map_iff. exists m.
           split; [done|by apply list_elem_of_In].
        -- apply Hsubs in Hm as (sub & Hsub & Hm).
           apply elem_of_app. right. apply Hev. exists sub. split; [done|].
           pose proof (proj1 (Forall_forall _ _) IH) as IH'.
           by apply (proj1 (proj2 (IH' sub Hsub)) (Hbuilt sub Hsub)).
      * split; [done|]. intros (e & [Hin|Hin]%elem_of_app); [by apply Hhead in Hin|].
        apply Hev in Hin as (sub & Hsub & Hin).
        pose proof (proj1 (Forall_forall _ _) IH) as IH'.
        exfalso. apply (proj2 (proj2 (proj2 (IH' sub Hsub)))); [by exists e|].
        by apply Hbuilt.
    + assert (∃ sub, sub ∈ subs ∧ (LuzBuild.build sub).2 ≠ LuzBuild.Built)
        as (sub & Hsub & Hnb).
      { clear -Hfb. induction subs as [|a subs IHs]; [done|]. cbn in Hfb.
        destruct (LuzBuild.build a).2 eqn:Ha; cbn in Hfb.
        - destruct (IHs Hfb) as (sub & ? & ?). exists sub.
          split; [apply elem_of_cons; by right|done].
        - exists a. split; [apply list_elem_of_here|by rewrite Ha].
        - exists a. split; [apply list_elem_of_here|by rewrite Ha]. }
      pose proof (proj1 (Forall_forall _ _) IH) as IH'.
      destruct (IH' sub Hsub) as (Hiff & _ & Herr).
      split; [|split].
      * split; [done|]. intros Hall. exfalso. apply Hnb, Hiff.
        intros m Hm. apply Hall, elem_of_app. right. apply Hsubs. by exists sub.
      * done.
      * split; [|done]. intros _. destruct (proj1 Herr Hnb) as [e He].
        exists e. apply elem_of_app. right. apply Hev. by exists sub.
Qed.

(** ** The filter descriptor of a tweak *)

Lemma substring_prefix (a b : string) :
  substring 0 (String.length a) (a +:+ b) = a.
Proof.
  induction a as [|x a IH]; [by destruct b|].
  rewrite str_app_cons. simpl. by rewrite IH.
Qed.

(** [s[:-2]] takes a two-character tail off. *)
Lemma drop_last2_app (a b : string) :
  String.length b = 2 → Tweak.drop_last2 (a +:+ b) = a.
Proof.
  intros Hb. unfold Tweak.drop_last2. rewrite str_length_app, Hb.
  replace (String.length a + 2 - 2) with (String.length a) by lia.
  apply substring_prefix.
Qed.

Lemma str_app_nil_r (a : string) : a +:+ EmptyString = a.
Proof. induction a as [|c a IH]; [done|]. by rewrite str_app_cons, IH. Qed.

Lemma joined_fold {A} (g : A → string) (f : string → A → string)
    (l : list A) (msg : string) :
  (∀ m x, f m x = m +:+ g x +:+ ", ") →
  fold_left f l msg
  = msg +:+ String.concat EmptyString (map (fun x => g x +:+ ", ") l).
Proof.
  intros Hf. revert msg. induction l as [|x l IH]; intros msg.
  - cbn. by rewrite str_app_nil_r.
  - cbn [fold_left map]. rewrite IH, Hf. rewrite str_app_assoc.
    f_equal. destruct l as [|y l]; [|reflexivity].
    cbn [map String.concat]. apply str_app_nil_r.
Qed.

Lemma joined_items {A} (g : A → string) (x : A) (rest : list A) :
  String.concat EmptyString (map (fun x => g x +:+ ", ") (x :: rest))
  = String.concat ", " (map g (x :: rest)) +:+ ", ".
Proof.
  revert x. induction rest as [|y rest IH]; intros x; [done|].
  change (String.concat EmptyString (map (fun x => g x +:+ ", ") (x :: y :: rest)))
    with ((g x +:+ ", ") +:+
          String.concat EmptyString (map (fun x => g x +:+ ", ") (y :: rest))).
  change (String.concat ", " (map g (x :: y :: rest)))
    with (g x +:+ ", " +:+ String.concat ", " (map g (y :: rest))).
  rewrite IH. by rewrite !str_app_assoc.
Qed.

(** X11: a block of the filter descriptor. For a list that is not empty
    the items are quoted and joined by a comma between the parentheses.
    For an empty list the two characters taken off the end are the opening
    parenthesis and its space, so the block closes a parenthesis it never
    opened. *)
Theorem filter_block_text (label msg : string) :
  (∀ x rest,
     Tweak.filter_block label (Some (x :: rest)) msg
     = msg +:+ "    " +:+ label +:+ " = ( "
       +:+ String.concat ", " (map quoted (x :: rest)) +:+ " );" +:+ nl)
  ∧ Tweak.filter_block label (Some []) msg
    = msg +:+ "    " +:+ label +:+ " = " +:+ " );" +:+ nl
  ∧ Tweak.filter_block label None msg = msg.
Proof.
  split; [|split]; [| |done].
  - intros x rest. unfold Tweak.filter_block.
    rewrite (joined_fold quoted) by done. rewrite joined_items.
    rewrite <- !str_app_assoc. rewrite drop_last2_app by done.
    by rewrite !str_app_assoc.
  - unfold Tweak.filter_block. cbn [fold_left].
    change " = ( " with (" = " +:+ "( ").
    rewrite <- !str_app_assoc. rewrite drop_last2_app by done.
    by rewrite !str_app_assoc.
Qed.

(** ** The bridging headers of a module *)

Lemma header_flags_app (a b : list string) (acc : string) :
  BaseModule.header_flags (a ++ b) acc
  = BaseModule.header_flags b (BaseModule.header_flags a acc).
Proof. unfold BaseModule.header_flags. by rewrite fold_left_app. Qed.

(** X12: the bridging header flags hold the module's declared headers
    only: once when the [bridgingHeaders] setting is empty, twice when it
    is not. The headers that setting lists never reach the flags. *)
Theorem bridging_headers_flags (configured declared : list string) :
  BaseModule.bridging_headers configured declared
  = BaseModule.header_flags
      (match configured with
       | [] => declared
       | _ :: _ => declared ++ declared
       end) EmptyString.
Proof.
  unfold BaseModule.bridging_headers.
  destruct configured as [|c configured].
  - by destruct declared.
  - rewrite header_flags_app. by destruct declared.
Qed.

(** ** The results of [Tweak.compile] *)

Lemma tw_first_failure_in (l : list Tweak.Progress) (e : string) :
  Tweak.first_failure l = Some e → Tweak.Finished (Some e) ∈ l.
Proof.
  induction l as [| [|k|[e'|]] l IH]; cbn; try done;
    try (intros H; apply elem_of_cons; right; by apply IH).
  intros [= ->]. apply list_elem_of_here.
Qed.

Lemma tw_first_failure_None (l : list Tweak.Progress) :
  Tweak.first_failure l = None ↔
  ∀ e, Tweak.Finished (Some e) ∉ l.
Proof.
  induction l as [|x l IH]; cbn.
  - split; [|done]. by intros _ e ?%elem_of_nil.
  - destruct x as [|k|[e|]]; cbn;
      try (rewrite IH; split;
           [intros H e [?|Hin]%elem_of_cons; [done|by apply (H e)]
           |intros H e Hin; apply (H e), elem_of_cons; by right]).
    split; [done|]. intros H. exfalso. apply (H e), list_elem_of_here.
Qed.

Section TweakResults.

Context (u : Utils) (tc : Toolchain) (s : Tweak.Self) (rootless : bool)
        (install_dir : option string) (bundles executables : option (list string))
        (files : list SourceEntry).

Lemma tw_start_results_inv (fs0 : FS) :
  tw_results_inv tc s files (Tweak.start s files fs0).
Proof.
  unfold tw_results_inv, Tweak.start; cbn.
  split; [|split; [|split]].
  - intros i r [H _]%lookup_replicate. discriminate H.
  - intros i k [H _]%lookup_replicate. discriminate H.
  - by intros ?%elem_of_nil.
  - done.
Qed.

Lemma tw_after_barrier_cases (st : Tweak.State) :
  let st' := Tweak.after_barrier u tc s rootless install_dir bundles executables
               files st in
  (∃ e, Tweak.first_failure (Tweak.tasks st) = Some e
        ∧ Tweak.events st' = Tweak.events st
        ∧ Tweak.returned st' = Some (Returned (Some e)))
  ∨ (Tweak.first_failure (Tweak.tasks st) = None
     ∧ ∃ extra, Tweak.events st'
                = Tweak.events st ++ ModuleBuilder.ELinker :: extra).
Proof.
  unfold Tweak.after_barrier.
  destruct (Tweak.first_failure _) as [e|]; [left; by exists e|right].
  split; [done|].
  destruct (Tweak.linker _ _ _ _ _ _) as [cmds [e|]].
  - cbn. by eexists.
  - destruct (Tweak.stage _ _ _ _ _ _ _) as [[warnings fs'] staged].
    cbn. rewrite <- app_assoc. by eexists.
Qed.

Lemma tw_file_at (i : nat) (file : string) :
  files !! i ≫= ModuleBuilder.chosen_path (Tweak.files_paths files) = Some file →
  ∃ e, files !! i = Some e ∧ file = ModuleBuilder.entry_path e.
Proof.
  destruct (files !! i) as [e|] eqn:He; [|done]. cbn.
  unfold Tweak.files_paths. rewrite chosen_path_entry.
  - intros [= <-]. by exists e.
  - by eapply list_elem_of_lookup_2.
Qed.

Lemma tw_exec_results_inv (c : Tweak.Choice) (st st' : Tweak.State) :
  tw_build_inv s files st → tw_results_inv tc s files st →
  Tweak.exec u tc s rootless install_dir bundles executables files c st = Some st' →
  tw_results_inv tc s files st'.
Proof.
  intros (Hlen & Hret & Hlink & _) (Hfin & Hat & Hl & Hr) He.
  destruct st as [fs ts wr ev ret]. cbn in Hlen, Hret, Hlink, Hfin, Hat, Hl, Hr.
  destruct c as [i|]; cbn [Tweak.exec] in He;
    cbn [Tweak.fs Tweak.tasks Tweak.written Tweak.events Tweak.returned] in He.
  - (* a task moves: [compile] has not returned and has not linked *)
    assert (Hbusy : ∀ x, ts !! i = Some x → Tweak.is_finished x = false →
                         ret = None ∧ ModuleBuilder.ELinker ∉ ev).
    { intros x Hx Hnf.
      assert (Hnone : ret = None).
      { destruct ret as [o|]; [|done].
        pose proof (Forall_lookup_1 _ _ _ _ (Hret ltac:(done)) Hx) as Hd.
        by rewrite Hd in Hnf. }
      split; [done|]. intros Hin. by apply Hlink in Hin. }
    assert (Hstep : ∀ x next fs' wr' extra,
               ts !! i = Some x → Tweak.is_finished x = false →
               (∀ r, next = Tweak.Finished r →
                     ∃ e, files !! i = Some e
                          ∧ match r with
                            | Some msg =>
                                msg = Tweak.file_error s
                                ∧ ∃ arch, arch ∈ Tweak.archs s
                                          ∧ cc_ok tc (ModuleBuilder.entry_path e)
                                                  arch = false
                            | None =>
                                ∀ arch, arch ∈ Tweak.archs s →
                                        cc_ok tc (ModuleBuilder.entry_path e)
                                              arch = true
                            end) →
               (∀ k, next = Tweak.AtArch k →
                     ∃ e, files !! i = Some e
                          ∧ ∀ j arch, j < k → Tweak.archs s !! j = Some arch →
                                      cc_ok tc (ModuleBuilder.entry_path e) arch
                                      = true) →
               (∀ ev0, ev0 ∈ extra → ev0 ≠ ModuleBuilder.ELinker) →
               tw_results_inv tc s files
                 {| Tweak.fs := fs'; Tweak.tasks := <[i := next]> ts;
                    Tweak.written := wr'; Tweak.events := ev ++ extra;
                    Tweak.returned := ret |}).
    { intros x next fs' wr' extra Hx Hnf Hnf' Hna Hextra.
      destruct (Hbusy x Hx Hnf) as [-> Hnl].
      unfold tw_results_inv; cbn.
      split; [|split; [|split]].
      - intros i' r. destruct (decide (i' = i)) as [->|Hne].
        + rewrite list_lookup_insert_eq by (by eapply lookup_lt_Some).
          intros [= ->]. by apply Hnf'.
        + rewrite list_lookup_insert_ne by done. apply Hfin.
      - intros i' k. destruct (decide (i' = i)) as [->|Hne].
        + rewrite list_lookup_insert_eq by (by eapply lookup_lt_Some).
          intros [= ->]. by apply Hna.
        + rewrite list_lookup_insert_ne by done. apply Hat.
      - intros [Hin|Hin]%elem_of_app; [done|]. by apply Hextra in Hin.
      - done. }
    destruct (ts !! i) as [[|k|r]|] eqn:Hti; try done;
      (destruct (files !! i ≫= _) as [file|] eqn:Hfile; [|done]);
      destruct (tw_file_at i file Hfile) as (e & Hei & ->).
    + injection He as <-.
      rewrite <- (app_nil_r ev).
      apply (Hstep Tweak.Waiting (Tweak.AtArch 0) fs wr []); try done.
      * intros k [= <-]. exists e. split; [done|]. intros j arch Hj. lia.
      * by intros ev0 ?%elem_of_nil.
    + destruct (Hat i k Hti) as (e' & He' & Hbefore).
      rewrite Hei in He'. injection He' as <-.
      destruct (Tweak.archs s !! k) as [arch|] eqn:Harch.
      * set (seen := rmtree _ fs) in He.
        assert (Hout : ∃ fs' wr',
                   st' = {| Tweak.fs := fs';
                            Tweak.tasks :=
                              <[i := if cc_ok tc (ModuleBuilder.entry_path e) arch
                                     then Tweak.AtArch (S k)
                                     else Tweak.Finished (Some (Tweak.file_error s))]>
                                ts;
                            Tweak.written := wr';
                            Tweak.events :=
                              ev ++ [ModuleBuilder.EInvoke
                                       (ModuleBuilder.entry_path e) arch
                                       (ModuleBuilder.peers (Tweak.files_paths files)
                                          (ModuleBuilder.entry_path e))
                                       seen wr];
                            Tweak.returned := ret |}).
        { destruct (cc_output tc _ arch); injection He as <-; by eexists _, _. }
        destruct Hout as (fs' & wr' & ->).
        apply (Hstep (Tweak.AtArch k) _ fs' wr' _ eq_refl); [done| | |].
        -- intros r Hnext. exists e. split; [done|].
           destruct (cc_ok tc _ arch) eqn:Hcc; [done|].
           injection Hnext as <-. split; [done|]. exists arch.
           split; [by eapply list_elem_of_lookup_2|done].
        -- intros k' Hnext. exists e. split; [done|].
           destruct (cc_ok tc _ arch) eqn:Hcc; [|done].
           injection Hnext as <-. intros j arch' Hj Ha.
           destruct (decide (j = k)) as [->|Hne].
           ++ rewrite Harch in Ha. by injection Ha as <-.
           ++ apply (Hbefore j arch'); [lia|done].
        -- by intros ev0 ->%list_elem_of_singleton.
      * injection He as <-. rewrite <- (app_nil_r ev).
        apply (Hstep (Tweak.AtArch k) (Tweak.Finished None) fs wr [] eq_refl);
          [done| |done|by intros ev0 ?%elem_of_nil].
        intros r [= <-]. exists e. split; [done|].
        intros arch (j & Hj)%list_elem_of_lookup_1.
        apply (Hbefore j arch); [|done].
        apply lookup_ge_None in Harch. apply lookup_lt_Some in Hj. lia.
  - destruct ret as [o|]; [done|].
    destruct (forallb _ ts) eqn:Hall; [|done]. injection He as <-.
    set (st0 := {| Tweak.fs := fs; Tweak.tasks := ts; Tweak.written := wr;
                   Tweak.events := ev; Tweak.returned := None |}).
    destruct (tw_after_barrier_frame u tc s rootless install_dir bundles
                executables files st0) as (Htasks & _ & _).
    unfold tw_results_inv. rewrite Htasks. cbn [Tweak.tasks st0].
    split; [exact Hfin|]. split; [exact Hat|].
    destruct (tw_after_barrier_cases st0)
      as [(e & Hff & Hev & Hre)|(Hff & extra & Hev)].
    + split.
      * rewrite Hev. cbn. intros Hin. by apply Hlink in Hin.
      * intros o e0. rewrite Hre. cbn in Hff. rewrite Hff.
        by intros [= <-] [= <-].
    + split; [by intros _|].
      intros o e0 _. cbn in Hff. by rewrite Hff.
Qed.

Lemma tw_run_results_inv (schedule : list Tweak.Choice) (st st' : Tweak.State) :
  tw_build_inv s files st → tw_results_inv tc s files st →
  Tweak.run_schedule u tc s rootless install_dir bundles executables files
    schedule st = Some st' →
  tw_build_inv s files st' ∧ tw_results_inv tc s files st'.
Proof.
  revert st. induction schedule as [|c schedule IH]; intros st Hinv Hres; cbn.
  - by intros [= <-].
  - destruct (Tweak.exec _ _ _ _ _ _ _ _ c st) as [st1|] eqn:He; [|done].
    apply IH; [by eapply tw_exec_inv|by eapply tw_exec_results_inv].
Qed.

End TweakResults.

(** X13: in [Tweak.compile] too a failed compilation keeps the module
    from linking: if the compiler fails for some file and architecture,
    [__linker] is never called and [compile] returns, when it returns, the
    compile error. And when [__linker] is called, every file compiled for
    every architecture. *)
Theorem tweak_compile_failure_prevents_link (u : Utils) (tc : Toolchain)
    (s : Tweak.Self) (rootless : bool) (install_dir : option string)
    (bundles executables : option (list string)) (files : list SourceEntry)
    (fs0 : FS) (schedule : list Tweak.Choice) (st : Tweak.State) :
  Tweak.run_schedule u tc s rootless install_dir bundles executables files
    schedule (Tweak.start s files fs0) = Some st →
  (∀ e arch, e ∈ files → arch ∈ Tweak.archs s →
             cc_ok tc (ModuleBuilder.entry_path e) arch = false →
             (ModuleBuilder.ELinker ∉ Tweak.events st)
             ∧ (∀ o, Tweak.returned st = Some o →
                     o = Returned (Some (Tweak.file_error s))))
  ∧ (ModuleBuilder.ELinker ∈ Tweak.events st →
     ∀ e arch, e ∈ files → arch ∈ Tweak.archs s →
               cc_ok tc (ModuleBuilder.entry_path e) arch = true).
Proof.
  intros Hrun.
  destruct (tw_run_results_inv u tc s rootless install_dir bundles executables
              files schedule _ st (tw_start_inv s files fs0)
              (tw_start_results_inv tc s files fs0) Hrun)
    as [(Hlen & Hret & Hlink & _) (Hfin & _ & Hl & Hr)].
  assert (Hdone : Tweak.returned st ≠ None →
                  ∀ e arch, e ∈ files → arch ∈ Tweak.archs s →
                            cc_ok tc (ModuleBuilder.entry_path e) arch = false →
                            Tweak.Finished (Some (Tweak.file_error s))
                            ∈ Tweak.tasks st).
  { intros Hre e arch (i & He)%list_elem_of_lookup_1 Harch Hcc.
    assert (Hi : i < length (Tweak.tasks st))
      by (rewrite Hlen; by eapply lookup_lt_Some).
    destruct (lookup_lt_is_Some_2 _ _ Hi) as [x Hx].
    pose proof (Forall_lookup_1 _ _ _ _ (Hret Hre) Hx) as Hd.
    destruct x as [|k|r]; try done.
    destruct (Hfin i r Hx) as (e' & He' & Hres).
    rewrite He in He'. injection He' as <-.
    destruct r as [msg|].
    - destruct Hres as [-> _]. by eapply list_elem_of_lookup_2.
    - by rewrite (Hres arch Harch) in Hcc. }
  split.
  - intros e arch He Harch Hcc. split.
    + intros Hlk.
      pose proof (Hdone (Hlink Hlk) e arch He Harch Hcc) as Hin.
      by apply (proj1 (tw_first_failure_None _) (Hl Hlk)) in Hin.
    + intros o Ho.
      pose proof (Hdone ltac:(by rewrite Ho) e arch He Harch Hcc) as Hin.
      destruct (Tweak.first_failure (Tweak.tasks st)) as [e0|] eqn:Hff.
      * rewrite (Hr o e0 Ho eq_refl). do 2 f_equal.
        apply tw_first_failure_in, list_elem_of_lookup_1 in Hff as [i Hi].
        destruct (Hfin i _ Hi) as (e' & _ & Hmsg & _). done.
      * by apply (proj1 (tw_first_failure_None _) Hff) in Hin.
  - intros Hlk e arch He Harch.
    destruct (cc_ok tc (ModuleBuilder.entry_path e) arch) eqn:Hcc; [done|].
    pose proof (Hdone (Hlink Hlk) e arch He Harch Hcc) as Hin.
    by apply (proj1 (tw_first_failure_None _) (Hl Hlk)) in Hin.
Qed.

(** The demo tweak with a compiler that rejects the second file. *)
Lemma tweak_compile_failure_prevents_link_witness :
  demo_tweak_run demo_failing_tools demo_tweak_failing_schedule
  = Some demo_tweak_failing_final
  ∧ Tweak.returned demo_tweak_failing_final
    = Some (Returned (Some (Tweak.file_error (demo_tweak true))))
  ∧ (ModuleBuilder.ELinker ∉ Tweak.events demo_tweak_failing_final).
Proof.
  assert (Hrun : demo_tweak_run demo_failing_tools demo_tweak_failing_schedule
                 = Some demo_tweak_failing_final) by reflexivity.
  assert (He : Plain "/p/b.m" ∈ demo_files)
    by (apply list_elem_of_In; right; left; reflexivity).
  assert (Ha : "arm64" ∈ Tweak.archs (demo_tweak true))
    by (apply list_elem_of_In; left; reflexivity).
  destruct (proj1 (tweak_compile_failure_prevents_link (demo_utils [] [] [])
                     demo_failing_tools (demo_tweak true) false None None None
                     demo_files demo_stale_fs demo_tweak_failing_schedule
                     demo_tweak_failing_final Hrun)
              (Plain "/p/b.m") "arm64" He Ha eq_refl) as [Hl Hr].
  split; [exact Hrun|]. split; [|exact Hl].
  destruct (Tweak.returned demo_tweak_failing_final) as [o|] eqn:Ho.
  - f_equal. exact (Hr o eq_refl).
  - discriminate Ho.
Defined.

(** The demo tweak under a schedule that starts with the second file: at
    the link both tasks have returned. *)
Lemma tweak_compile_barrier_witness :
  demo_tweak_run demo_tools demo_tweak_schedule = Some demo_tweak_final
  ∧ ModuleBuilder.ELinker ∈ Tweak.events demo_tweak_final
  ∧ ∀ i, i < 2 → ∃ r, Tweak.tasks demo_tweak_final !! i
                      = Some (Tweak.Finished r).
Proof.
  assert (Hrun : demo_tweak_run demo_tools demo_tweak_schedule
                 = Some demo_tweak_final) by reflexivity.
  assert (Hl : ModuleBuilder.ELinker ∈ Tweak.events demo_tweak_final).
  { apply list_elem_of_In. vm_compute.
    repeat (first [left; reflexivity | right]). }
  split; [exact Hrun|]. split; [exact Hl|].
  exact (tweak_compile_barrier (demo_utils [] [] []) demo_tools
           (demo_tweak true) false None None None demo_files demo_stale_fs
           demo_tweak_schedule demo_tweak_final Hrun Hl).
Defined.

(** ** Staging: what is there stays *)







(** ** The project generator *)

Lemma field_eq (indent py : string) (item : string * Luzgen.Value) :
  Luzgen.field indent py item = py +:+ field_text indent item +:+ ", ".
Proof.
  unfold Luzgen.field, field_text. destruct item as [k [v|v]]; cbn [fst snd];
    by rewrite !str_app_assoc.
Qed.

(** X16: a block of the generated [luz.py]. The items of a block that is
    not empty are written one per line, separated by commas, between the
    parentheses of the constructor. For an empty block the two characters
    taken off the end belong to the constructor's name. *)
Theorem generated_block_text (py key : string) :
  (∀ item rest,
     Luzgen.block py (key, item :: rest)
     = if String.eqb key "control"
       then py +:+ "control = Control("
            +:+ String.concat ", " (map (field_text Luzgen.tab) (item :: rest))
            +:+ nl +:+ ")" +:+ nl +:+ nl
       else py +:+ "modules = [" +:+ nl +:+ "    Module("
            +:+ String.concat ", "
                  (map (field_text (Luzgen.tab +:+ Luzgen.tab)) (item :: rest))
            +:+ nl +:+ Luzgen.tab +:+ ")" +:+ nl +:+ "]")
  ∧ Luzgen.block py ("control", [])
    = py +:+ "control = Contro" +:+ nl +:+ ")" +:+ nl +:+ nl.
Proof.
  split.
  - intros item rest. unfold Luzgen.block. cbn [fst snd].
    destruct (String.eqb key "control").
    + rewrite (joined_fold (field_text Luzgen.tab))
        by (intros; apply field_eq).
      rewrite joined_items. rewrite <- !str_app_assoc.
      rewrite drop_last2_app by done. by rewrite !str_app_assoc.
    + rewrite (joined_fold (field_text (Luzgen.tab +:+ Luzgen.tab)))
        by (intros; apply field_eq).
      rewrite joined_items. rewrite <- !str_app_assoc.
      rewrite drop_last2_app by done. by rewrite !str_app_assoc.
  - unfold Luzgen.block. cbn [fst snd String.eqb fold_left].
    change "control = Control(" with ("control = Contro" +:+ "l(").
    rewrite <- !str_app_assoc. rewrite drop_last2_app by done.
    by rewrite !str_app_assoc.
Qed.

(** X17: [ask_for] puts the question once, and a second time, after an
    error message, only when there is no default and the first answer is
    empty; that second answer is returned as it is. A first answer that
    is not empty is returned; an empty one with a default gives the
    default. So the value is empty exactly when an empty default is
    accepted with an empty answer, or when, without a default, both
    answers are empty. *)
Theorem ask_for_empty_iff (type key : string) (default : option string)
    (dsc dsc1 extra_msg : string) (answers : nat → string) (pos : nat) :
  let out := Luzgen.ask_for type key default dsc dsc1 extra_msg answers pos in
  (out.1.2 = EmptyString ↔
   answers pos = EmptyString
   ∧ match default with
     | Some d => d = EmptyString
     | None => answers (S pos) = EmptyString
     end)
  ∧ (out.2 = S (S pos) ↔ default = None ∧ answers pos = EmptyString)
  ∧ (out.2 = S pos ∨ out.2 = S (S pos))
  ∧ (answers pos ≠ EmptyString →
     out = ([Luzgen.EAsk (Luzgen.prompt dsc dsc1 "project" key extra_msg default)],
            answers pos, S pos))
  ∧ (answers pos = EmptyString →
     out = match default with
           | Some d =>
               ([Luzgen.EAsk
                   (Luzgen.prompt dsc dsc1 "project" key extra_msg (Some d))],
                d, S pos)
           | None =>
               ([Luzgen.EAsk (Luzgen.prompt dsc dsc1 "project" key extra_msg None);
                 Luzgen.EError "You must enter a value.";
                 Luzgen.EAsk (Luzgen.prompt dsc dsc1 type key extra_msg None)],
                answers (S pos), S (S pos))
           end).
Proof.
  intros out. subst out. unfold Luzgen.ask_for.
  destruct default as [d|];
    destruct (String.eqb_spec (answers pos) EmptyString) as [He|Hne];
    cbn [fst snd app]; intuition (try congruence; try lia).
Qed.

(** ** The include flags of a tweak *)

Lemma prefix_app_self (p b : string) : String.prefix p (p +:+ b) = true.
Proof.
  induction p as [|c p IH]; [by destruct b|].
  rewrite str_app_cons. cbn. by destruct (ascii_dec c c).
Qed.

Lemma prefix_app_r (p a b : string) :
  String.prefix p a = true → String.prefix p (a +:+ b) = true.
Proof.
  revert a. induction p as [|c p IH]; intros a; [by destruct (a +:+ b)|].
  destruct a as [|x a]; [done|]. rewrite str_app_cons. cbn.
  destruct (ascii_dec c x); [apply IH|done].
Qed.

Lemma contains_app_r (p a b : string) :
  contains p a = true → contains p (a +:+ b) = true.
Proof.
  induction a as [|x a IH].
  - cbn. rewrite orb_false_r. intros H.
    destruct p as [|c p]; [|done]. by destruct b.
  - rewrite str_app_cons. cbn [contains].
    intros [H|H]%orb_true_iff; apply orb_true_iff.
    + left. by apply (prefix_app_r p (String x a) b).
    + right. by apply IH.
Qed.

Lemma contains_app_l (p a b : string) : contains p (a +:+ p +:+ b) = true.
Proof.
  induction a as [|x a IH].
  - change (EmptyString +:+ p +:+ b) with (p +:+ b).
    destruct (p +:+ b) eqn:E; cbn [contains]; rewrite <- E, prefix_app_self; done.
  - rewrite str_app_cons. cbn [contains]. rewrite IH. apply orb_true_r.
Qed.

(** X18: the include flags of [Tweak.compile]. The loop only appends to
    the flags it starts from, and afterwards the directory of the original
    of every preprocessed file occurs in them. The test is one of text: a
    directory whose name occurs anywhere in the flags gets no flag of its
    own. *)
Theorem include_flags_grow (files : list SourceEntry) (include : string) :
  (∃ extra, Tweak.include_flags files include = include +:+ extra)
  ∧ (∀ new_path old_path,
       Logos new_path old_path ∈ files →
       contains (ModuleBuilder.dirname_text old_path)
                (Tweak.include_flags files include) = true)
  ∧ (∀ new_path old_path,
       contains (ModuleBuilder.dirname_text old_path) include = true →
       Tweak.include_flags [Logos new_path old_path] include = include).
Proof.
  split; [|split].
  - unfold Tweak.include_flags. revert include.
    induction files as [|[p|n o] files IH]; intros include; cbn [fold_left].
    + exists EmptyString. by rewrite str_app_nil_r.
    + apply IH.
    + destruct (contains _ include); [apply IH|].
      destruct (IH (include +:+ " -I" +:+ ModuleBuilder.dirname_text o))
        as [extra ->].
      eexists. by rewrite str_app_assoc.
  - unfold Tweak.include_flags. revert include.
    induction files as [|[p|n o] files IH]; intros include n' o' Hin;
      cbn [fold_left].
    + by apply elem_of_nil in Hin.
    + apply elem_of_cons in Hin as [Hin|Hin]; [done|].
      by apply (IH include n' o').
    + assert (Hgrow : ∀ inc0,
                 contains (ModuleBuilder.dirname_text o) inc0 = true →
                 contains (ModuleBuilder.dirname_text o)
                   (fold_left
                      (fun include file =>
                         match file with
                         | Logos _ orig_path =>
                             if contains (ModuleBuilder.dirname_text orig_path)
                                         include
                             then include
                             else include +:+ " -I"
                                  +:+ ModuleBuilder.dirname_text orig_path
                         | Plain _ => include
                         end) files inc0) = true).
      { clear. induction files as [|[p|n1 o1] files IH]; intros inc0 H;
          cbn [fold_left]; [done|by apply IH|].
        apply IH.
        destruct (contains (ModuleBuilder.dirname_text o1) inc0); [done|].
        by apply contains_app_r. }
      apply elem_of_cons in Hin as [Hin|Hin].
      * injection Hin as -> ->. apply Hgrow.
        destruct (contains _ include) eqn:Hc; [done|].
        replace (include +:+ " -I" +:+ ModuleBuilder.dirname_text o)
          with ((include +:+ " -I") +:+ ModuleBuilder.dirname_text o
                +:+ EmptyString)
          by (by rewrite str_app_nil_r, str_app_assoc).
        apply contains_app_l.
      * by apply (IH _ n' o').
  - intros n o Hc. unfold Tweak.include_flags. cbn [fold_left]. by rewrite Hc.
Qed.
